(** * Authorship tools: extraction, renumbering and rendering of author rosters

    A shallow embedding of the three scripts [author_doc_to_csv.py],
    [renumber_affiliations.py] and [csv_to_author_doc.py], and the
    properties of their parsing, renumbering and sorting logic.

    Python values are modelled as follows.
    - [str] is [string]; a character is a code point below 256, so that the
      predicates of the interpreter ([str.isspace], the regular expression
      classes [\d] and [\s], [str.isdigit], [str.lower]) are the restrictions
      of the Unicode ones to that range.
    - [int] is [N] (the scripts only count upwards from 1 and parse digits).
    - a [dict] that is iterated is an association list in insertion order
      with one pair per key; a [dict] that is only looked up is a [gmap].
    - an exception is a value of [exn]; fallible code returns [result]. *)

From Stdlib Require Import Ascii NArith.
From Stdlib Require OrderedTypeEx.
From stdpp Require Import base list strings gmap pretty sorting.

Local Open Scope N_scope.

(** ** Python built-ins used by the scripts *)

Inductive exn : Type :=
  | KeyError (key : string)
  | ValueError (arg : string)
  | TypeError.

Inductive result (A : Type) : Type :=
  | Ok (a : A)
  | Raise (e : exn).
Arguments Ok {A} a.
Arguments Raise {A} e.

#[export] Instance result_ret : MRet result := @Ok.
#[export] Instance result_bind : MBind result := λ A B f r,
  match r with
  | Ok a => f a
  | Raise e => Raise e
  end.

Module Py.

Definition ord (c : ascii) : N := N_of_ascii c.

(** [str.isspace] on one character, which is also the class [\s]. *)
Definition isspace (c : ascii) : bool :=
  let n := ord c in
  ((9 <=? n) && (n <=? 13)) || ((28 <=? n) && (n <=? 32))
  || (n =? 133) || (n =? 160).

(** The class [\d]: the decimal digits, which are also what [int] reads. *)
Definition isdecimal (c : ascii) : bool :=
  let n := ord c in (48 <=? n) && (n <=? 57).

(** [str.isdigit] on one character: the decimal digits and the
    superscript digits (code points 178, 179 and 185). *)
Definition isdigit_char (c : ascii) : bool :=
  let n := ord c in
  isdecimal c || (n =? 178) || (n =? 179) || (n =? 185).

Definition lower_char (c : ascii) : ascii :=
  let n := ord c in
  if ((65 <=? n) && (n <=? 90))
     || ((192 <=? n) && (n <=? 222) && negb (n =? 215))
  then ascii_of_N (n + 32) else c.

Fixpoint lower (s : string) : string :=
  match s with
  | "" => ""
  | String c s' => String (lower_char c) (lower s')
  end.

Fixpoint forallb (p : ascii → bool) (s : string) : bool :=
  match s with
  | "" => true
  | String c s' => p c && forallb p s'
  end.

(** [s.isdigit()]: false on the empty string. *)
Definition isdigit (s : string) : bool :=
  match s with
  | "" => false
  | _ => forallb isdigit_char s
  end.

(** [s.lstrip(chars)], [s.rstrip(chars)] and [s.strip(chars)], the
    character set being given by its membership test. *)
Fixpoint lstrip_chars (p : ascii → bool) (s : string) : string :=
  match s with
  | "" => ""
  | String c s' => if p c then lstrip_chars p s' else s
  end.

Fixpoint rstrip_chars (p : ascii → bool) (s : string) : string :=
  match s with
  | "" => ""
  | String c s' =>
      match rstrip_chars p s' with
      | "" => if p c then "" else String c ""
      | r => String c r
      end
  end.

Definition strip_chars (p : ascii → bool) (s : string) : string :=
  rstrip_chars p (lstrip_chars p s).

(** [s.strip()] *)
Definition strip : string → string := strip_chars isspace.

Definition is_char (a : ascii) (c : ascii) : bool := bool_decide (c = a).

(** The line feed character. *)
Definition LF : ascii := "010".

(** The longest prefix whose characters all satisfy [p]; what is left of
    the string after it is [lstrip_chars p s]. *)
Fixpoint take_while (p : ascii → bool) (s : string) : string :=
  match s with
  | "" => ""
  | String c s' => if p c then String c (take_while p s') else ""
  end.

(** [s.split(sep)] for a one-character separator. *)
Fixpoint split (sep : ascii) (s : string) : list string :=
  match s with
  | "" => [""]
  | String c s' =>
      if bool_decide (c = sep) then "" :: split sep s'
      else match split sep s' with
           | w :: ws => String c w :: ws
           | [] => [String c ""]
           end
  end.

(** [s.split()]: the maximal runs of characters that are not spaces. *)
Fixpoint split_ws_go (cur : string) (s : string) : list string :=
  match s with
  | "" => match cur with "" => [] | _ => [String.rev cur] end
  | String c s' =>
      if isspace c
      then match cur with
           | "" => split_ws_go "" s'
           | _ => String.rev cur :: split_ws_go "" s'
           end
      else split_ws_go (String c cur) s'
  end.

Definition split_ws (s : string) : list string := split_ws_go "" s.

(** [sep.join(l)] *)
Fixpoint join (sep : string) (l : list string) : string :=
  match l with
  | [] => ""
  | [x] => x
  | x :: l' => x +:+ sep +:+ join sep l'
  end.

(** [s.replace(a, b)] for one-character [a] and [b]. *)
Fixpoint replace (a b : ascii) (s : string) : string :=
  match s with
  | "" => ""
  | String c s' => String (if bool_decide (c = a) then b else c) (replace a b s')
  end.

(** [str(n)] for a non-negative integer. *)
Definition str (n : N) : string := pretty n.

(** [int(s)]: the value of a non-empty string of decimal digits, and
    [ValueError] on anything else the scripts can pass to it. *)
Fixpoint int_go (acc : N) (s : string) : option N :=
  match s with
  | "" => Some acc
  | String c s' =>
      if isdecimal c then int_go (10 * acc + (ord c - 48)) s' else None
  end.

Definition int (s : string) : result N :=
  match s with
  | "" => Raise (ValueError s)
  | _ => match int_go 0 s with
         | Some n => Ok n
         | None => Raise (ValueError s)
         end
  end.

End Py.

(** ** Insertion-ordered dictionaries with string keys and values *)

Abbreviation dict := (list (string * string)).

Module Dict.

(** [d.get(k)] *)
Fixpoint get (d : dict) (k : string) : option string :=
  match d with
  | [] => None
  | (k', v) :: d' => if decide (k' = k) then Some v else get d' k
  end.

(** [k in d] *)
Definition mem (k : string) (d : dict) : bool :=
  match get d k with Some _ => true | None => false end.

(** [d[k]] *)
Definition getitem (d : dict) (k : string) : result string :=
  match get d k with
  | Some v => Ok v
  | None => Raise (KeyError k)
  end.

(** [d[k] = v]: a key that is present keeps its place. *)
Fixpoint set (d : dict) (k v : string) : dict :=
  match d with
  | [] => [(k, v)]
  | (k', v') :: d' =>
      if decide (k' = k) then (k, v) :: d' else (k', v') :: set d' k v
  end.

Definition keys (d : dict) : list string := d.*1.

Definition items (d : dict) : list (string * string) := d.

(** The association lists that are dictionaries. *)
Definition wf (d : dict) : Prop := NoDup (keys d).

End Dict.

(** ** renumber_affiliations.py *)

Module Renumber.

(** A row of the names table, as [read_inputs] builds it. *)
Record author : Type := Author {
  last : string;
  first : string;
  affils : string
}.

(** The local variables of [renumber_affiliations], and what it printed. *)
Record engine : Type := Engine {
  old_to_new_id_map : gmap string string;
  new_affiliations_list : list (string * string);
  current_new_id : N;
  updated_names_data : list author;
  stdout : list string
}.

Definition initial : engine :=
  {| old_to_new_id_map := ∅;
     new_affiliations_list := [];
     current_new_id := 1;
     updated_names_data := [];
     stdout := [] |}.

(** *** Statements over the local variables, which may raise *)

Definition M (A : Type) : Type := engine → result (A * engine).

Definition ret {A} (a : A) : M A := λ st, Ok (a, st).

Definition bind {A B} (m : M A) (f : A → M B) : M B := λ st,
  match m st with
  | Ok (a, st') => f a st'
  | Raise e => Raise e
  end.

#[export] Instance M_ret : MRet M := @ret.
#[export] Instance M_bind : MBind M := λ A B f m, bind m f.

Definition gets {A} (f : engine → A) : M A := λ st, Ok (f st, st).

Definition modify (f : engine → engine) : M unit := λ st, Ok (tt, f st).

Definition lift {A} (r : result A) : M A := λ st,
  match r with
  | Ok a => Ok (a, st)
  | Raise e => Raise e
  end.

(** [for x in l: body] *)
Fixpoint for_each {A} (l : list A) (body : A → M unit) : M unit :=
  match l with
  | [] => ret tt
  | x :: l' => body x ;; for_each l' body
  end.

(** [for x in l: ...; acc.append(body)], for a list [acc] that is local
    to the loop. *)
Fixpoint collect {A B} (l : list A) (body : A → M B) : M (list B) :=
  match l with
  | [] => ret []
  | x :: l' => y ← body x; ys ← collect l' body; ret (y :: ys)
  end.

(** [oid in old_to_new_id_map] *)
Definition seen (oid : string) : M bool :=
  gets (λ st, bool_decide (is_Some (old_to_new_id_map st !! oid))).

(** [old_to_new_id_map[oid]] *)
Definition remap_getitem (oid : string) : M string := λ st,
  match old_to_new_id_map st !! oid with
  | Some v => Ok (v, st)
  | None => Raise (KeyError oid)
  end.

(** [old_to_new_id_map[oid] = v] *)
Definition remap_setitem (oid v : string) : M unit :=
  modify (λ st,
    {| old_to_new_id_map := <[oid := v]> (old_to_new_id_map st);
       new_affiliations_list := new_affiliations_list st;
       current_new_id := current_new_id st;
       updated_names_data := updated_names_data st;
       stdout := stdout st |}).

(** [new_affiliations_list.append(p)] *)
Definition append_affiliation (p : string * string) : M unit :=
  modify (λ st,
    {| old_to_new_id_map := old_to_new_id_map st;
       new_affiliations_list := new_affiliations_list st ++ [p];
       current_new_id := current_new_id st;
       updated_names_data := updated_names_data st;
       stdout := stdout st |}).

(** [current_new_id += 1] *)
Definition increment : M unit :=
  modify (λ st,
    {| old_to_new_id_map := old_to_new_id_map st;
       new_affiliations_list := new_affiliations_list st;
       current_new_id := current_new_id st + 1;
       updated_names_data := updated_names_data st;
       stdout := stdout st |}).

(** [updated_names_data.append(a)] *)
Definition append_author (a : author) : M unit :=
  modify (λ st,
    {| old_to_new_id_map := old_to_new_id_map st;
       new_affiliations_list := new_affiliations_list st;
       current_new_id := current_new_id st;
       updated_names_data := updated_names_data st ++ [a];
       stdout := stdout st |}).

(** [print(line)] *)
Definition print (line : string) : M unit :=
  modify (λ st,
    {| old_to_new_id_map := old_to_new_id_map st;
       new_affiliations_list := new_affiliations_list st;
       current_new_id := current_new_id st;
       updated_names_data := updated_names_data st;
       stdout := stdout st ++ [line] |}).

(** *** The function *)

Definition warning (a : author) (oid : string) : string :=
  "Warning: Author " +:+ last a +:+ " references affiliation ID '" +:+ oid
  +:+ "', which is not in the affiliations file. Keeping original ID.".

(** [[x.strip() for x in s.split(',') if x.strip()]] *)
Definition original_ids (s : string) : list string :=
  filter (λ x, x ≠ "") (Py.strip <$> Py.split "," s).

(** The body of the loop over one author's ids; its value is what is
    appended to [new_ids_for_this_author]. *)
Definition visit (affiliations_map : dict) (a : author) (oid : string)
  : M string :=
  known ← seen oid;
  (if negb known then
     if negb (Dict.mem oid affiliations_map) then
       print (warning a oid) ;;
       remap_setitem oid oid
     else
       cur ← gets current_new_id;
       let new_id := Py.str cur in
       remap_setitem oid new_id ;;
       text ← lift (Dict.getitem affiliations_map oid);
       append_affiliation (new_id, text) ;;
       increment
   else ret tt) ;;
  remap_getitem oid.

(** The body of the loop over the authors. *)
Definition each_author (affiliations_map : dict) (a : author) : M unit :=
  let original_ids_str := affils a in
  if bool_decide (Py.strip original_ids_str = "") then append_author a
  else
    new_ids_for_this_author ←
      collect (original_ids original_ids_str) (visit affiliations_map a);
    append_author
      {| last := last a; first := first a;
         affils := Py.join "," new_ids_for_this_author |}.

(** The body of the loop over the orphaned affiliations. *)
Definition each_item (item : string * string) : M unit :=
  let '(oid, text) := item in
  known ← seen oid;
  if negb known then
    cur ← gets current_new_id;
    let new_id := Py.str cur in
    remap_setitem oid new_id ;;
    append_affiliation (new_id, text) ;;
    increment
  else ret tt.

(** The whole body, up to the [return]. *)
Definition run (names_data : list author) (affiliations_map : dict)
  : result engine :=
  match (for_each names_data (each_author affiliations_map) ;;
         for_each (Dict.items affiliations_map) each_item) initial with
  | Ok (_, st) => Ok st
  | Raise e => Raise e
  end.

Definition renumber_affiliations
    (names_data : list author) (affiliations_map : dict)
  : result (list (string * string) * list author) :=
  match run names_data affiliations_map with
  | Ok st => Ok (new_affiliations_list st, updated_names_data st)
  | Raise e => Raise e
  end.

End Renumber.

(** ** author_doc_to_csv.py *)

Module Extract.

(** *** [parse_data] *)

(** The local variables of the loop of [parse_data]. *)
Record segmenter : Type := Segmenter {
  author_lines : list string;
  affiliation_lines : list string;
  found_split : bool;
  title_skipped : bool
}.

Definition segmenter_initial : segmenter :=
  {| author_lines := []; affiliation_lines := [];
     found_split := false; title_skipped := false |}.

(** The body of the loop over the lines. *)
Definition scan_line (st : segmenter) (line : string) : segmenter :=
  let clean_line := Py.strip line in
  if bool_decide (clean_line = "") then st
  else if bool_decide (Py.lower clean_line = "affiliations") then
    {| author_lines := author_lines st;
       affiliation_lines := affiliation_lines st;
       found_split := true;
       title_skipped := title_skipped st |}
  else if negb (found_split st) then
    if negb (title_skipped st) then
      {| author_lines := author_lines st;
         affiliation_lines := affiliation_lines st;
         found_split := found_split st;
         title_skipped := true |}
    else
      {| author_lines := author_lines st ++ [clean_line];
         affiliation_lines := affiliation_lines st;
         found_split := found_split st;
         title_skipped := title_skipped st |}
  else
    {| author_lines := author_lines st;
       affiliation_lines := affiliation_lines st ++ [clean_line];
       found_split := found_split st;
       title_skipped := title_skipped st |}.

Definition scan_lines (lines : list string) : segmenter :=
  foldl scan_line segmenter_initial lines.

Definition parse_data (full_text : string) : string * string :=
  let lines := Py.split Py.LF full_text in
  let st := scan_lines lines in
  (Py.join (String Py.LF "") (author_lines st),
   Py.join (String Py.LF "") (affiliation_lines st)).

(** *** [parse_affiliations_to_dict] *)

(** [re.match] of a line against the pattern of the script (at the start
    of the line, group 1: one or more [\d]; then any number of [\s];
    group 2: any number of characters other than the line feed): the two
    groups, when the line starts with a digit.  Group 1 is the longest
    run of digits, the spaces after it are all taken, and group 2 runs
    up to the next line feed. *)
Definition match_affiliation (line : string) : option (string * string) :=
  match Py.take_while Py.isdecimal line with
  | "" => None
  | digits =>
      let rest := Py.lstrip_chars Py.isspace
                    (Py.lstrip_chars Py.isdecimal line) in
      Some (digits, Py.take_while (λ c, negb (bool_decide (c = Py.LF))) rest)
  end.

(** The body of the loop over the lines. *)
Definition add_affiliation (affiliations : dict) (line : string) : dict :=
  let line := Py.strip line in
  match match_affiliation line with
  | Some (aff_id, aff_text) => Dict.set affiliations aff_id aff_text
  | None => affiliations
  end.

Definition parse_affiliations_to_dict (text : string) : dict :=
  let lines := Py.split Py.LF (Py.strip text) in
  foldl add_affiliation [] lines.

(** *** [parse_authors_to_list] *)

Record author_record : Type := AuthorRecord {
  first_middle : string;
  last_name : string;
  affiliations : string
}.

(** The pattern of [parse_authors_to_list] is: group 1, one or more
    characters that are not [\d], as few as possible; group 2, one [\d]
    and then any number of [\d] or commas, as many as possible.  A scan
    for it is looking for the start of a match, or inside group 1 (read
    so far, reversed), or inside group 2 (with group 1, and group 2 read
    so far, both reversed). *)
Inductive scanner : Type :=
  | Start
  | Name (name : string)
  | Digits (name : string) (digits : string).

(** [pattern.finditer(s)], as the list of the pairs of groups.  A match
    starts at a character that is not a digit; the lazy group 1 stops at
    the first digit, and there is no match when the text ends before one;
    group 2 takes that digit and every digit or comma after it, and the
    scan resumes behind it. *)
Fixpoint finditer_from (sc : scanner) (s : string) : list (string * string) :=
  match s with
  | "" =>
      match sc with
      | Digits name digits => [(String.rev name, String.rev digits)]
      | _ => []
      end
  | String c s' =>
      match sc with
      | Start =>
          if Py.isdecimal c then finditer_from Start s'
          else finditer_from (Name (String c "")) s'
      | Name name =>
          if Py.isdecimal c then finditer_from (Digits name (String c "")) s'
          else finditer_from (Name (String c name)) s'
      | Digits name digits =>
          if Py.isdecimal c || Py.is_char "," c
          then finditer_from (Digits name (String c digits)) s'
          else (String.rev name, String.rev digits)
               :: finditer_from (Name (String c "")) s'
      end
  end.

Definition finditer (s : string) : list (string * string) :=
  finditer_from Start s.

(** The name of a match, as the loop cleans it up. *)
Definition cleaned_name (group1 : string) : string :=
  Py.lstrip_chars (λ c, Py.is_char "," c || Py.is_char " " c)
    (Py.strip group1).

(** The body of the loop over the matches: the record it appends, if
    it does not [continue]. *)
Definition author_of_match (groups : string * string)
  : option author_record :=
  let name_part := Py.strip groups.1 in
  let affils_part := Py.strip groups.2 in
  let name_part :=
    Py.lstrip_chars (λ c, Py.is_char "," c || Py.is_char " " c)
      name_part in
  if bool_decide (name_part = "") then None
  else
    let name_tokens := Py.split_ws name_part in
    let '(last_name, first_middle) :=
      if bool_decide (1 < length name_tokens)%nat
      then (default "" (last name_tokens),
            Py.join " " (removelast name_tokens))
      else (name_part, "") in
    let affils_part := Py.strip_chars (Py.is_char ",") affils_part in
    Some {| first_middle := first_middle;
            last_name := last_name;
            affiliations := affils_part |}.

Definition parse_authors_to_list (text : string) : list author_record :=
  let clean_text := Py.strip (Py.replace Py.LF " " text) in
  omap author_of_match (finditer clean_text).

End Extract.

(** ** csv_to_author_doc.py *)

Module Render.

(** *** [sorted] with the key of [generate_document_xml] *)

(** The values of [int(x) if x.isdigit() else x]. *)
Inductive key : Type :=
  | IntKey (n : N)
  | StrKey (s : string).

Definition sort_key (x : string) : result key :=
  if Py.isdigit x then n ← Py.int x; Ok (IntKey n)
  else Ok (StrKey x).

(** [a < b] on keys: integers by value, strings by code points, and
    [TypeError] between an integer and a string. *)
Definition key_lt (a b : key) : result bool :=
  match a, b with
  | IntKey m, IntKey n => Ok (m <? n)
  | StrKey s, StrKey t => Ok (String.ltb s t)
  | _, _ => Raise TypeError
  end.

(** The keys are computed first, one call per element in order. *)
Fixpoint with_keys (xs : list string) : result (list (key * string)) :=
  match xs with
  | [] => Ok []
  | x :: xs' => k ← sort_key x; rest ← with_keys xs'; Ok ((k, x) :: rest)
  end.

(** One element is put into a sorted list, behind the elements that are
    not greater; only [<] is used, as [list.sort] does. *)
Fixpoint insert (x : key * string) (l : list (key * string))
  : result (list (key * string)) :=
  match l with
  | [] => Ok [x]
  | y :: l' =>
      b ← key_lt x.1 y.1;
      if (b : bool) then Ok (x :: l) else r ← insert x l'; Ok (y :: r)
  end.

(** The elements are inserted one after the other, which is a stable
    sort: it returns what [list.sort] returns when no comparison raises,
    and, as any sort by comparisons, compares an integer with a string,
    and raises, when both kinds of keys occur. *)
Fixpoint sort_into (done : list (key * string)) (todo : list (key * string))
  : result (list (key * string)) :=
  match todo with
  | [] => Ok done
  | x :: todo' => done' ← insert x done; sort_into done' todo'
  end.

(** [sorted(affiliations.keys(), key=lambda x: int(x) if x.isdigit() else x)] *)
Definition sorted_ids (affiliations : dict) : result (list string) :=
  keyed ← with_keys (Dict.keys affiliations);
  sorted ← sort_into [] keyed;
  Ok (sorted.*2).

(** *** The markup *)

(** The double quote. *)
Definition DQ : string := String "034" "".

(** [xml.sax.saxutils.escape] *)
Fixpoint escape (s : string) : string :=
  match s with
  | "" => ""
  | String c s' =>
      (if Py.is_char "&" c then "&amp;"
       else if Py.is_char "<" c then "&lt;"
       else if Py.is_char ">" c then "&gt;"
       else String c "") +:+ escape s'
  end.

Definition create_run_xml (text : string) (superscription bold : bool)
  : string :=
  let props :=
    if superscription || bold then
      "<w:rPr>" +:+ (if bold then "<w:b/>" else "")
      +:+ (if superscription
           then "<w:vertAlign w:val=" +:+ DQ +:+ "superscript" +:+ DQ +:+ "/>"
           else "")
      +:+ "</w:rPr>"
    else "" in
  let safe_text := escape text in
  "<w:r>" +:+ props +:+ "<w:t xml:space=" +:+ DQ +:+ "preserve" +:+ DQ +:+ ">"
  +:+ safe_text +:+ "</w:t></w:r>".

Definition create_paragraph_xml (runs : list string) : string :=
  "<w:p>" +:+ Py.join "" runs +:+ "</w:p>".

(** The runs of one author: the name, the references in superscript if
    there are any, and the separator if the author is not the last. *)
Definition author_runs (total_authors : nat) (i : nat)
    (auth : Renumber.author) : list string :=
  let full_name :=
    Py.strip (Renumber.first auth +:+ " " +:+ Renumber.last auth) in
  [create_run_xml full_name false false]
  ++ (if bool_decide (Renumber.affils auth = "") then []
      else [create_run_xml (Renumber.affils auth) true false])
  ++ (if bool_decide (i + 1 < total_authors)%nat
      then [create_run_xml ", " false false] else []).

(** One paragraph per affiliation, in the order [ids]. *)
Fixpoint affiliation_paragraphs (affiliations : dict) (ids : list string)
  : result (list string) :=
  match ids with
  | [] => Ok []
  | aff_id :: ids' =>
      let id_run := create_run_xml aff_id true false in
      text ← Dict.getitem affiliations aff_id;
      let text_run := create_run_xml (" " +:+ text) false false in
      rest ← affiliation_paragraphs affiliations ids';
      Ok (create_paragraph_xml [id_run; text_run] :: rest)
  end.

(** [DOCUMENT_XML_TEMPLATE.format(body_content=...)] *)
Definition DOCUMENT_XML_TEMPLATE (body_content : string) : string :=
  let q (s : string) : string := DQ +:+ s +:+ DQ in
  let nl := String Py.LF "" in
  "<?xml version=" +:+ q "1.0" +:+ " encoding=" +:+ q "UTF-8"
  +:+ " standalone=" +:+ q "yes" +:+ "?>" +:+ nl
  +:+ "<w:document xmlns:w="
  +:+ q "http://schemas.openxmlformats.org/wordprocessingml/2006/main"
  +:+ ">" +:+ nl
  +:+ "    <w:body>" +:+ nl
  +:+ "        " +:+ body_content +:+ nl
  +:+ "        <w:sectPr>" +:+ nl
  +:+ "            <w:pgSz w:w=" +:+ q "12240" +:+ " w:h=" +:+ q "15840"
  +:+ "/>" +:+ nl
  +:+ "            <w:pgMar w:top=" +:+ q "1440" +:+ " w:right=" +:+ q "1440"
  +:+ " w:bottom=" +:+ q "1440" +:+ " w:left=" +:+ q "1440"
  +:+ " w:header=" +:+ q "720" +:+ " w:footer=" +:+ q "720"
  +:+ " w:gutter=" +:+ q "0" +:+ "/>" +:+ nl
  +:+ "        </w:sectPr>" +:+ nl
  +:+ "    </w:body>" +:+ nl
  +:+ "</w:document>".

Definition generate_document_xml
    (authors : list Renumber.author) (affiliations : dict)
  : result string :=
  let title_run := create_run_xml "Authors" false true in
  let total_authors := length authors in
  let author_runs :=
    mjoin (imap (author_runs total_authors) authors) in
  let aff_header_run := create_run_xml "Affiliations" false true in
  sorted_ids ← sorted_ids affiliations;
  paragraphs ← affiliation_paragraphs affiliations sorted_ids;
  let body_parts :=
    [create_paragraph_xml [title_run];
     create_paragraph_xml author_runs;
     create_paragraph_xml [];
     create_paragraph_xml [aff_header_run]]
    ++ paragraphs in
  Ok (DOCUMENT_XML_TEMPLATE (Py.join "" body_parts)).

End Render.

(** ** What the renumbering computes, stated on lists *)

Module Numbering.
Import Renumber.

(** The distinct elements of a list, in order of first appearance. *)
Fixpoint first_seen (l : list string) : list string :=
  match l with
  | [] => []
  | x :: l' => x :: filter (λ y, y ≠ x) (first_seen l')
  end.

(** The place of the first occurrence of an element, counted from 0. *)
Fixpoint position (k : string) (l : list string) : option nat :=
  match l with
  | [] => None
  | x :: l' => if decide (x = k) then Some 0%nat else S <$> position k l'
  end.

(** Every id an author refers to, author after author. *)
Definition references (names_data : list author) : list string :=
  names_data ≫= (λ a, original_ids (affils a)).

(** The ids of a list that are keys of the mapping, each once, in order
    of first appearance. *)
Definition used (affiliations_map : dict) (refs : list string)
  : list string :=
  filter (λ k, Dict.mem k affiliations_map = true) (first_seen refs).

(** The keys of the mapping that no author refers to, in the order of
    the mapping. *)
Definition orphans (names_data : list author) (affiliations_map : dict)
  : list string :=
  filter (λ k, k ∉ references names_data) (Dict.keys affiliations_map).

Definition text_of (affiliations_map : dict) (k : string) : string :=
  default "" (Dict.get affiliations_map k).

(** The ids [ks] numbered from 1 in their order, with their texts. *)
Definition numbered (affiliations_map : dict) (ks : list string)
  : list (string * string) :=
  imap (λ i k, (Py.str (N.of_nat (S i)), text_of affiliations_map k)) ks.

(** The new id of [k] when the ids [ks] are numbered from 1 in their
    order, and [k] itself when it is not among them. *)
Definition new_id (ks : list string) (k : string) : string :=
  match position k ks with
  | Some i => Py.str (N.of_nat (S i))
  | None => k
  end.

Definition rewrite_author (ks : list string) (a : author) : author :=
  if bool_decide (Py.strip (affils a) = "") then a
  else {| last := last a; first := first a;
          affils := Py.join "," (new_id ks <$> original_ids (affils a)) |}.

End Numbering.
Import Numbering.

(** ** Notions used to state the properties *)

Module Facts.
Import Renumber.

Definition not_char (a : ascii) (c : ascii) : bool :=
  negb (bool_decide (c = a)).

(** The first character, if any, is not one that is stripped. *)
Definition starts_well (p : ascii → bool) (s : string) : Prop :=
  match s with
  | "" => True
  | String c _ => p c = false
  end.

(** A non-empty string without commas and without spaces at its ends. *)
Definition clean (k : string) : Prop :=
  k ≠ "" ∧ Py.strip k = k ∧ Py.forallb (not_char ",") k = true.

(** What the three variables of the engine hold once the ids [R] have
    been met. *)
Record inv (m : dict) (R : list string) (st : engine) : Prop := {
  inv_cur : current_new_id st = N.of_nat (S (length (used m R)));
  inv_list : new_affiliations_list st = numbered m (used m R);
  inv_map : ∀ k,
    old_to_new_id_map st !! k
    = if decide (k ∈ R) then Some (new_id (used m R) k) else None
}.

(** Every id that has been met and is not a key of the mapping was
    reported, under the name of an author who refers to it. *)
Definition warned (m : dict) (names : list author)
    (R : list string) (st : engine) : Prop :=
  ∀ k, k ∈ R → Dict.mem k m = false →
    ∃ a, a ∈ names ∧ k ∈ original_ids (affils a)
         ∧ warning a k ∈ stdout st.

(** The ids that are given numbers, in the order of their numbers. *)
Definition final_ids (names : list author) (m : dict) : list string :=
  used m (references names ++ Dict.keys m).

End Facts.
Import Facts.

(** ** The statements about renumbering *)

Module Statements.
Import Renumber.

(** The decimal numerals of 1, ..., [n]. *)
Definition numerals (n : nat) : list string :=
  (λ i, Py.str (N.of_nat (S i))) <$> seq 0 n.

(** The ids [counted] are given exactly the numbers from 1 to their
    count, and the orphans the numbers that follow, in their order. *)
Definition numbers_assigned (counted : list string)
    (names : list author) (m : dict) : Prop :=
  ∃ st, run names m = Ok st
    ∧ (∀ v, (∃ k, k ∈ counted ∧ old_to_new_id_map st !! k = Some v)
            ↔ (∃ i, (i < length counted)%nat ∧ v = Py.str (N.of_nat (S i))))
    ∧ (∀ j k, orphans names m !! j = Some k →
         old_to_new_id_map st !! k
         = Some (Py.str (N.of_nat (S (length counted + j))))).

(** The numeric value of an id, for sorting. *)
Definition numeric_value (k : string) : N :=
  match Py.int k with
  | Ok n => n
  | Raise _ => 0
  end.

Fixpoint insert_numerically (k : string) (l : list string) : list string :=
  match l with
  | [] => [k]
  | x :: l' =>
      if numeric_value k <? numeric_value x then k :: l
      else x :: insert_numerically k l'
  end.

Definition sort_numerically (l : list string) : list string :=
  foldr insert_numerically [] l.

(** The output affiliation list is the referenced affiliations in order
    of first appearance followed by the orphans taken in the order
    [order], all numbered from 1. *)
Definition orphans_appended (order : list string → list string)
    (names : list author) (m : dict) : Prop :=
  ∃ affs names', renumber_affiliations names m = Ok (affs, names')
    ∧ affs = numbered m (used m (references names)
                         ++ order (orphans names m)).

(** Canonical input: the mapping is a dictionary with N entries, the
    ids in order of first appearance are the numerals of 1, ..., N,
    every referenced id is a key and every key is referenced. *)
Definition canonical (names : list author) (m : dict) : Prop :=
  Dict.wf m
  ∧ first_seen (references names) = numerals (length m)
  ∧ Forall (λ k, k ∈ Dict.keys m) (references names)
  ∧ Forall (λ k, k ∈ references names) (Dict.keys m).

(** No two ids are given the same new id. *)
Definition injective_table (t : gmap string string) : Prop :=
  ∀ k1 k2 v, t !! k1 = Some v → t !! k2 = Some v → k1 = k2.

End Statements.
Import Statements.

(** ** The statements about the parsers *)

Module Parsing.
Import Extract.

(** The lines of a text that are not blank, trimmed. *)
Definition content (lines : list string) : list string :=
  filter (λ l, l ≠ "") (Py.strip <$> lines).

(** A trimmed line that is the word Affiliations in any case. *)
Definition sentinel (line : string) : Prop :=
  Py.lower line = "affiliations".

(** The lines before the first sentinel, and the lines after it. *)
Fixpoint before_sentinel (L : list string) : list string :=
  match L with
  | [] => []
  | x :: L' => if decide (sentinel x) then [] else x :: before_sentinel L'
  end.

Fixpoint after_sentinel (L : list string) : list string :=
  match L with
  | [] => []
  | x :: L' => if decide (sentinel x) then L' else after_sentinel L'
  end.

(** The text of the last entry with the id [k]. *)
Definition last_text (k : string) (entries : list (string * string))
  : option string :=
  last (filter (λ e, e.1 = k) entries).*2.

(** The author block as one stream. *)
Definition flatten (text : string) : string :=
  Py.strip (Py.replace Py.LF " " text).

(** A name as the pattern reads it: a non-empty run of characters that
    are not digits. *)
Definition name_run (n : string) : Prop :=
  n ≠ "" ∧ Py.forallb (λ c, negb (Py.isdecimal c)) n = true.

(** A run of ids as the pattern reads it: a digit, then digits and
    commas. *)
Definition id_run (ids : string) : Prop :=
  ∃ c rest, ids = String c rest ∧ Py.isdecimal c = true
    ∧ Py.forallb (λ c, Py.isdecimal c || Py.is_char "," c) rest = true.

(** The matches written one after the other. *)
Fixpoint glue (segments : list (string * string)) : string :=
  match segments with
  | [] => ""
  | (n, ids) :: segments' => n +:+ ids +:+ glue segments'
  end.

(** What a scan has read of the match it is in. *)
Definition pending (sc : scanner) : string :=
  match sc with
  | Start => ""
  | Name n => String.rev n
  | Digits n ids => String.rev n +:+ String.rev ids
  end.

(** What a scan has read of the match it is in is the beginning of a
    match. *)
Definition scanner_ok (sc : scanner) : Prop :=
  match sc with
  | Start => True
  | Name n => name_run (String.rev n)
  | Digits n ids => name_run (String.rev n) ∧ id_run (String.rev ids)
  end.

(** One record for each match of the pattern, in order. *)
Definition one_record_per_match (text : string) : Prop :=
  length (parse_authors_to_list text) = length (finditer (flatten text)).

(** The last name of every record is the last token of its name. *)
Definition last_token_is_last_name (text : string) : Prop :=
  Forall2 (λ seg r, last (Py.split_ws (cleaned_name seg.1)) = Some (last_name r))
    (filter (λ seg, cleaned_name seg.1 ≠ "") (finditer (flatten text)))
    (parse_authors_to_list text).

(** How a record is made from a cleaned name and a run of ids. *)
Definition record_of (name ids : string) (r : author_record) : Prop :=
  let tokens := Py.split_ws name in
  affiliations r = Py.strip_chars (Py.is_char ",") (Py.strip ids)
  ∧ ((1 < length tokens)%nat →
       last tokens = Some (last_name r)
       ∧ first_middle r = Py.join " " (removelast tokens))
  ∧ ((length tokens ≤ 1)%nat →
       last_name r = name ∧ first_middle r = "").

End Parsing.
Import Parsing.

(** ** The statements about the sort of the renderer *)

Module Sorting.
Import Render.

Definition is_int (k : key) : bool :=
  match k with
  | IntKey _ => true
  | StrKey _ => false
  end.

(** The keys of a list are all integers, or all strings. *)
Definition same_kind (b : bool) (l : list (key * string)) : Prop :=
  Forall (λ p, is_int p.1 = b) l.

(** A pair of the numeric key of an id and the id. *)
Definition numeric_pair (p : key * string) : Prop :=
  p.1 = IntKey (numeric_value p.2).

(** An id that [int] reads. *)
Definition decimal_id (k : string) : Prop :=
  k ≠ "" ∧ Py.forallb Py.isdecimal k = true.

End Sorting.
Import Sorting.

(** ** Texts, as the specification speaks of them

    These notions are stated on the characters of a text and on
    concatenation only, without the functions of [Py]: they say what the
    reading of a text has to give. *)

Module Words.

(** A white-space character: the code points 9 to 13, 28 to 32, 133 and
    160. *)
Definition white (c : ascii) : Prop :=
  let n := N_of_ascii c in
  9 ≤ n ≤ 13 ∨ 28 ≤ n ≤ 32 ∨ n = 133 ∨ n = 160.

(** Every character of a text has a property. *)
Fixpoint every (P : ascii → Prop) (s : string) : Prop :=
  match s with
  | "" => True
  | String c s' => P c ∧ every P s'
  end.

Definition first_char (s : string) : option ascii :=
  match s with
  | "" => None
  | String c _ => Some c
  end.

Fixpoint last_char (s : string) : option ascii :=
  match s with
  | "" => None
  | String c "" => Some c
  | String _ s' => last_char s'
  end.

(** [core] is [s] without the white space at its two ends. *)
Definition trims_to (s core : string) : Prop :=
  ∃ before after,
    s = before +:+ core +:+ after
    ∧ every white before
    ∧ every white after
    ∧ (∀ c, first_char core = Some c → ¬ white c)
    ∧ (∀ c, last_char core = Some c → ¬ white c).

(** The pieces written one after the other, with [sep] between two of
    them. *)
Fixpoint separated (sep : ascii) (pieces : list string) : string :=
  match pieces with
  | [] => ""
  | [x] => x
  | x :: rest => x +:+ String sep (separated sep rest)
  end.

(** [items] is what the text [s] holds between its separators: the
    pieces without the white space at their ends, the blank ones left
    out. *)
Definition items_of (sep : ascii) (s : string) (items : list string)
  : Prop :=
  ∃ pieces cores,
    pieces ≠ []
    ∧ s = separated sep pieces
    ∧ Forall (every (λ c, c ≠ sep)) pieces
    ∧ Forall2 trims_to pieces cores
    ∧ items = filter (λ x, x ≠ "") cores.

(** [line] is [word], which is in small letters, but for the case of its
    letters: a capital letter has the code point of the small one less
    32. *)
Fixpoint same_but_case (word line : string) : Prop :=
  match word, line with
  | "", "" => True
  | String w word', String c line' =>
      (c = w ∨ N_of_ascii c + 32 = N_of_ascii w)
      ∧ same_but_case word' line'
  | _, _ => False
  end.

(** The value of a text made of decimal digits. *)
Fixpoint digits_value (acc : N) (s : string) : option N :=
  match s with
  | "" => Some acc
  | String c s' =>
      let d := N_of_ascii c in
      if (48 <=? d) && (d <=? 57)
      then digits_value (10 * acc + (d - 48)) s'
      else None
  end.

(** [s] is the decimal numeral of [n]: decimal digits, one at least, of
    value [n], without a zero in front. *)
Definition numeral_of (n : N) (s : string) : Prop :=
  s ≠ ""
  ∧ digits_value 0 s = Some n
  ∧ (first_char s = Some "0"%char → s = "0").

End Words.
Import Words.

(** ** The rest of the scripts: paths, tables and the entry points

    A table file is modelled by its rows, as [csv.reader] yields them and
    as [csv.writer] is given them: a row is the list of its fields. *)

Abbreviation row := (list string).

(** *** [os.path.split] and [os.path.join] of a POSIX system *)

Module Posix.

(** The text up to and including the last slash, if there is a slash, and
    the text after it: [p[:i]] and [p[i:]] for [i = p.rfind('/') + 1]. *)
Fixpoint rpartition (p : string) : option string * string :=
  match p with
  | "" => (None, "")
  | String c p' =>
      match rpartition p' with
      | (Some head, tail) => (Some (String c head), tail)
      | (None, tail) =>
          if Py.is_char "/" c then (Some (String c ""), tail)
          else (None, String c tail)
      end
  end.

(** [os.path.split(p)]: the head loses its trailing slashes unless it is
    made of slashes only. *)
Definition split (p : string) : string * string :=
  let '(found, tail) := rpartition p in
  let head := default "" found in
  (if negb (bool_decide (head = "")) && negb (Py.forallb (Py.is_char "/") head)
   then Py.rstrip_chars (Py.is_char "/") head
   else head,
   tail).

Definition startswith_slash (s : string) : bool :=
  match s with
  | String c _ => Py.is_char "/" c
  | "" => false
  end.

Fixpoint endswith_slash (s : string) : bool :=
  match s with
  | "" => false
  | String c "" => Py.is_char "/" c
  | String _ s' => endswith_slash s'
  end.

(** [os.path.join(a, b)] *)
Definition join (a b : string) : string :=
  if startswith_slash b then b
  else if bool_decide (a = "") || endswith_slash a then a +:+ b
  else a +:+ "/" +:+ b.

End Posix.

(** *** author_doc_to_csv.py: [main] *)

Module ExtractScript.

(** What [main] prints and writes once the text of the document is read. *)
Record output : Type := Output {
  stdout : list string;
  affiliations_csv : list row;
  names_csv : list row
}.

(** The keys of [sorted(xs, key=lambda x: int(x))]. *)
Fixpoint with_int_keys (xs : list string)
  : result (list (Render.key * string)) :=
  match xs with
  | [] => Ok []
  | x :: xs' =>
      n ← Py.int x; rest ← with_int_keys xs'; Ok ((Render.IntKey n, x) :: rest)
  end.

(** [sorted(aff_dict.keys(), key=lambda x: int(x))], with the sort of
    [Render]. *)
Definition sorted_ids (aff_dict : dict) : result (list string) :=
  keyed ← with_int_keys (Dict.keys aff_dict);
  sorted ← Render.sort_into [] keyed;
  Ok (sorted.*2).

(** The rows of the loop over the sorted ids. *)
Fixpoint affiliation_rows (aff_dict : dict) (ids : list string)
  : result (list row) :=
  match ids with
  | [] => Ok []
  | aff_id :: ids' =>
      text ← Dict.getitem aff_dict aff_id;
      rest ← affiliation_rows aff_dict ids';
      Ok ([aff_id; text] :: rest)
  end.

Definition name_row (auth : Extract.author_record) : row :=
  [Extract.last_name auth; Extract.first_middle auth;
   Extract.affiliations auth].

Definition main (full_text : string) : result output :=
  let '(authors_text, affiliations_text) := Extract.parse_data full_text in
  let warning :=
    if bool_decide (affiliations_text = "")
    then ["Warning: No 'Affiliations' section found."] else [] in
  let aff_dict := Extract.parse_affiliations_to_dict affiliations_text in
  let author_list := Extract.parse_authors_to_list authors_text in
  let found :=
    "Found " +:+ Py.str (N.of_nat (length author_list)) +:+ " authors and "
    +:+ Py.str (N.of_nat (length aff_dict)) +:+ " affiliations." in
  ids ← sorted_ids aff_dict;
  rows ← affiliation_rows aff_dict ids;
  Ok {| stdout :=
          ["Parsing content (skipping first line as Title)..."]
          ++ warning
          ++ [found; "Writing affiliations.csv..."; "Writing names.csv...";
              "Conversion complete."];
        affiliations_csv := ["Affiliation ID"; "Affiliation Name"] :: rows;
        names_csv :=
          ["Last Name"; "First Name / Middle"; "Affiliation IDs"]
          :: (name_row <$> author_list) |}.

End ExtractScript.

(** *** renumber_affiliations.py: [read_inputs], [write_csvs],
    [get_output_filename] and [main] *)

Module RenumberScript.

(** The body of the loop over the rows of the affiliations table. *)
Definition add_row (aff_map : dict) (r : row) : dict :=
  match r with
  | id :: name :: _ => Dict.set aff_map (Py.strip id) (Py.strip name)
  | _ => aff_map
  end.

(** The author of a row of the names table, if the row is long enough. *)
Definition author_of_row (r : row) : option Renumber.author :=
  match r with
  | last :: first :: affils :: _ =>
      Some {| Renumber.last := Py.strip last;
              Renumber.first := Py.strip first;
              Renumber.affils := Py.strip affils |}
  | _ => None
  end.

(** [read_inputs], on the rows of the two files; [next(reader, None)]
    takes the first row away, if there is one. *)
Definition read_inputs (names_rows affiliations_rows : list row)
  : list Renumber.author * dict :=
  let aff_map := foldl add_row [] (tail affiliations_rows) in
  let names_list := omap author_of_row (tail names_rows) in
  (names_list, aff_map).

(** The rows that [write_csvs] writes to the two files. *)
Definition write_csvs (new_affils : list (string * string))
    (updated_names : list Renumber.author) : list row * list row :=
  (["Affiliation ID"; "Affiliation Name"]
   :: ((λ aff, [aff.1; aff.2]) <$> new_affils),
   ["Last Name"; "First Name / Middle"; "Affiliation IDs"]
   :: ((λ auth, [Renumber.last auth; Renumber.first auth;
                 Renumber.affils auth]) <$> updated_names)).

Definition get_output_filename (input_path : string) : string :=
  let '(directory, filename) := Posix.split input_path in
  let new_filename := "reordered_" +:+ filename in
  Posix.join directory new_filename.

(** The rows that [main] writes (affiliations, names), given the rows of
    the files it reads. *)
Definition main (names_rows affiliations_rows : list row)
  : result (list row * list row) :=
  let '(names_data, aff_map) := read_inputs names_rows affiliations_rows in
  '(new_affils_list, updated_names) ←
    Renumber.renumber_affiliations names_data aff_map;
  Ok (write_csvs new_affils_list updated_names).

End RenumberScript.

(** *** csv_to_author_doc.py: [read_csv_data] and [main] *)

Module RenderScript.

Definition add_row (affiliations : dict) (r : row) : dict :=
  match r with
  | aff_id :: aff_name :: _ => Dict.set affiliations aff_id aff_name
  | _ => affiliations
  end.

Definition author_of_row (r : row) : option Renumber.author :=
  match r with
  | last :: first :: affils :: _ =>
      Some {| Renumber.last := last; Renumber.first := first;
              Renumber.affils := affils |}
  | _ => None
  end.

Definition read_csv_data (names_rows affiliations_rows : list row)
  : list Renumber.author * dict :=
  let affiliations := foldl add_row [] (tail affiliations_rows) in
  let authors := omap author_of_row (tail names_rows) in
  (authors, affiliations).

(** The content of [word/document.xml] that [main] writes. *)
Definition main (names_rows affiliations_rows : list row) : result string :=
  let '(authors, affiliations) := read_csv_data names_rows affiliations_rows in
  Render.generate_document_xml authors affiliations.

End RenderScript.

(** *** The tables between two scripts

    The scripts write their tables with [newline=''] and read them
    without it: in what is read, a carriage return, with the line feed
    that follows it if there is one, has become a line feed, also inside a
    field.  The reader refuses a field of more than
    [csv.field_size_limit()] characters, which the scripts leave at
    131072: it raises [csv.Error], on which [read_inputs] prints a message
    and exits and [read_csv_data] lets the script end with the error.
    Nothing else changes in the fields of the rows that the readers use:
    the byte order mark that the extraction writes is read as part of the
    first field of the header row, which every reader drops. *)

Module Csv.

Definition CR : ascii := "013"%char.

(** The translation of the line ends by a file opened for reading in text
    mode. *)
Fixpoint universal_newlines (s : string) : string :=
  match s with
  | "" => ""
  | String c s' =>
      if Py.is_char CR c then
        String Py.LF
          match s' with
          | String c' s'' =>
              if Py.is_char Py.LF c' then universal_newlines s''
              else universal_newlines s'
          | "" => ""
          end
      else String c (universal_newlines s')
  end.

(** [csv.field_size_limit()] *)
Definition field_size_limit : N := 131072.

(** A field, as it is read, that the reader accepts. *)
Definition within_limit (field : string) : bool :=
  N.of_nat (String.length field) <=? field_size_limit.

(** The fields of a written row, as they are read. *)
Definition read_row (r : row) : row := universal_newlines <$> r.

Definition read_rows (rows : list row) : list row := read_row <$> rows.

(** No field of the table is too long for the reader. *)
Definition readable (rows : list row) : bool :=
  forallb (λ r, forallb within_limit (read_row r)) rows.

(** The rows that [csv.reader] yields from the file that [csv.writer]
    was given [rows] for, and nothing when the reader raises. *)
Definition read_back (rows : list row) : option (list row) :=
  if readable rows then Some (read_rows rows) else None.

(** A script reads its two tables. *)
Definition read_tables (names_file affiliations_file : list row)
  : option (list row * list row) :=
  names_rows ← read_back names_file;
  affiliations_rows ← read_back affiliations_file;
  Some (names_rows, affiliations_rows).

End Csv.

(** *** tidy_authorship.py: the three steps in a row

    From the text of the input document to the content of
    [word/document.xml] in the output document.  Each step reads the
    tables that the step before it wrote: the renumbering is run on
    [names.csv] and [affiliations.csv], and the rendering on the files
    that [get_output_filename] names for them.  When a step fails,
    [run_step] prints which one and the pipeline exits with status 1. *)

Module Tidy.

Inductive outcome : Type :=
  | Written (document_xml : string)
  | Exit (step : N).

Definition main (full_text : string) : outcome :=
  match ExtractScript.main full_text with
  | Raise _ => Exit 1
  | Ok extracted =>
      match Csv.read_tables (ExtractScript.names_csv extracted)
                            (ExtractScript.affiliations_csv extracted) with
      | None => Exit 2
      | Some (names_rows, affiliations_rows) =>
          match RenumberScript.main names_rows affiliations_rows with
          | Raise _ => Exit 2
          | Ok (reordered_affils, reordered_names) =>
              match Csv.read_tables reordered_names reordered_affils with
              | None => Exit 3
              | Some (names_rows', affiliations_rows') =>
                  match RenderScript.main names_rows' affiliations_rows' with
                  | Raise _ => Exit 3
                  | Ok document_xml => Written document_xml
                  end
              end
          end
      end
  end.

End Tidy.

(** ** Notions used to state the further properties *)

Module More.

(** A line as the segmenter keeps it: not empty, without spaces at its
    ends and without line feed. *)
Definition trimmed (l : string) : Prop :=
  l ≠ "" ∧ Py.strip l = l ∧ Py.forallb (not_char Py.LF) l = true.

(** A string that [int] converts whatever the version of the
    interpreter: current ones refuse, by default, more than 4300
    digits. *)
Definition within_int_limit (k : string) : Prop :=
  (String.length k ≤ 4300)%nat.

(** The paragraphs of the document before the affiliations: the title,
    the authors, an empty paragraph and the heading of the
    affiliations. *)
Definition front_matter (authors : list Renumber.author) : list string :=
  [Render.create_paragraph_xml [Render.create_run_xml "Authors" false true];
   Render.create_paragraph_xml
     (mjoin (imap (Render.author_runs (length authors)) authors));
   Render.create_paragraph_xml [];
   Render.create_paragraph_xml
     [Render.create_run_xml "Affiliations" false true]].

(** The paragraph of the affiliation [k]. *)
Definition affiliation_paragraph (affiliations : dict) (k : string)
  : string :=
  Render.create_paragraph_xml
    [Render.create_run_xml k true false;
     Render.create_run_xml (" " +:+ text_of affiliations k) false false].

(** The document with the affiliations in the order [ids]. *)
Definition document (authors : list Renumber.author) (affiliations : dict)
    (ids : list string) : string :=
  Render.DOCUMENT_XML_TEMPLATE
    (Py.join ""
       (front_matter authors
        ++ (affiliation_paragraph affiliations <$> ids))).

(** Ascending order of the numeric values. *)
Definition ascending (ids : list string) : Prop :=
  StronglySorted (λ a b, numeric_value a ≤ numeric_value b) ids.

(** An author as the renderer reads it from the table that the
    renumbering wrote. *)
Definition read_back_author (a : Renumber.author) : Renumber.author :=
  {| Renumber.last := Csv.universal_newlines (Renumber.last a);
     Renumber.first := Csv.universal_newlines (Renumber.first a);
     Renumber.affils := Csv.universal_newlines (Renumber.affils a) |}.

(** An entry of a table as it is read back. *)
Definition read_back_entry (p : string * string) : string * string :=
  (p.1, Csv.universal_newlines p.2).

(** A record of the author parser as the renumbering reads it from the
    table that the extraction wrote. *)
Definition author_of_record (r : Extract.author_record) : Renumber.author :=
  {| Renumber.last := Py.strip (Csv.universal_newlines (Extract.last_name r));
     Renumber.first := Extract.first_middle r;
     Renumber.affils := Extract.affiliations r |}.

(** An entry of the parsed dictionary as the renumbering reads it. *)
Definition entry_of_id (d : dict) (k : string) : string * string :=
  (k, Py.strip (Csv.universal_newlines (text_of d k))).

(** A field that is read back as it was written, and that stripping
    leaves as it is. *)
Definition kept (s : string) : Prop :=
  Py.strip (Csv.universal_newlines s) = s.

(** The entry that a row of an affiliations table stands for, if the row
    has two fields at least: as the renumbering script reads it, and as
    the renderer reads it. *)
Definition stripped_entry (r : row) : option (string * string) :=
  match r with
  | id :: name :: _ => Some (Py.strip id, Py.strip name)
  | _ => None
  end.

Definition raw_entry (r : row) : option (string * string) :=
  match r with
  | id :: name :: _ => Some (id, name)
  | _ => None
  end.

(** A document with a title, two authors and three affiliations, one of
    them unused, in an order that is not the numeric one. *)
Definition example_document : string :=
  Py.join (String Py.LF "")
    ["My Title"; "Jane A. Doe2,10"; "John Smith2"; "Affiliations";
     "10 MIT"; "3 Unused U."; "2 Stanford"].

(** The ids among [R] that are not keys of the mapping, in the order of
    their first occurrence. *)
Definition missing (m : dict) (R : list string) : list string :=
  filter (λ k, Dict.mem k m = false) (first_seen R).

(** What has been printed once the ids [R] have been met: one warning
    for each missing id, in their order, each under the name of an author
    who refers to the id. *)
Definition reported (m : dict) (names : list Renumber.author)
    (R : list string) (st : Renumber.engine) : Prop :=
  ∃ authors,
    Forall2 (λ a k, a ∈ names
                    ∧ k ∈ Renumber.original_ids (Renumber.affils a))
      authors (missing m R)
    ∧ Renumber.stdout st = zip_with Renumber.warning authors (missing m R).

(** Ascending order of the code points: no id comes behind an id that is
    greater. *)
Definition ascending_text (ids : list string) : Prop :=
  StronglySorted (λ a b, String.ltb b a = false) ids.

(** A pair of the text key of an id and the id. *)
Definition text_pair (p : Render.key * string) : Prop :=
  p.1 = Render.StrKey p.2.

(** A document whose one affiliation text has [n] characters. *)
Definition document_with_text_of (n : N) : string :=
  Py.join (String Py.LF "")
    ["My Title"; "Jane Doe1"; "Affiliations";
     "1 " +:+ N.iter n (String "x") ""].

End More.
Import More.

(** * Properties *)

(** ** Lists of ids *)

Section first_seen.
Import Renumber.

Lemma filter_all {A} (P : A → Prop) `{∀ x, Decision (P x)} (l : list A) :
  Forall P l → filter P l = l.
Proof.
  induction 1 as [|x l Hx _ IH]; [done|].
  by rewrite filter_cons_True, IH.
Qed.

Lemma filter_none {A} (P : A → Prop) `{∀ x, Decision (P x)} (l : list A) :
  Forall (λ x, ¬ P x) l → filter P l = [].
Proof.
  induction 1 as [|x l Hx _ IH]; [done|].
  by rewrite filter_cons_False.
Qed.

Lemma elem_of_first_seen (l : list string) x : x ∈ first_seen l ↔ x ∈ l.
Proof.
  induction l as [|y l IH]; simpl; [done|].
  rewrite !elem_of_cons, list_elem_of_filter, IH.
  destruct (decide (x = y)); naive_solver.
Qed.

Lemma elem_of_first_seen_1 (l : list string) x : x ∈ first_seen l → x ∈ l.
Proof. apply elem_of_first_seen. Qed.

Lemma elem_of_first_seen_2 (l : list string) x : x ∈ l → x ∈ first_seen l.
Proof. apply elem_of_first_seen. Qed.

Lemma NoDup_first_seen (l : list string) : NoDup (first_seen l).
Proof.
  induction l as [|y l IH]; simpl; [constructor|].
  constructor; [|by apply NoDup_filter].
  rewrite list_elem_of_filter. naive_solver.
Qed.

Lemma first_seen_NoDup (l : list string) : NoDup l → first_seen l = l.
Proof.
  induction 1 as [|x l Hx _ IH]; simpl; [done|].
  rewrite IH. f_equal. apply filter_all.
  apply Forall_forall. intros y Hy ->. done.
Qed.

Lemma first_seen_app (l1 l2 : list string) :
  first_seen (l1 ++ l2)
  = first_seen l1 ++ filter (λ y, y ∉ l1) (first_seen l2).
Proof.
  induction l1 as [|x l1 IH]; simpl.
  - symmetry. apply filter_all, Forall_forall. intros y _. apply not_elem_of_nil.
  - f_equal. rewrite IH, filter_app. f_equal.
    rewrite list_filter_filter. apply list_filter_iff.
    intros y. rewrite elem_of_cons. naive_solver.
Qed.

Lemma position_None k (l : list string) : position k l = None ↔ k ∉ l.
Proof.
  induction l as [|x l IH]; simpl.
  - split; [intros _; apply not_elem_of_nil|done].
  - rewrite not_elem_of_cons. case_decide as Hx.
    + naive_solver.
    + rewrite fmap_None, IH. naive_solver.
Qed.

Lemma position_Some k (l : list string) i :
  position k l = Some i → l !! i = Some k.
Proof.
  revert i. induction l as [|x l IH]; intros i; simpl; [done|].
  case_decide as Hx.
  - intros [= <-]. by subst.
  - destruct (position k l) as [j|]; simpl; [|done].
    intros [= <-]. by apply IH.
Qed.

Lemma position_lookup k (l : list string) i :
  NoDup l → l !! i = Some k → position k l = Some i.
Proof.
  intros Hnd. revert i. induction Hnd as [|x l Hx _ IH]; intros i; [done|].
  destruct i as [|i]; simpl.
  - intros [= ->]. by rewrite decide_True.
  - intros Hi. rewrite decide_False.
    + by rewrite (IH _ Hi).
    + intros ->. apply Hx. by eapply list_elem_of_lookup_2.
Qed.

Lemma position_app_l k (l1 l2 : list string) i :
  position k l1 = Some i → position k (l1 ++ l2) = Some i.
Proof.
  revert i. induction l1 as [|x l1 IH]; intros i; simpl; [done|].
  case_decide; [done|].
  destruct (position k l1) as [j|]; simpl; [|done].
  intros [= <-]. by rewrite (IH j).
Qed.

Lemma position_app_r k (l1 l2 : list string) :
  k ∉ l1 → position k (l1 ++ l2) = (λ i, length l1 + i)%nat <$> position k l2.
Proof.
  induction l1 as [|x l1 IH]; simpl; intros Hk.
  - by destruct (position k l2).
  - apply not_elem_of_cons in Hk as [Hne Hk].
    rewrite decide_False by done. rewrite IH by done.
    by destruct (position k l2).
Qed.

Lemma position_lt k (l : list string) i :
  position k l = Some i → (i < length l)%nat.
Proof. intros H%position_Some. by eapply lookup_lt_Some. Qed.

Lemma new_id_prefix (l1 l2 : list string) k :
  k ∈ l1 → new_id (l1 ++ l2) k = new_id l1 k.
Proof.
  intros Hk. unfold new_id.
  destruct (position k l1) as [i|] eqn:Hp.
  - by rewrite (position_app_l _ _ _ _ Hp).
  - by apply position_None in Hp.
Qed.

Lemma new_id_absent (l : list string) k : k ∉ l → new_id l k = k.
Proof. intros Hk%position_None. unfold new_id. by rewrite Hk. Qed.

End first_seen.

(** ** Strings *)

Section strings.
Import Py.

Lemma rstrip_chars_empty p s : rstrip_chars p s = "" → forallb p s = true.
Proof.
  induction s as [|c s IH]; simpl; [done|].
  destruct (rstrip_chars p s); [|done].
  destruct (p c); [|done]. intros _. by apply IH.
Qed.

Lemma lstrip_chars_forallb p s :
  forallb p (lstrip_chars p s) = true → forallb p s = true.
Proof.
  induction s as [|c s IH]; simpl; [done|].
  destruct (p c) eqn:Hc; simpl; [done|]. by rewrite Hc.
Qed.

Lemma strip_chars_empty p s : strip_chars p s = "" → forallb p s = true.
Proof. intros H. by apply lstrip_chars_forallb, rstrip_chars_empty. Qed.

Lemma forallb_strip_chars p s : forallb p s = true → strip_chars p s = "".
Proof.
  unfold strip_chars. induction s as [|c s IH]; simpl; [done|].
  intros [Hc Hs]%andb_true_iff. rewrite Hc. by apply IH.
Qed.

Lemma split_no_sep sep s :
  forallb (λ c, negb (bool_decide (c = sep))) s = true → split sep s = [s].
Proof.
  induction s as [|c s IH]; simpl; [done|].
  intros [Hc Hs]%andb_true_iff. apply negb_true_iff in Hc. rewrite Hc.
  by rewrite IH.
Qed.

Lemma forallb_impl (p q : ascii → bool) s :
  (∀ c, p c = true → q c = true) → forallb p s = true → forallb q s = true.
Proof.
  intros Hpq. induction s as [|c s IH]; simpl; [done|].
  intros [Hc Hs]%andb_true_iff. rewrite (Hpq _ Hc). by apply IH.
Qed.

Lemma original_ids_blank s : strip s = "" → Renumber.original_ids s = [].
Proof.
  intros Hs. unfold Renumber.original_ids.
  rewrite split_no_sep; simpl.
  - rewrite Hs. by rewrite filter_cons_False by naive_solver.
  - apply strip_chars_empty in Hs. revert Hs. apply forallb_impl.
    intros c Hc. apply negb_true_iff, bool_decide_eq_false. by intros ->.
Qed.

End strings.

(** ** Ids as [original_ids] yields them *)

Section ids.
Import Py.

Lemma forallb_lstrip_chars q p s :
  forallb q s = true → forallb q (lstrip_chars p s) = true.
Proof.
  induction s as [|c s IH]; simpl; [done|].
  intros [Hc Hs]%andb_true_iff. destruct (p c); [by apply IH|].
  simpl. by rewrite Hc, Hs.
Qed.

Lemma forallb_rstrip_chars q p s :
  forallb q s = true → forallb q (rstrip_chars p s) = true.
Proof.
  induction s as [|c s IH]; simpl; [done|].
  intros [Hc Hs]%andb_true_iff. specialize (IH Hs).
  destruct (rstrip_chars p s) as [|c' r].
  - destruct (p c); simpl; [done|]. by rewrite Hc.
  - change (forallb q (String c (String c' r)))
      with (q c && forallb q (String c' r)). by rewrite Hc, IH.
Qed.

Lemma forallb_strip q s : forallb q s = true → forallb q (strip s) = true.
Proof. intros. by apply forallb_rstrip_chars, forallb_lstrip_chars. Qed.

Lemma lstrip_chars_starts_well p s : starts_well p (lstrip_chars p s).
Proof.
  induction s as [|c s IH]; simpl; [done|]. by destruct (p c) eqn:Hc.
Qed.

Lemma rstrip_chars_starts_well p s :
  starts_well p s → starts_well p (rstrip_chars p s).
Proof.
  destruct s as [|c s]; simpl; [done|]. intros Hc.
  destruct (rstrip_chars p s); [by rewrite Hc|done].
Qed.

Lemma lstrip_chars_id p s : starts_well p s → lstrip_chars p s = s.
Proof. destruct s as [|c s]; simpl; [done|]. by intros ->. Qed.

Lemma rstrip_chars_idem p s :
  rstrip_chars p (rstrip_chars p s) = rstrip_chars p s.
Proof.
  induction s as [|c s IH]; simpl; [done|].
  destruct (rstrip_chars p s) as [|c' r] eqn:Hr.
  - destruct (p c) eqn:Hc; simpl; [done|]. by rewrite Hc.
  - change (rstrip_chars p (String c (String c' r)))
      with (match rstrip_chars p (String c' r) with
            | "" => if p c then "" else String c ""
            | r' => String c r'
            end).
    by rewrite IH.
Qed.

Lemma strip_chars_idem p s :
  strip_chars p (strip_chars p s) = strip_chars p s.
Proof.
  unfold strip_chars.
  rewrite (lstrip_chars_id p (rstrip_chars p _)).
  - apply rstrip_chars_idem.
  - apply rstrip_chars_starts_well, lstrip_chars_starts_well.
Qed.

Lemma strip_chars_none p s :
  forallb (λ c, negb (p c)) s = true → strip_chars p s = s.
Proof.
  intros Hs. unfold strip_chars.
  rewrite lstrip_chars_id.
  - induction s as [|c s IH]; simpl; [done|].
    simpl in Hs. apply andb_true_iff in Hs as [Hc Hs].
    rewrite (IH Hs). apply negb_true_iff in Hc. rewrite Hc.
    by destruct s.
  - destruct s as [|c s]; simpl; [done|].
    simpl in Hs. apply andb_true_iff in Hs as [Hc _].
    by apply negb_true_iff.
Qed.

Lemma split_pieces sep s :
  Forall (λ x, forallb (not_char sep) x = true) (split sep s).
Proof.
  induction s as [|c s IH]; simpl; [by constructor|].
  case_bool_decide as Hc; [by constructor|].
  destruct (split sep s) as [|w ws].
  - constructor; [|done]. simpl. unfold not_char.
    by rewrite bool_decide_eq_false_2.
  - inversion_clear IH as [|? ? Hw Hws]. constructor; [|done].
    simpl. unfold not_char at 1. by rewrite bool_decide_eq_false_2, Hw.
Qed.

Lemma split_nonempty sep s : split sep s ≠ [].
Proof.
  destruct s as [|c s]; simpl; [done|].
  case_bool_decide; [done|]. by destruct (split sep s).
Qed.

Lemma split_app_sep sep x rest :
  forallb (not_char sep) x = true →
  split sep (x +:+ String sep rest) = x :: split sep rest.
Proof.
  induction x as [|c x IH]; simpl.
  - intros _. by rewrite bool_decide_eq_true_2.
  - intros [Hc Hx]%andb_true_iff. apply negb_true_iff in Hc.
    rewrite Hc. by rewrite (IH Hx).
Qed.

Lemma split_join sep l :
  Forall (λ x, forallb (not_char sep) x = true) l → l ≠ [] →
  split sep (join (String sep "") l) = l.
Proof.
  induction 1 as [|x l Hx Hl IH]; [done|]. intros _.
  destruct l as [|y l].
  - simpl. by apply split_no_sep.
  - change (join (String sep "") (x :: y :: l))
      with (x +:+ String sep (join (String sep "") (y :: l))).
    rewrite split_app_sep by done. by rewrite IH.
Qed.

Lemma original_ids_clean s : Forall clean (Renumber.original_ids s).
Proof.
  unfold Renumber.original_ids. apply Forall_forall. intros k.
  rewrite list_elem_of_filter, list_elem_of_fmap.
  intros (Hne & x & -> & Hx). split_and!; [done|apply strip_chars_idem|].
  apply forallb_strip.
  pose proof (split_pieces "," s) as Hall.
  rewrite Forall_forall in Hall. by apply Hall.
Qed.

Lemma original_ids_join ids :
  Forall clean ids → Renumber.original_ids (join "," ids) = ids.
Proof.
  intros Hids. destruct (decide (ids = [])) as [->|Hne]; [done|].
  unfold Renumber.original_ids.
  rewrite split_join; [|by eapply Forall_impl; [done|]; intros ? (?&?&?)|done].
  clear Hne. induction Hids as [|k ids (Hk1 & Hk2 & Hk3) _ IH]; [done|].
  rewrite fmap_cons, Hk2, filter_cons_True by done. by rewrite IH.
Qed.

Lemma pretty_N_go_decimal x s :
  forallb isdecimal s = true → forallb isdecimal (pretty_N_go x s) = true.
Proof.
  revert s. induction (N.lt_wf_0 x) as [x _ IH]; intros s Hs.
  assert (x = 0 ∨ 0 < x)%N as [->|Hx] by lia; [done|].
  rewrite pretty_N_go_step by done. apply IH; [by apply N.div_lt|].
  simpl. rewrite Hs, andb_true_r.
  unfold pretty_N_char. by repeat case_match.
Qed.

Lemma pretty_N_go_nonempty x s : s ≠ "" → pretty_N_go x s ≠ "".
Proof.
  revert s. induction (N.lt_wf_0 x) as [x _ IH]; intros s Hs.
  assert (x = 0 ∨ 0 < x)%N as [->|Hx] by lia; [done|].
  rewrite pretty_N_go_step by done. apply IH; [by apply N.div_lt|done].
Qed.

Lemma str_decimal n : forallb isdecimal (str n) = true.
Proof.
  unfold str, pretty, pretty_N. case_decide; [done|].
  by apply pretty_N_go_decimal.
Qed.

Lemma str_nonempty n : str n ≠ "".
Proof.
  unfold str, pretty, pretty_N. case_decide as Hn; [done|].
  rewrite pretty_N_go_step by lia. by apply pretty_N_go_nonempty.
Qed.

Lemma str_clean n : clean (str n).
Proof.
  split_and!; [apply str_nonempty| |].
  - apply strip_chars_none. eapply forallb_impl; [|apply str_decimal].
    by intros [[] [] [] [] [] [] [] []].
  - eapply forallb_impl; [|apply str_decimal].
    intros c Hc. apply negb_true_iff, bool_decide_eq_false. by intros ->.
Qed.

Lemma str_inj n1 n2 : str n1 = str n2 → n1 = n2.
Proof. apply pretty_N_inj. Qed.

End ids.

(** ** Reading a text: the functions of [Py] against the notions of
    [Words] *)

Section words.

Lemma app_String c (s t : string) : String c s +:+ t = String c (s +:+ t).
Proof. done. Qed.

Lemma isspace_white c : Py.isspace c = true ↔ white c.
Proof.
  unfold Py.isspace, white, Py.ord. cbv zeta.
  rewrite !orb_true_iff, !andb_true_iff, !N.leb_le, !N.eqb_eq. tauto.
Qed.

Lemma forallb_every (p : ascii → bool) (P : ascii → Prop) s :
  (∀ c, p c = true → P c) → Py.forallb p s = true → every P s.
Proof.
  intros HpP. induction s as [|c s IH]; simpl; [done|].
  intros [Hc Hs]%andb_true_iff. split; [by apply HpP|by apply IH].
Qed.

Lemma every_forallb (p : ascii → bool) (P : ascii → Prop) s :
  (∀ c, P c → p c = true) → every P s → Py.forallb p s = true.
Proof.
  intros HPp. induction s as [|c s IH]; simpl; [done|].
  intros [Hc Hs]. by rewrite (HPp _ Hc), IH.
Qed.

Lemma lstrip_chars_split p s :
  ∃ pre, s = pre +:+ Py.lstrip_chars p s ∧ Py.forallb p pre = true.
Proof.
  induction s as [|c s (pre & Hs & Hpre)]; [by exists ""|].
  simpl. destruct (p c) eqn:Hc.
  - exists (String c pre). rewrite app_String, <- Hs. simpl.
    by rewrite Hc, Hpre.
  - by exists "".
Qed.

Lemma rstrip_chars_split p s :
  ∃ post, s = Py.rstrip_chars p s +:+ post ∧ Py.forallb p post = true.
Proof.
  induction s as [|c s (post & Hs & Hpost)]; [by exists ""|].
  simpl. destruct (Py.rstrip_chars p s) as [|c' r] eqn:Hr.
  - change ("" +:+ post) with post in Hs. subst post.
    destruct (p c) eqn:Hc.
    + exists (String c s). split; [done|]. simpl. by rewrite Hc.
    + by exists s.
  - exists post. split; [|done]. rewrite !app_String. by rewrite Hs at 1.
Qed.

Lemma rstrip_chars_last p s c :
  last_char (Py.rstrip_chars p s) = Some c → p c = false.
Proof.
  induction s as [|c0 s IH]; simpl; [done|].
  destruct (Py.rstrip_chars p s) as [|c' r] eqn:Hr.
  - destruct (p c0) eqn:Hc0; simpl; [done|]. by intros [= <-].
  - intros Hlast. apply IH. exact Hlast.
Qed.

(** [s.strip()] is [s] without the white space at its ends. *)
Lemma strip_trims_to s : trims_to s (Py.strip s).
Proof.
  unfold Py.strip, Py.strip_chars.
  destruct (lstrip_chars_split Py.isspace s) as (pre & Hs & Hpre).
  destruct (rstrip_chars_split Py.isspace (Py.lstrip_chars Py.isspace s))
    as (post & Hl & Hpost).
  exists pre, post. split_and!.
  - by rewrite <- Hl.
  - revert Hpre. apply forallb_every. intros c. apply isspace_white.
  - revert Hpost. apply forallb_every. intros c. apply isspace_white.
  - intros c Hc Hwhite. apply isspace_white in Hwhite.
    pose proof (rstrip_chars_starts_well Py.isspace _
                  (lstrip_chars_starts_well Py.isspace s)) as Hstart.
    destruct (Py.rstrip_chars _ _) as [|c' r]; [done|].
    simpl in Hc, Hstart. injection Hc as ->. congruence.
  - intros c Hc Hwhite. apply isspace_white in Hwhite.
    apply rstrip_chars_last in Hc. congruence.
Qed.

Lemma separated_cons sep x y (l : list string) :
  separated sep (x :: y :: l) = x +:+ String sep (separated sep (y :: l)).
Proof. done. Qed.

(** A text is the pieces of [s.split(sep)] with the separator between
    them. *)
Lemma separated_split sep s : s = separated sep (Py.split sep s).
Proof.
  induction s as [|c s IH]; [done|]. simpl.
  pose proof (split_nonempty sep s) as Hne.
  destruct (Py.split sep s) as [|w ws]; [done|].
  case_bool_decide as Hc.
  - subst c. by rewrite separated_cons, <- IH.
  - destruct ws as [|w' ws].
    + simpl in *. by rewrite IH.
    + rewrite separated_cons in *. by rewrite app_String, <- IH.
Qed.

Lemma join_separated sep (l : list string) :
  Py.join (String sep "") l = separated sep l.
Proof.
  induction l as [|x l IH]; [done|]. destruct l as [|y l]; [done|].
  by rewrite separated_cons, <- IH.
Qed.

(** What [[x.strip() for x in s.split(sep) if x.strip()]] reads in a
    text. *)
Lemma items_of_split sep s :
  items_of sep s (filter (λ x, x ≠ "") (Py.strip <$> Py.split sep s)).
Proof.
  exists (Py.split sep s), (Py.strip <$> Py.split sep s). split_and!.
  - apply split_nonempty.
  - apply separated_split.
  - eapply Forall_impl; [apply split_pieces|]. intros x.
    apply forallb_every. intros c Hc ->. unfold not_char in Hc.
    by rewrite bool_decide_eq_true_2 in Hc.
  - apply Forall2_fmap_r, Forall_Forall2_diag, Forall_forall.
    intros x _. apply strip_trims_to.
  - done.
Qed.

Lemma strip_blank s : Py.strip s = "" ↔ every white s.
Proof.
  split.
  - intros Hs%strip_chars_empty. revert Hs. apply forallb_every.
    intros c. apply isspace_white.
  - intros Hs. apply forallb_strip_chars. revert Hs. apply every_forallb.
    intros c. apply isspace_white.
Qed.

Lemma lower_char_letter c w :
  97 ≤ N_of_ascii w ≤ 122 →
  Py.lower_char c = w ↔ c = w ∨ N_of_ascii c + 32 = N_of_ascii w.
Proof.
  intros Hw. unfold Py.lower_char, Py.ord. cbv zeta.
  pose proof (N_ascii_bounded c) as Hc.
  assert (∀ a b : ascii, a = b ↔ N_of_ascii a = N_of_ascii b) as Hinj.
  { intros a b. split; [by intros ->|]. intros Hab.
    by rewrite <- (ascii_N_embedding a), <- (ascii_N_embedding b), Hab. }
  destruct (_ || _) eqn:Hcond.
  - rewrite Hinj, N_ascii_embedding.
    + apply orb_true_iff in Hcond.
      rewrite !andb_true_iff, !N.leb_le, negb_true_iff, N.eqb_neq in Hcond.
      rewrite (Hinj c w). lia.
    + apply orb_true_iff in Hcond.
      rewrite !andb_true_iff, !N.leb_le, negb_true_iff, N.eqb_neq in Hcond.
      lia.
  - apply orb_false_iff in Hcond as [H1 H2].
    rewrite andb_false_iff, !N.leb_gt in H1.
    rewrite (Hinj c w). lia.
Qed.

(** [s.lower()] is a word in small letters exactly when [s] is the word
    but for the case of its letters. *)
Lemma lower_same_but_case word x :
  every (λ w, 97 ≤ N_of_ascii w ≤ 122) word →
  Py.lower x = word ↔ same_but_case word x.
Proof.
  revert x. induction word as [|w word IH]; intros [|c x]; simpl; try done.
  intros [Hw Hword]. rewrite <- (IH x Hword), <- (lower_char_letter c w Hw).
  split; [by intros [= -> ->]|by intros [-> ->]].
Qed.

Lemma pretty_N_char_digit d :
  d < 10 →
  Py.isdecimal (pretty_N_char d) = true ∧ Py.ord (pretty_N_char d) - 48 = d.
Proof.
  intros Hd.
  assert (d = 0 ∨ d = 1 ∨ d = 2 ∨ d = 3 ∨ d = 4 ∨ d = 5 ∨ d = 6 ∨ d = 7
          ∨ d = 8 ∨ d = 9) as Hcases by lia.
  destruct_or!; subst; by vm_compute.
Qed.

Lemma int_go_pretty x :
  ∃ p, ∀ acc s,
    Py.int_go acc (pretty_N_go x s) = Py.int_go (acc * p + x) s.
Proof.
  induction (N.lt_wf_0 x) as [x _ IH].
  assert (x = 0 ∨ 0 < x) as [->|Hx] by lia.
  - exists 1. intros acc s. rewrite pretty_N_go_0. f_equal. lia.
  - destruct (IH (x `div` 10)) as [p Hp]; [by apply N.div_lt|].
    exists (10 * p). intros acc s.
    rewrite pretty_N_go_step, Hp by done. simpl.
    destruct (pretty_N_char_digit (x `mod` 10)) as [-> ->];
      [by apply N.mod_lt|].
    f_equal. pose proof (N.div_mod x 10). lia.
Qed.

Lemma digits_value_int_go acc s : digits_value acc s = Py.int_go acc s.
Proof.
  revert acc. induction s as [|c s IH]; intros acc; [done|].
  simpl. unfold Py.isdecimal, Py.ord. cbv zeta.
  destruct (_ && _); [apply IH|done].
Qed.

Lemma pretty_N_go_first x s c :
  0 < x → first_char (pretty_N_go x s) = Some c → c ≠ "0"%char.
Proof.
  revert s. induction (N.lt_wf_0 x) as [x _ IH]; intros s Hx.
  rewrite pretty_N_go_step by done.
  destruct (decide (x `div` 10 = 0)) as [Hq|Hq%N.neq_0_lt_0].
  - rewrite Hq, pretty_N_go_0. simpl. intros [= <-].
    assert (x < 10) as Hlt by (by apply N.div_small_iff in Hq).
    rewrite (N.mod_small x 10 Hlt).
    assert (x = 1 ∨ x = 2 ∨ x = 3 ∨ x = 4 ∨ x = 5 ∨ x = 6 ∨ x = 7
            ∨ x = 8 ∨ x = 9) as Hcases by lia.
    destruct_or!; subst; by vm_compute.
  - apply IH; [|done]. apply N.div_lt; lia.
Qed.

(** [str(n)] is the decimal numeral of [n]. *)
Lemma str_numeral n : numeral_of n (Py.str n).
Proof.
  split_and!; [apply str_nonempty| |].
  - rewrite digits_value_int_go. unfold Py.str, pretty, pretty_N.
    case_decide as Hn; [by subst|].
    destruct (int_go_pretty n) as [p ->]. by simpl.
  - unfold Py.str, pretty, pretty_N. case_decide as Hn; [done|].
    intros Hfirst. apply pretty_N_go_first in Hfirst; [done|lia].
Qed.

End words.

(** ** The state of the renumbering loops *)

Section engine.
Import Renumber.
Variable m : dict.

Lemma used_elem k R : k ∈ used m R ↔ k ∈ R ∧ Dict.mem k m = true.
Proof.
  unfold used. rewrite list_elem_of_filter, elem_of_first_seen. naive_solver.
Qed.

Lemma NoDup_used R : NoDup (used m R).
Proof. apply NoDup_filter, NoDup_first_seen. Qed.

Lemma used_app R R' :
  used m (R ++ R')
  = used m R ++ filter (λ k, k ∉ R) (used m R').
Proof.
  unfold used. rewrite first_seen_app, filter_app. f_equal.
  rewrite !list_filter_filter. apply list_filter_iff. naive_solver.
Qed.

Lemma used_snoc R k :
  used m (R ++ [k])
  = if decide (k ∈ R) then used m R
    else if Dict.mem k m then used m R ++ [k] else used m R.
Proof.
  rewrite used_app. unfold used at 2. simpl. rewrite filter_nil.
  destruct (Dict.mem k m) eqn:Hk.
  - rewrite filter_cons_True by done. rewrite filter_nil.
    case_decide.
    + rewrite filter_cons_False by naive_solver. by rewrite app_nil_r.
    + by rewrite filter_cons_True by done.
  - rewrite filter_cons_False by (by rewrite Hk). rewrite !filter_nil, app_nil_r.
    by case_decide.
Qed.

(** New ids are never revised: an id keeps the number it was given. *)
Lemma new_id_used_mono R R' k :
  k ∈ R → new_id (used m (R ++ R')) k = new_id (used m R) k.
Proof.
  intros Hk. rewrite used_app.
  destruct (decide (k ∈ used m R)) as [Hu|Hu].
  - by apply new_id_prefix.
  - rewrite !new_id_absent; [done|done|].
    rewrite elem_of_app, list_elem_of_filter. naive_solver.
Qed.

Lemma rewrite_author_mono R R' a :
  original_ids (affils a) ⊆ R →
  rewrite_author (used m (R ++ R')) a = rewrite_author (used m R) a.
Proof.
  intros Hsub. unfold rewrite_author. case_bool_decide; [done|].
  do 2 f_equal. apply list_fmap_ext. intros i k Hk.
  apply new_id_used_mono, Hsub. by eapply list_elem_of_lookup_2.
Qed.

Lemma numbered_snoc ks k :
  numbered m (ks ++ [k])
  = numbered m ks ++ [(Py.str (N.of_nat (S (length ks))), text_of m k)].
Proof.
  unfold numbered. rewrite imap_app. simpl. by rewrite Nat.add_0_r.
Qed.

Lemma inv_initial : inv m [] initial.
Proof. split; [done|done|]. intros k. simpl. by rewrite lookup_empty. Qed.

Lemma inv_seen R st k : inv m R st → k ∈ R → inv m (R ++ [k]) st.
Proof.
  intros [Hc Hl Hm] Hk.
  assert (used m (R ++ [k]) = used m R) as HU
    by (rewrite used_snoc; by rewrite decide_True).
  split; rewrite HU; [done|done|].
  intros k'. rewrite Hm. apply decide_ext. set_solver.
Qed.

Lemma inv_identity R st k out :
  inv m R st → k ∉ R → Dict.mem k m = false →
  inv m (R ++ [k])
    {| old_to_new_id_map := <[k := k]> (old_to_new_id_map st);
       new_affiliations_list := new_affiliations_list st;
       current_new_id := current_new_id st;
       updated_names_data := updated_names_data st;
       stdout := out |}.
Proof.
  intros [Hc Hl Hm] Hk Hmem.
  assert (used m (R ++ [k]) = used m R) as HU.
  { rewrite used_snoc. rewrite decide_False by done. by rewrite Hmem. }
  split; rewrite HU; simpl; [done|done|].
  intros k'. destruct (decide (k' = k)) as [->|Hne].
  - rewrite lookup_insert_eq, decide_True by set_solver.
    rewrite new_id_absent; [done|]. rewrite used_elem. naive_solver.
  - rewrite lookup_insert_ne by done. rewrite Hm.
    apply decide_ext. set_solver.
Qed.

Lemma inv_assign R st k :
  inv m R st → k ∉ R → Dict.mem k m = true →
  inv m (R ++ [k])
    {| old_to_new_id_map :=
         <[k := Py.str (current_new_id st)]> (old_to_new_id_map st);
       new_affiliations_list :=
         new_affiliations_list st
         ++ [(Py.str (current_new_id st), text_of m k)];
       current_new_id := current_new_id st + 1;
       updated_names_data := updated_names_data st;
       stdout := stdout st |}.
Proof.
  intros [Hc Hl Hm] Hk Hmem.
  assert (used m (R ++ [k]) = used m R ++ [k]) as HU.
  { rewrite used_snoc. rewrite decide_False by done. by rewrite Hmem. }
  assert (k ∉ used m R) as Hku by (rewrite used_elem; naive_solver).
  split; rewrite HU; simpl.
  - rewrite Hc, length_app. simpl. lia.
  - by rewrite numbered_snoc, Hl, Hc.
  - intros k'. destruct (decide (k' = k)) as [->|Hne].
    + rewrite lookup_insert_eq, decide_True by set_solver.
      unfold new_id. rewrite position_app_r by done. simpl.
      rewrite decide_True by done. simpl. by rewrite Nat.add_0_r, Hc.
    + rewrite lookup_insert_ne by done. rewrite Hm.
      case_decide as Hin.
      * rewrite decide_True by set_solver.
        destruct (decide (k' ∈ used m R)).
        -- by rewrite new_id_prefix.
        -- rewrite !new_id_absent; [done|set_solver|done].
      * rewrite decide_False; [done|]. set_solver.
Qed.

Lemma inv_ext R st st' :
  inv m R st →
  old_to_new_id_map st' = old_to_new_id_map st →
  new_affiliations_list st' = new_affiliations_list st →
  current_new_id st' = current_new_id st →
  inv m R st'.
Proof.
  intros [Hc Hl Hm] H1 H2 H3.
  split; [congruence|congruence|]. intros k. rewrite H1. apply Hm.
Qed.

End engine.

(** ** The loops of [renumber_affiliations] *)

Section loops.
Import Renumber.
Variable m : dict.
Variable names : list author.

Lemma mem_getitem k :
  Dict.mem k m = true → Dict.getitem m k = Ok (text_of m k).
Proof.
  unfold Dict.mem, Dict.getitem, text_of. by destruct (Dict.get m k).
Qed.

Lemma visit_spec a k R st :
  inv m R st → warned m names R st →
  a ∈ names → k ∈ original_ids (affils a) →
  ∃ st', visit m a k st = Ok (new_id (used m (R ++ [k])) k, st')
         ∧ inv m (R ++ [k]) st' ∧ warned m names (R ++ [k]) st'
         ∧ updated_names_data st' = updated_names_data st.
Proof.
  intros Hinv Hw Ha Hk.
  pose proof (inv_map _ _ _ Hinv k) as Hmk.
  unfold visit, mbind, M_bind, bind, seen, gets. simpl.
  destruct (decide (k ∈ R)) as [HR|HR].
  - rewrite bool_decide_eq_true_2 by (rewrite Hmk; eauto). simpl.
    unfold remap_getitem. rewrite Hmk.
    eexists. split_and!; [|by apply inv_seen| |done].
    + by rewrite new_id_used_mono.
    + intros k' Hk' Hmem. apply Hw; [|done]. set_solver.
  - rewrite bool_decide_eq_false_2 by (rewrite Hmk; by intros [? ?]). simpl.
    destruct (Dict.mem k m) eqn:Hmem; simpl.
    + rewrite (mem_getitem _ Hmem). simpl.
      unfold remap_getitem. simpl. rewrite lookup_insert_eq.
      pose proof (inv_assign _ _ _ _ Hinv HR Hmem) as Hinv'.
      eexists. split_and!; [|exact Hinv'| |done].
      * pose proof (inv_map _ _ _ Hinv' k) as Hk'. simpl in Hk'.
        rewrite lookup_insert_eq, decide_True in Hk' by set_solver.
        injection Hk' as Hk'. by rewrite <- Hk'.
      * intros k' [Hk'|Hk']%elem_of_app Hmem'; [by apply Hw|].
        apply list_elem_of_singleton in Hk' as ->. congruence.
    + unfold remap_getitem. simpl. rewrite lookup_insert_eq.
      pose proof (inv_identity _ _ _ _ (stdout st ++ [warning a k])
                    Hinv HR Hmem) as Hinv'.
      eexists. split_and!; [|exact Hinv'| |done].
      * pose proof (inv_map _ _ _ Hinv' k) as Hk'. simpl in Hk'.
        rewrite lookup_insert_eq, decide_True in Hk' by set_solver.
        injection Hk' as Hk'. by rewrite <- Hk'.
      * intros k' [Hk'|Hk']%elem_of_app Hmem'; simpl.
        -- destruct (Hw k' Hk' Hmem') as (a' & ? & ? & ?).
           exists a'. split_and!; [done|done|set_solver].
        -- apply list_elem_of_singleton in Hk' as ->.
           exists a. split_and!; [done|done|set_solver].
Qed.

Lemma collect_visit_spec a ids R st :
  inv m R st → warned m names R st →
  a ∈ names → ids ⊆ original_ids (affils a) →
  ∃ st', collect ids (visit m a) st
         = Ok (new_id (used m (R ++ ids)) <$> ids, st')
         ∧ inv m (R ++ ids) st' ∧ warned m names (R ++ ids) st'
         ∧ updated_names_data st' = updated_names_data st.
Proof.
  intros Hinv Hw Ha. revert R st Hinv Hw.
  induction ids as [|k ids IH]; intros R st Hinv Hw Hsub; simpl.
  - exists st. by rewrite app_nil_r.
  - destruct (visit_spec a k R st) as (st1 & Hv & Hinv1 & Hw1 & Hu1);
      [done|done|done|set_solver|].
    destruct (IH (R ++ [k]) st1) as (st2 & Hc & Hinv2 & Hw2 & Hu2);
      [done|done|set_solver|].
    rewrite <- (assoc_L (++)) in Hc, Hinv2, Hw2. simpl in Hc, Hinv2, Hw2.
    exists st2. split_and!; [|done|done|congruence].
    unfold mbind, M_bind, bind. rewrite Hv, Hc. simpl. unfold mret, M_ret, ret.
    do 3 f_equal.
    change (k :: ids) with ([k] ++ ids). rewrite (assoc_L (++)).
    symmetry. apply new_id_used_mono. set_solver.
Qed.

Lemma each_author_spec a R st :
  inv m R st → warned m names R st → a ∈ names →
  let R' := R ++ original_ids (affils a) in
  ∃ st', each_author m a st = Ok (tt, st')
         ∧ inv m R' st' ∧ warned m names R' st'
         ∧ updated_names_data st'
           = updated_names_data st ++ [rewrite_author (used m R') a].
Proof.
  intros Hinv Hw Ha R'. unfold each_author, rewrite_author.
  case_bool_decide as Hblank.
  - subst R'. rewrite (original_ids_blank _ Hblank), app_nil_r.
    eexists. split_and!; [done| | |done].
    + by eapply inv_ext.
    + done.
  - destruct (collect_visit_spec a (original_ids (affils a)) R st)
      as (st1 & Hc & Hinv1 & Hw1 & Hu1); [done..|].
    unfold mbind, M_bind, bind. rewrite Hc.
    eexists. split_and!; [done| | |].
    + by eapply inv_ext.
    + done.
    + simpl. by rewrite Hu1.
Qed.

Lemma authors_loop_spec rest R st :
  inv m R st → warned m names R st → rest ⊆ names →
  let R' := R ++ references rest in
  ∃ st', for_each rest (each_author m) st = Ok (tt, st')
         ∧ inv m R' st' ∧ warned m names R' st'
         ∧ updated_names_data st'
           = updated_names_data st ++ (rewrite_author (used m R') <$> rest).
Proof.
  revert R st. induction rest as [|a rest IH]; intros R st Hinv Hw Hsub; simpl.
  - exists st. unfold references. simpl. by rewrite !app_nil_r.
  - destruct (each_author_spec a R st) as (st1 & He & Hinv1 & Hw1 & Hu1);
      [done|done|set_solver|].
    destruct (IH (R ++ original_ids (affils a)) st1)
      as (st2 & Hf & Hinv2 & Hw2 & Hu2); [done|done|set_solver|].
    unfold references in *. simpl.
    rewrite <- (assoc_L (++)) in Hinv2, Hw2, Hu2.
    exists st2. split_and!; [|done|done|].
    + unfold mbind, M_bind, bind. by rewrite He.
    + rewrite Hu2, Hu1, <- (assoc_L (++)). simpl. do 2 f_equal.
      rewrite (assoc_L (++)). symmetry. apply rewrite_author_mono. set_solver.
Qed.

Lemma get_first_occurrence (pre rest : dict) k v :
  k ∉ Dict.keys pre → Dict.get (pre ++ (k, v) :: rest) k = Some v.
Proof.
  induction pre as [|[k' v'] pre IH]; simpl; intros Hk.
  - by rewrite decide_True.
  - apply not_elem_of_cons in Hk as [Hne Hk].
    rewrite decide_False by done. by apply IH.
Qed.

Lemma items_loop_spec pre items R st :
  m = pre ++ items → Dict.keys pre ⊆ R →
  inv m R st →
  let R' := R ++ Dict.keys items in
  ∃ st', for_each items each_item st = Ok (tt, st')
         ∧ inv m R' st'
         ∧ updated_names_data st' = updated_names_data st
         ∧ stdout st' = stdout st.
Proof.
  revert pre R st.
  induction items as [|[k v] items IH]; intros pre R st Hm Hpre Hinv;
    cbn [for_each].
  - exists st. by rewrite app_nil_r.
  - pose proof (inv_map _ _ _ Hinv k) as Hmk.
    assert (∃ st1, each_item (k, v) st = Ok (tt, st1)
                   ∧ inv m (R ++ [k]) st1
                   ∧ updated_names_data st1 = updated_names_data st
                   ∧ stdout st1 = stdout st) as (st1 & He & Hinv1 & Hu1 & Ho1).
    { unfold each_item, mbind, M_bind, bind, seen, gets. simpl.
      destruct (decide (k ∈ R)) as [HR|HR].
      - rewrite bool_decide_eq_true_2 by (rewrite Hmk; eauto). simpl.
        exists st. split_and!; [done|by apply inv_seen|done|done].
      - rewrite bool_decide_eq_false_2 by (rewrite Hmk; by intros [? ?]).
        simpl.
        assert (Dict.get m k = Some v) as Hget.
        { rewrite Hm. apply get_first_occurrence. set_solver. }
        assert (Dict.mem k m = true) as Hmem
          by (unfold Dict.mem; by rewrite Hget).
        pose proof (inv_assign _ _ _ _ Hinv HR Hmem) as Hinv'.
        unfold text_of in Hinv'. rewrite Hget in Hinv'. simpl in Hinv'.
        eexists. split_and!; [done|exact Hinv'|done|done]. }
    destruct (IH (pre ++ [(k, v)]) (R ++ [k]) st1)
      as (st2 & Hf & Hinv2 & Hu2 & Ho2).
    { by rewrite <- (assoc_L (++)). }
    { unfold Dict.keys in *. rewrite fmap_app. set_solver. }
    { done. }
    rewrite <- (assoc_L (++)) in Hinv2.
    exists st2. split_and!; [|done|congruence|congruence].
    unfold mbind, M_bind, bind. by rewrite He.
Qed.

End loops.

(** ** The whole run *)

Section run.
Import Renumber.
Variable names : list author.
Variable m : dict.

Lemma mem_keys k : Dict.mem k m = true ↔ k ∈ Dict.keys m.
Proof.
  unfold Dict.mem, Dict.keys. induction m as [|[k' v] d IH]; simpl.
  - split; [done|]. by intros ?%elem_of_nil.
  - rewrite elem_of_cons. case_decide; naive_solver.
Qed.

Lemma used_keys : Dict.wf m → used m (Dict.keys m) = Dict.keys m.
Proof.
  intros Hwf. unfold used. rewrite first_seen_NoDup by done.
  apply filter_all, Forall_forall. intros k. by rewrite mem_keys.
Qed.

Lemma final_ids_split :
  Dict.wf m →
  final_ids names m = used m (references names) ++ orphans names m.
Proof. intros Hwf. unfold final_ids. by rewrite used_app, used_keys. Qed.

Lemma run_spec :
  ∃ st, run names m = Ok st
    ∧ inv m (references names ++ Dict.keys m) st
    ∧ warned m names (references names) st
    ∧ updated_names_data st
      = rewrite_author (used m (references names)) <$> names.
Proof.
  destruct (authors_loop_spec m names names [] initial)
    as (st1 & H1 & Hinv1 & Hw1 & Hu1);
    [apply inv_initial|by intros k ?%elem_of_nil|done|].
  simpl in *.
  destruct (items_loop_spec m [] m (references names) st1)
    as (st2 & H2 & Hinv2 & Hu2 & Ho2); [done|set_solver|done|].
  exists st2. split_and!.
  - unfold run, mbind, M_bind, bind. rewrite H1. unfold Dict.items.
    by rewrite H2.
  - done.
  - intros k Hk Hmem. destruct (Hw1 k Hk Hmem) as (a & ? & ? & ?).
    exists a. by rewrite Ho2.
  - by rewrite Hu2, Hu1.
Qed.

Lemma renumber_affiliations_run st :
  run names m = Ok st →
  renumber_affiliations names m
  = Ok (new_affiliations_list st, updated_names_data st).
Proof. intros H. unfold renumber_affiliations. by rewrite H. Qed.

End run.

(** ** The rewritten reference lists *)

Section rewritten.
Import Renumber.

Lemma new_id_clean ks k : clean k → clean (new_id ks k).
Proof.
  intros Hk. unfold new_id. destruct (position k ks); [|done].
  apply str_clean.
Qed.

Lemma original_ids_rewrite ks a :
  original_ids (affils (rewrite_author ks a))
  = new_id ks <$> original_ids (affils a).
Proof.
  unfold rewrite_author. case_bool_decide as Hblank.
  - by rewrite (original_ids_blank _ Hblank).
  - simpl. apply original_ids_join, Forall_fmap.
    eapply Forall_impl; [apply original_ids_clean|].
    intros k Hk. by apply new_id_clean.
Qed.

Lemma references_elem names k :
  k ∈ references names ↔ ∃ a, a ∈ names ∧ k ∈ original_ids (affils a).
Proof. unfold references. rewrite list_elem_of_bind. naive_solver. Qed.

Lemma remap_lookup names m st k :
  inv m (references names ++ Dict.keys m) st →
  k ∈ references names →
  old_to_new_id_map st !! k = Some (new_id (used m (references names)) k).
Proof.
  intros Hinv Hk. rewrite (inv_map _ _ _ Hinv).
  rewrite decide_True by set_solver. by rewrite new_id_used_mono.
Qed.

Lemma used_new_id m R i k :
  used m R !! i = Some k → new_id (used m R) k = Py.str (N.of_nat (S i)).
Proof.
  intros Hi. unfold new_id.
  by rewrite (position_lookup _ _ _ (NoDup_used m R) Hi).
Qed.

Lemma mem_text_of m k :
  Dict.mem k m = true → Dict.get m k = Some (text_of m k).
Proof. unfold Dict.mem, text_of. by destruct (Dict.get m k). Qed.

Lemma numbered_lookup m ks i k :
  ks !! i = Some k →
  numbered m ks !! i = Some (Py.str (N.of_nat (S i)), text_of m k).
Proof. intros Hi. unfold numbered. by rewrite list_lookup_imap, Hi. Qed.

Lemma numbered_keys m ks : (numbered m ks).*1 = numerals (length ks).
Proof.
  unfold numbered, numerals. rewrite fmap_imap.
  apply (imap_seq_0 ks (λ i, Py.str (N.of_nat (S i)))).
Qed.

End rewritten.

(** * The properties of the specification *)

(** ** Renumbering Engine *)

(** C1. For every author list and affiliation mapping the engine returns,
    and: the distinct referenced ids that are keys of the mapping, taken in
    order of first appearance over the authors and their references, are
    given the numbers 1, 2, ... in the RemapTable (one number per id,
    however many authors refer to it); the pair of the new id and the
    original text stands at that place of the output affiliation list; the
    output authors are the input authors in the same order, and each one's
    reference list is the input one with every id replaced by its
    RemapTable value, in the same order and number.  The references of an
    author are what the reference text holds between its commas, without
    the white space around and without the blank pieces; the output
    reference text is the input one when that is blank, and otherwise the
    RemapTable values with one comma between two of them; and the number
    of an id is written as its decimal numeral. *)
Theorem C1_renumbering_in_order_of_first_appearance
    (names : list Renumber.author) (m : dict) :
  (∀ s, items_of "," s (Renumber.original_ids s))
  ∧ (∀ n, numeral_of n (Py.str n))
  ∧ ∃ st, Renumber.run names m = Ok st
    ∧ Renumber.renumber_affiliations names m
      = Ok (Renumber.new_affiliations_list st, Renumber.updated_names_data st)
    ∧ (∀ i k, used m (references names) !! i = Some k →
         ∃ text, Dict.get m k = Some text
           ∧ Renumber.old_to_new_id_map st !! k = Some (Py.str (N.of_nat (S i)))
           ∧ Renumber.new_affiliations_list st !! i
             = Some (Py.str (N.of_nat (S i)), text))
    ∧ Forall2 (λ a a',
         Renumber.last a' = Renumber.last a
         ∧ Renumber.first a' = Renumber.first a
         ∧ Forall2 (λ k k', Renumber.old_to_new_id_map st !! k = Some k')
             (Renumber.original_ids (Renumber.affils a))
             (Renumber.original_ids (Renumber.affils a'))
         ∧ (every white (Renumber.affils a) →
            Renumber.affils a' = Renumber.affils a)
         ∧ (¬ every white (Renumber.affils a) →
            ∃ new_ids,
              Forall2 (λ k k', Renumber.old_to_new_id_map st !! k = Some k')
                (Renumber.original_ids (Renumber.affils a)) new_ids
              ∧ Renumber.affils a' = separated "," new_ids))
        names (Renumber.updated_names_data st).
Proof.
  split; [intros s; apply items_of_split|].
  split; [intros n; apply str_numeral|].
  destruct (run_spec names m) as (st & Hrun & Hinv & _ & Hupd).
  exists st. split_and!; [done|by apply renumber_affiliations_run| |].
  - intros i k Hi.
    assert (k ∈ used m (references names)) as Hk
      by (by eapply list_elem_of_lookup_2).
    apply used_elem in Hk as [Hk Hmem].
    exists (text_of m k). split_and!.
    + by apply mem_text_of.
    + rewrite (remap_lookup _ _ _ _ Hinv Hk). f_equal. by apply used_new_id.
    + rewrite (inv_list _ _ _ Hinv), used_app.
      unfold numbered. rewrite imap_app, lookup_app_l.
      * by apply numbered_lookup.
      * rewrite length_imap. by eapply lookup_lt_Some.
  - rewrite Hupd. apply Forall2_fmap_r, Forall_Forall2_diag, Forall_forall.
    intros a Ha. split_and!.
    + unfold rewrite_author. by case_bool_decide.
    + unfold rewrite_author. by case_bool_decide.
    + rewrite original_ids_rewrite.
      apply Forall2_fmap_r, Forall_Forall2_diag, Forall_forall.
      intros k Hk. apply (remap_lookup _ _ _ _ Hinv).
      apply references_elem. eauto.
    + intros Hblank%strip_blank. unfold rewrite_author.
      by rewrite bool_decide_eq_true_2.
    + intros Hblank. unfold rewrite_author.
      rewrite bool_decide_eq_false_2 by by rewrite strip_blank.
      eexists. split; [|apply (join_separated ",")].
      apply Forall2_fmap_r, Forall_Forall2_diag, Forall_forall.
      intros k Hk. apply (remap_lookup _ _ _ _ Hinv).
      apply references_elem. eauto.
Qed.

(** ** Canonical input *)

Section canonical.
Import Renumber.

Lemma numerals_lookup n i k :
  numerals n !! i = Some k ↔ (i < n)%nat ∧ k = Py.str (N.of_nat (S i)).
Proof.
  unfold numerals. rewrite list_lookup_fmap, fmap_Some.
  setoid_rewrite lookup_seq. naive_solver.
Qed.

Lemma numerals_length n : length (numerals n) = n.
Proof. unfold numerals. by rewrite length_fmap, length_seq. Qed.

Lemma NoDup_numerals n : NoDup (numerals n).
Proof.
  unfold numerals. apply NoDup_fmap_2; [|apply NoDup_seq].
  intros i j Hij%str_inj. lia.
Qed.

Lemma new_id_numerals n k : new_id (numerals n) k = k.
Proof.
  unfold new_id. destruct (position k (numerals n)) as [i|] eqn:Hp; [|done].
  apply position_Some, numerals_lookup in Hp as [_ ->]. done.
Qed.

Lemma new_id_nil k : new_id [] k = k.
Proof. done. Qed.

Lemma rewrite_author_ext ks ks' a :
  (∀ k, new_id ks k = new_id ks' k) →
  rewrite_author ks a = rewrite_author ks' a.
Proof.
  intros Hext. unfold rewrite_author. case_bool_decide; [done|].
  do 2 f_equal. apply list_fmap_ext. intros i k _. apply Hext.
Qed.

Lemma rewrite_author_idem a :
  rewrite_author [] (rewrite_author [] a) = rewrite_author [] a.
Proof.
  pose proof (original_ids_rewrite [] a) as Hids.
  destruct (decide (Py.strip (affils a) = "")) as [Hb|Hb].
  - assert (rewrite_author [] a = a) as Ha
      by (unfold rewrite_author; by rewrite bool_decide_eq_true_2).
    by rewrite !Ha.
  - unfold rewrite_author at 1. case_bool_decide as Hblank; [done|].
    rewrite Hids. unfold rewrite_author.
    rewrite bool_decide_eq_false_2 by done. simpl.
    do 2 f_equal. rewrite <- list_fmap_compose. apply list_fmap_ext.
    by intros i k _.
Qed.

Lemma references_rewrite names :
  references (rewrite_author [] <$> names) = references names.
Proof.
  unfold references. induction names as [|a names IH]; [done|].
  rewrite fmap_cons, !bind_cons, IH. f_equal.
  rewrite original_ids_rewrite. rewrite <- (list_fmap_id (original_ids _)) at 2.
  apply list_fmap_ext. by intros i k _.
Qed.

Lemma get_tabulate (f : string → string) ks k :
  Dict.get ((λ k, (k, f k)) <$> ks) k
  = if decide (k ∈ ks) then Some (f k) else None.
Proof.
  induction ks as [|x ks IH].
  - case_decide as H; [by apply elem_of_nil in H|done].
  - rewrite fmap_cons. cbn [Dict.get].
    destruct (decide (x = k)) as [->|Hx].
    + by rewrite decide_True by set_solver.
    + rewrite IH. apply decide_ext. set_solver.
Qed.

Lemma numbered_numerals m n :
  numbered m (numerals n) = (λ k, (k, text_of m k)) <$> numerals n.
Proof.
  unfold numbered. rewrite <- imap_const. apply imap_ext.
  intros i k Hk. apply numerals_lookup in Hk as [_ ->]. done.
Qed.

Lemma canonical_used names m :
  canonical names m →
  used m (references names ++ Dict.keys m) = numerals (length m)
  ∧ used m (references names) = numerals (length m).
Proof.
  intros (Hwf & Hseen & Hrefs & Hkeys).
  assert (used m (references names) = numerals (length m)) as HU.
  { unfold used. rewrite <- Hseen. apply filter_all, Forall_forall.
    intros k Hk%elem_of_first_seen_1. apply mem_keys.
    rewrite Forall_forall in Hrefs. by apply Hrefs. }
  split; [|done].
  pose proof (final_ids_split names m Hwf) as Hfin. unfold final_ids in Hfin.
  rewrite Hfin, HU. unfold orphans.
  replace (filter _ (Dict.keys m)) with (@nil string);
    [by rewrite app_nil_r|].
  symmetry. apply filter_none.
  eapply Forall_impl; [exact Hkeys|]. naive_solver.
Qed.

Lemma canonical_result names m :
  canonical names m →
  renumber_affiliations names m
  = Ok ((λ k, (k, text_of m k)) <$> numerals (length m),
        rewrite_author [] <$> names).
Proof.
  intros Hcan. destruct (canonical_used _ _ Hcan) as [HU1 HU2].
  destruct (run_spec names m) as (st & Hrun & Hinv & _ & Hupd).
  rewrite (renumber_affiliations_run _ _ _ Hrun).
  rewrite (inv_list _ _ _ Hinv), HU1, Hupd, HU2, numbered_numerals.
  do 2 f_equal. apply list_fmap_ext. intros i a _.
  apply rewrite_author_ext. intros k. by rewrite new_id_numerals.
Qed.

Lemma canonical_again names m :
  canonical names m →
  canonical (rewrite_author [] <$> names)
    ((λ k, (k, text_of m k)) <$> numerals (length m)).
Proof.
  intros (Hwf & Hseen & Hrefs & Hkeys).
  assert (Dict.keys ((λ k, (k, text_of m k)) <$> numerals (length m))
          = numerals (length m)) as Hk.
  { unfold Dict.keys. rewrite <- list_fmap_compose. apply list_fmap_id. }
  unfold canonical. rewrite references_rewrite, Hk.
  rewrite length_fmap, numerals_length.
  split_and!; [unfold Dict.wf; rewrite Hk; apply NoDup_numerals|done| |].
  - rewrite <- Hseen. apply Forall_forall. intros k.
    by rewrite elem_of_first_seen.
  - rewrite <- Hseen. apply Forall_forall. intros k.
    by rewrite elem_of_first_seen.
Qed.

End canonical.

(** C2. On canonical input the engine changes nothing: the output
    affiliation list has as many entries as the mapping, with the same ids
    bound to the same texts; every output author has the same names and
    the same reference list as the input author; and a run on the output
    returns that output again. *)
Theorem C2_idempotent_on_canonical_input
    (names : list Renumber.author) (m : dict) (Hcanonical : canonical names m) :
  ∃ affs names', Renumber.renumber_affiliations names m = Ok (affs, names')
    ∧ length affs = length m
    ∧ (∀ k, Dict.get affs k = Dict.get m k)
    ∧ Forall2 (λ a a',
         Renumber.last a' = Renumber.last a
         ∧ Renumber.first a' = Renumber.first a
         ∧ Renumber.original_ids (Renumber.affils a')
           = Renumber.original_ids (Renumber.affils a))
        names names'
    ∧ Renumber.renumber_affiliations names' affs = Ok (affs, names').
Proof.
  pose proof (canonical_result _ _ Hcanonical) as Hfirst.
  pose proof (canonical_result _ _ (canonical_again _ _ Hcanonical)) as Hsecond.
  destruct Hcanonical as (Hwf & Hseen & Hrefs & Hkeys).
  assert (∀ k, Dict.get ((λ k, (k, text_of m k))
                          <$> numerals (length m)) k = Dict.get m k) as Hget.
  { intros k. rewrite get_tabulate. case_decide as Hk.
    - symmetry. apply mem_text_of, mem_keys.
      rewrite <- Hseen in Hk. apply elem_of_first_seen_1 in Hk.
      rewrite Forall_forall in Hrefs. by apply Hrefs.
    - destruct (Dict.get m k) as [v|] eqn:Hv; [|done].
      exfalso. apply Hk. rewrite <- Hseen. apply elem_of_first_seen_2.
      rewrite Forall_forall in Hkeys. apply Hkeys, mem_keys.
      unfold Dict.mem. by rewrite Hv. }
  eexists _, _. split_and!; [exact Hfirst| |exact Hget| |].
  - by rewrite length_fmap, numerals_length.
  - apply Forall2_fmap_r, Forall_Forall2_diag, Forall_forall.
    intros a _. split_and!.
    + unfold rewrite_author. by case_bool_decide.
    + unfold rewrite_author. by case_bool_decide.
    + rewrite original_ids_rewrite.
      rewrite <- (list_fmap_id (Renumber.original_ids _)) at 2.
      apply list_fmap_ext. by intros i k _.
  - rewrite Hsecond, length_fmap, numerals_length. do 2 f_equal.
    + apply list_fmap_ext. intros i k _. f_equal.
      unfold text_of. by rewrite Hget.
    + rewrite <- list_fmap_compose. apply list_fmap_ext. intros i a _.
      apply rewrite_author_idem.
Qed.

Lemma C2_witness :
  canonical
    [Renumber.Author "Doe" "Jane" "1,2"; Renumber.Author "Smith" "John" "2,3"]
    [("1", "MIT"); ("2", "Stanford"); ("3", "Caltech")]
  ∧ ∃ affs names',
      Renumber.renumber_affiliations
        [Renumber.Author "Doe" "Jane" "1,2"; Renumber.Author "Smith" "John" "2,3"]
        [("1", "MIT"); ("2", "Stanford"); ("3", "Caltech")] = Ok (affs, names')
      ∧ Renumber.renumber_affiliations names' affs = Ok (affs, names').
Proof.
  assert (canonical
    [Renumber.Author "Doe" "Jane" "1,2"; Renumber.Author "Smith" "John" "2,3"]
    [("1", "MIT"); ("2", "Stanford"); ("3", "Caltech")]) as Hcan.
  { unfold canonical, Dict.wf. split_and!.
    - refine (bool_decide_unpack _ _). vm_compute. exact I.
    - vm_compute. reflexivity.
    - refine (bool_decide_unpack _ _). vm_compute. exact I.
    - refine (bool_decide_unpack _ _). vm_compute. exact I. }
  split; [exact Hcan|].
  destruct (C2_idempotent_on_canonical_input _ _ Hcan)
    as (affs & names' & H1 & _ & _ & _ & H2).
  exists affs, names'. split; [exact H1|exact H2].
Defined.

(** C3, as the specification words it, fails: an id that an author refers
    to and that is not a key of the mapping counts among the distinct
    referenced ids, yet it keeps its own name instead of a number. *)
Lemma C3_counterexample :
  ¬ numbers_assigned
      (first_seen
         (references [Renumber.Author "Doe" "Jane" "7"]))
      [Renumber.Author "Doe" "Jane" "7"] [].
Proof.
  intros (st & Hrun & Hset & _).
  vm_compute in Hrun. injection Hrun as <-.
  destruct (proj1 (Hset "7")) as (i & Hi & Hv).
  - exists "7". split; [|done]. vm_compute. set_solver.
  - vm_compute in Hi. assert (i = 0%nat) as -> by lia. vm_compute in Hv. done.
Qed.

(** C3, amended. For every author list and every dictionary, the new ids
    given to the distinct referenced ids that are keys of the mapping are
    exactly the numerals of 1, ..., K, where K is the count of these ids;
    the orphans are given K+1, K+2, ... in their order; and the ids of the
    output affiliation list are the numerals of 1, ..., K + the number of
    orphans. *)
Theorem C3_new_ids_are_1_to_K_then_orphans
    (names : list Renumber.author) (m : dict) (Hwf : Dict.wf m) :
  numbers_assigned (used m (references names)) names m
  ∧ ∃ affs names', Renumber.renumber_affiliations names m = Ok (affs, names')
      ∧ affs.*1
        = numerals (length (used m (references names))
                    + length (orphans names m)).
Proof.
  destruct (run_spec names m) as (st & Hrun & Hinv & _ & Hupd).
  pose proof (final_ids_split names m Hwf) as Hfin. unfold final_ids in Hfin.
  split.
  - exists st. split_and!; [done| |].
    + intros v. split.
      * intros (k & Hk & Hv).
        apply list_elem_of_lookup_1 in Hk as [i Hi].
        exists i. split; [by eapply lookup_lt_Some|].
        assert (k ∈ references names) as Hr.
        { apply list_elem_of_lookup_2, used_elem in Hi. tauto. }
        rewrite (remap_lookup _ _ _ _ Hinv Hr) in Hv.
        injection Hv as <-. by apply used_new_id.
      * intros (i & Hi & ->).
        destruct (lookup_lt_is_Some_2 _ _ Hi) as [k Hk].
        exists k. split; [by eapply list_elem_of_lookup_2|].
        assert (k ∈ references names) as Hr.
        { apply list_elem_of_lookup_2, used_elem in Hk. tauto. }
        rewrite (remap_lookup _ _ _ _ Hinv Hr). f_equal. by apply used_new_id.
    + intros j k Hj.
      rewrite (inv_map _ _ _ Hinv), decide_True.
      * f_equal. apply used_new_id. rewrite Hfin.
        rewrite lookup_app_r by lia. by replace (_ + j - _)%nat with j by lia.
      * apply list_elem_of_lookup_2 in Hj. unfold orphans in Hj.
        apply list_elem_of_filter in Hj. set_solver.
  - eexists _, _. split; [by apply renumber_affiliations_run|].
    rewrite (inv_list _ _ _ Hinv), Hfin, numbered_keys. by rewrite length_app.
Qed.

Lemma C3_witness :
  Dict.wf [("1", "MIT"); ("2", "Stanford"); ("3", "Unused U.")]
  ∧ numbers_assigned
      (used [("1", "MIT"); ("2", "Stanford"); ("3", "Unused U.")]
         (references
            [Renumber.Author "Doe" "Jane" "2,1";
             Renumber.Author "Smith" "John" "1,7"]))
      [Renumber.Author "Doe" "Jane" "2,1";
       Renumber.Author "Smith" "John" "1,7"]
      [("1", "MIT"); ("2", "Stanford"); ("3", "Unused U.")].
Proof.
  assert (Dict.wf [("1", "MIT"); ("2", "Stanford"); ("3", "Unused U.")]) as Hwf
    by (unfold Dict.wf; simpl; refine (bool_decide_unpack _ _); vm_compute; exact I).
  split; [exact Hwf|].
  exact (proj1 (C3_new_ids_are_1_to_K_then_orphans _ _ Hwf)).
Defined.

(** C4. When an author refers to an id that is not a key of the mapping:
    on meeting it while it is not yet in the RemapTable, the engine prints
    a warning that names the author and the id, maps the id to itself,
    adds nothing to the output affiliation list, leaves the counter as it
    is and goes on without raising; and the whole run returns, with the id
    mapped to itself, a warning about it printed, and every entry of the
    output affiliation list being the new id and the text of a key of the
    mapping.  The warning is the line that says that the author, by the
    last name, references the affiliation id, between quotes, which is
    not in the affiliations file, and that the original id is kept; the
    ids an author refers to are what the reference text holds between
    its commas, without the white space around and without the blank
    pieces. *)
Theorem C4_missing_id_warned_and_kept
    (m : dict) (a : Renumber.author) (oid : string)
    (Hmissing : Dict.mem oid m = false) :
  (∀ s, items_of "," s (Renumber.original_ids s))
  ∧ (∀ st, Renumber.old_to_new_id_map st !! oid = None →
     Renumber.visit m a oid st
     = Ok (oid,
           {| Renumber.old_to_new_id_map :=
                <[oid := oid]> (Renumber.old_to_new_id_map st);
              Renumber.new_affiliations_list := Renumber.new_affiliations_list st;
              Renumber.current_new_id := Renumber.current_new_id st;
              Renumber.updated_names_data := Renumber.updated_names_data st;
              Renumber.stdout :=
                Renumber.stdout st
                ++ ["Warning: Author " +:+ Renumber.last a
                    +:+ " references affiliation ID '" +:+ oid
                    +:+ "', which is not in the affiliations file. Keeping original ID."] |}))
  ∧ (∀ names, a ∈ names → oid ∈ Renumber.original_ids (Renumber.affils a) →
       ∃ st', Renumber.run names m = Ok st'
         ∧ Renumber.old_to_new_id_map st' !! oid = Some oid
         ∧ (∃ a', a' ∈ names
              ∧ oid ∈ Renumber.original_ids (Renumber.affils a')
              ∧ ("Warning: Author " +:+ Renumber.last a'
                  +:+ " references affiliation ID '" +:+ oid
                  +:+ "', which is not in the affiliations file. Keeping original ID.")
                ∈ Renumber.stdout st')
         ∧ (∀ p, p ∈ Renumber.new_affiliations_list st' →
              ∃ k, Dict.get m k = Some p.2
                   ∧ Renumber.old_to_new_id_map st' !! k = Some p.1)).
Proof.
  split; [intros s; apply items_of_split|]. split.
  - intros st Hnew.
    unfold Renumber.visit, mbind, Renumber.M_bind, Renumber.bind,
      Renumber.seen, Renumber.gets. simpl.
    rewrite bool_decide_eq_false_2 by (rewrite Hnew; by intros [? ?]).
    simpl. rewrite Hmissing. simpl.
    unfold Renumber.remap_getitem. simpl. by rewrite lookup_insert_eq.
  - intros names Ha Hoid.
    destruct (run_spec names m) as (st & Hrun & Hinv & Hw & _).
    assert (oid ∈ references names) as Href
      by (apply references_elem; eauto).
    exists st. split_and!; [done| |by apply Hw|].
    + rewrite (remap_lookup _ _ _ _ Hinv Href). f_equal.
      apply new_id_absent. rewrite used_elem. intros [_ ?]. congruence.
    + intros p Hp. rewrite (inv_list _ _ _ Hinv) in Hp.
      apply list_elem_of_lookup_1 in Hp as [i Hi].
      unfold numbered in Hi. rewrite list_lookup_imap in Hi.
      destruct (_ !! i) as [k|] eqn:Hk; [|done]. injection Hi as <-.
      exists k. simpl.
      pose proof (list_elem_of_lookup_2 _ _ _ Hk) as Hin.
      apply used_elem in Hin as [Hin Hmem]. split.
      * by apply mem_text_of.
      * rewrite (inv_map _ _ _ Hinv), decide_True by done.
        f_equal. by apply used_new_id.
Qed.

Lemma C4_witness :
  Dict.mem "7" [("1", "MIT")] = false
  ∧ ∃ st', Renumber.run [Renumber.Author "Doe" "Jane" "1, 7"] [("1", "MIT")]
           = Ok st'
      ∧ Renumber.old_to_new_id_map st' !! "7" = Some "7"
      ∧ (∃ a', a' ∈ [Renumber.Author "Doe" "Jane" "1, 7"]
           ∧ "7" ∈ Renumber.original_ids (Renumber.affils a')
           ∧ ("Warning: Author " +:+ Renumber.last a'
               +:+ " references affiliation ID '" +:+ "7"
               +:+ "', which is not in the affiliations file. Keeping original ID.")
             ∈ Renumber.stdout st')
      ∧ (∀ p, p ∈ Renumber.new_affiliations_list st' →
           ∃ k, Dict.get [("1", "MIT")] k = Some p.2
                ∧ Renumber.old_to_new_id_map st' !! k = Some p.1).
Proof.
  split; [reflexivity|].
  apply (proj2 (proj2 (C4_missing_id_warned_and_kept
                         [("1", "MIT")]
                         (Renumber.Author "Doe" "Jane" "1, 7") "7" eq_refl))).
  - apply list_elem_of_singleton. reflexivity.
  - vm_compute. apply list_elem_of_further, list_elem_of_here.
Defined.

(** C5, as the specification words it, fails: the orphans are not sorted
    by numeric value before they are numbered. *)
Lemma C5_counterexample :
  ¬ orphans_appended sort_numerically [] [("10", "X"); ("9", "Y")].
Proof.
  intros (affs & names' & Hrun & Haffs).
  vm_compute in Hrun. injection Hrun as <- <-.
  vm_compute in Haffs. discriminate Haffs.
Qed.

(** C5, amended. For every author list and every dictionary, once all
    authors are processed every key of the mapping that no author refers to
    is appended to the output affiliation list with the next sequential
    new id, after all the referenced affiliations; the orphans are taken in
    the order of the mapping. *)
Theorem C5_orphans_appended_in_mapping_order
    (names : list Renumber.author) (m : dict) (Hwf : Dict.wf m) :
  orphans_appended (λ l, l) names m
  ∧ ∃ affs names', Renumber.renumber_affiliations names m = Ok (affs, names')
      ∧ let K := length (used m (references names)) in
        take K affs = numbered m (used m (references names))
        ∧ ∀ j k, orphans names m !! j = Some k →
            ∃ text, Dict.get m k = Some text
              ∧ affs !! (K + j)%nat = Some (Py.str (N.of_nat (S (K + j))), text).
Proof.
  destruct (run_spec names m) as (st & Hrun & Hinv & _ & Hupd).
  pose proof (final_ids_split names m Hwf) as Hfin. unfold final_ids in Hfin.
  pose proof (renumber_affiliations_run _ _ _ Hrun) as Hren.
  rewrite (inv_list _ _ _ Hinv), Hfin in Hren.
  split; [by eexists _, _|].
  eexists _, _. split; [exact Hren|]. simpl. split.
  - unfold numbered. rewrite imap_app.
    rewrite take_app_length'; [done|by rewrite length_imap].
  - intros j k Hj. exists (text_of m k). split.
    + apply mem_text_of, mem_keys.
      apply list_elem_of_lookup_2 in Hj. unfold orphans in Hj.
      apply list_elem_of_filter in Hj. tauto.
    + apply numbered_lookup. rewrite lookup_app_r by lia.
      by replace (_ + j - _)%nat with j by lia.
Qed.

Lemma C5_witness :
  Dict.wf [("1", "MIT"); ("3", "Unused U."); ("2", "Stanford")]
  ∧ orphans_appended (λ l, l)
      [Renumber.Author "Doe" "Jane" "2,1"; Renumber.Author "Smith" "John" "2"]
      [("1", "MIT"); ("3", "Unused U."); ("2", "Stanford")].
Proof.
  assert (Dict.wf [("1", "MIT"); ("3", "Unused U."); ("2", "Stanford")]) as Hwf
    by (unfold Dict.wf; simpl; refine (bool_decide_unpack _ _); vm_compute; exact I).
  split; [exact Hwf|].
  exact (proj1 (C5_orphans_appended_in_mapping_order _ _ Hwf)).
Defined.

(** C10. For every input in which every id an author refers to is a key
    of the mapping, the RemapTable the engine ends with is injective: no
    two distinct original ids have the same new id.  Without that
    condition it need not be: an id missing from the mapping keeps its own
    name, which may be the number given to another id. *)
Theorem C10_remap_table_injective
    (names : list Renumber.author) (m : dict)
    (Hpresent : Forall (λ k, Dict.mem k m = true) (references names)) :
  (∃ st, Renumber.run names m = Ok st
     ∧ injective_table (Renumber.old_to_new_id_map st))
  ∧ (∃ names' m' st', Renumber.run names' m' = Ok st'
       ∧ ¬ injective_table (Renumber.old_to_new_id_map st')).
Proof.
  split.
  - destruct (run_spec names m) as (st & Hrun & Hinv & _ & _).
    exists st. split; [done|].
    assert (∀ k v, Renumber.old_to_new_id_map st !! k = Some v →
              ∃ i, final_ids names m !! i = Some k
                   ∧ v = Py.str (N.of_nat (S i))) as Hnum.
    { intros k v. rewrite (inv_map _ _ _ Hinv). case_decide as Hk; [|done].
      intros [= <-].
      assert (k ∈ final_ids names m) as Hin.
      { apply used_elem. split; [done|].
        apply elem_of_app in Hk as [Hk|Hk]; [|by apply mem_keys].
        rewrite Forall_forall in Hpresent. by apply Hpresent. }
      apply list_elem_of_lookup_1 in Hin as [i Hi].
      exists i. split; [done|]. by apply used_new_id. }
    intros k1 k2 v H1 H2.
    destruct (Hnum _ _ H1) as (i1 & Hi1 & ->).
    destruct (Hnum _ _ H2) as (i2 & Hi2 & Heq).
    apply str_inj in Heq. assert (i1 = i2) as -> by lia. congruence.
  - exists [Renumber.Author "Doe" "Jane" "1,5"], [("5", "MIT")].
    eexists. split; [vm_compute; reflexivity|].
    intros Hinj. specialize (Hinj "1" "5" "1"). simpl in Hinj.
    assert ("1" = "5") as Habs; [|discriminate Habs].
    apply Hinj; by vm_compute.
Qed.

Lemma C10_witness :
  ∃ st, Renumber.run
          [Renumber.Author "Doe" "Jane" "2,1"; Renumber.Author "Smith" "John" "2"]
          [("1", "MIT"); ("3", "Unused U."); ("2", "Stanford")] = Ok st
    ∧ injective_table (Renumber.old_to_new_id_map st).
Proof.
  apply (C10_remap_table_injective
           [Renumber.Author "Doe" "Jane" "2,1"; Renumber.Author "Smith" "John" "2"]
           [("1", "MIT"); ("3", "Unused U."); ("2", "Stanford")]).
  refine (bool_decide_unpack _ _). vm_compute. exact I.
Defined.

(** ** Text Segmenter *)

Section segmenter.
Import Extract.

Lemma content_cons line lines :
  content (line :: lines)
  = if decide (Py.strip line = "") then content lines
    else Py.strip line :: content lines.
Proof.
  unfold content. rewrite fmap_cons, filter_cons.
  destruct (decide (Py.strip line = ""));
    [by rewrite decide_False by naive_solver|by rewrite decide_True].
Qed.

Lemma scan_line_blank st line :
  Py.strip line = "" → scan_line st line = st.
Proof. intros H. unfold scan_line. by rewrite bool_decide_eq_true_2. Qed.

Lemma scan_line_sentinel st line :
  Py.strip line ≠ "" → sentinel (Py.strip line) →
  scan_line st line
  = {| author_lines := author_lines st;
       affiliation_lines := affiliation_lines st;
       found_split := true;
       title_skipped := title_skipped st |}.
Proof.
  intros H1 H2. unfold scan_line.
  rewrite bool_decide_eq_false_2 by done.
  by rewrite bool_decide_eq_true_2.
Qed.

Lemma scan_line_title st line :
  Py.strip line ≠ "" → ¬ sentinel (Py.strip line) →
  found_split st = false → title_skipped st = false →
  scan_line st line
  = {| author_lines := author_lines st;
       affiliation_lines := affiliation_lines st;
       found_split := false;
       title_skipped := true |}.
Proof.
  intros H1 H2 H3 H4. unfold scan_line.
  rewrite !bool_decide_eq_false_2 by done. by rewrite H3, H4.
Qed.

Lemma scan_line_author st line :
  Py.strip line ≠ "" → ¬ sentinel (Py.strip line) →
  found_split st = false → title_skipped st = true →
  scan_line st line
  = {| author_lines := author_lines st ++ [Py.strip line];
       affiliation_lines := affiliation_lines st;
       found_split := false;
       title_skipped := true |}.
Proof.
  intros H1 H2 H3 H4. unfold scan_line.
  rewrite !bool_decide_eq_false_2 by done. by rewrite H3, H4.
Qed.

Lemma scan_line_affiliation st line :
  Py.strip line ≠ "" → ¬ sentinel (Py.strip line) →
  found_split st = true →
  scan_line st line
  = {| author_lines := author_lines st;
       affiliation_lines := affiliation_lines st ++ [Py.strip line];
       found_split := true;
       title_skipped := title_skipped st |}.
Proof.
  intros H1 H2 H3. unfold scan_line.
  rewrite !bool_decide_eq_false_2 by done. by rewrite H3.
Qed.

Lemma scan_lines_after lines st :
  found_split st = true →
  foldl scan_line st lines
  = {| author_lines := author_lines st;
       affiliation_lines :=
         affiliation_lines st
         ++ filter (λ x, ¬ sentinel x) (content lines);
       found_split := true;
       title_skipped := title_skipped st |}.
Proof.
  revert st. induction lines as [|line lines IH]; intros st Hst.
  - destruct st. simpl in *. subst. by rewrite app_nil_r.
  - cbn [foldl]. rewrite content_cons.
    destruct (decide (Py.strip line = "")) as [Hblank|Hblank].
    { rewrite scan_line_blank by done. by apply IH. }
    destruct (decide (sentinel (Py.strip line))) as [Hsent|Hsent].
    + rewrite scan_line_sentinel by done. rewrite IH by done. simpl.
      by rewrite filter_cons_False by naive_solver.
    + rewrite scan_line_affiliation by done. rewrite IH by done. simpl.
      rewrite filter_cons_True by done. by rewrite <- (assoc_L (++)).
Qed.

Lemma scan_lines_before lines st :
  found_split st = false →
  let r := foldl scan_line st lines in
  let L := content lines in
  author_lines r
  = author_lines st
    ++ (if title_skipped st then before_sentinel L
        else tail (before_sentinel L))
  ∧ affiliation_lines r
    = affiliation_lines st
      ++ filter (λ x, ¬ sentinel x) (after_sentinel L).
Proof.
  revert st. induction lines as [|line lines IH]; intros st Hst.
  - simpl. rewrite filter_nil, app_nil_r.
    destruct (title_skipped st); by rewrite app_nil_r.
  - cbn [foldl]. cbv zeta. rewrite content_cons.
    destruct (decide (Py.strip line = "")) as [Hblank|Hblank].
    { rewrite scan_line_blank by done. by apply IH. }
    cbn [before_sentinel after_sentinel].
    destruct (decide (sentinel (Py.strip line))) as [Hsent|Hsent].
    { rewrite scan_line_sentinel by done. rewrite scan_lines_after by done.
      simpl. destruct (title_skipped st); by rewrite ?app_nil_r. }
    destruct (title_skipped st) eqn:Ht.
    + rewrite scan_line_author by done.
      edestruct IH as [H1 H2]; [|rewrite H1, H2]; [done|]. simpl.
      by rewrite <- (assoc_L (++)).
    + rewrite scan_line_title by done.
      edestruct IH as [H1 H2]; [|rewrite H1, H2]; [done|]. done.
Qed.

Lemma no_sentinel L :
  Forall (λ x, ¬ sentinel x) L →
  before_sentinel L = L ∧ after_sentinel L = [].
Proof.
  induction 1 as [|x L Hx _ [IH1 IH2]]; [by split|]. simpl.
  rewrite !decide_False by done. rewrite IH1, IH2. by split.
Qed.

Lemma first_sentinel pre s post :
  Forall (λ x, ¬ sentinel x) pre → sentinel s →
  before_sentinel (pre ++ s :: post) = pre
  ∧ after_sentinel (pre ++ s :: post) = post.
Proof.
  intros Hpre Hs. induction Hpre as [|x pre Hx _ [IH1 IH2]]; simpl.
  - rewrite !decide_True by done. by split.
  - rewrite !decide_False by done. rewrite IH1, IH2. by split.
Qed.

End segmenter.

(** C7. For every text, with its lines trimmed and its blank lines left
    out: a line that is the word Affiliations in any case is a sentinel and
    goes to neither block; when there is none, the first line is left out
    as the title, the lines after it are the author block and the
    affiliation block is empty; otherwise, of the lines before the first
    sentinel the first is left out as the title and the others are the
    author block (so nothing is left out as a title when the sentinel comes
    first), and the lines after it that are not sentinels are the
    affiliation block.  Both blocks are returned joined by line feeds.
    The lines are what the text holds between its line feeds, without the
    white space at their ends, those made of white space only left out;
    and a sentinel is a line that is the word affiliations but for the
    case of its letters. *)
Theorem C7_segmenter_blocks (full_text : string) :
  let L := content (Py.split Py.LF full_text) in
  ∃ authors affs,
    Extract.parse_data full_text
    = (separated Py.LF authors, separated Py.LF affs)
    ∧ (Forall (λ x, ¬ sentinel x) L → authors = tail L ∧ affs = [])
    ∧ (∀ pre s post,
         L = pre ++ s :: post → Forall (λ x, ¬ sentinel x) pre → sentinel s →
         authors = tail pre ∧ affs = filter (λ x, ¬ sentinel x) post)
    ∧ items_of Py.LF full_text L
    ∧ (∀ x, sentinel x ↔ same_but_case "affiliations" x).
Proof.
  intros L.
  destruct (scan_lines_before (Py.split Py.LF full_text)
              Extract.segmenter_initial eq_refl) as [H1 H2].
  simpl in H1, H2. fold L in H1, H2.
  eexists _, _.
  split_and!; [unfold Extract.parse_data; by rewrite !join_separated| | | |].
  - intros HL. destruct (no_sentinel L HL) as [Hb Ha].
    unfold Extract.scan_lines. rewrite H1, H2, Hb, Ha. by split.
  - intros pre s post HL Hpre Hs.
    destruct (first_sentinel pre s post Hpre Hs) as [Hb Ha].
    unfold Extract.scan_lines. rewrite H1, H2, HL, Hb, Ha. by split.
  - apply items_of_split.
  - intros x. apply lower_same_but_case. vm_compute. repeat split; discriminate.
Qed.

(** ** Affiliation Parser *)

Section dictionaries.

Lemma get_set (d : dict) k v k' :
  Dict.get (Dict.set d k v) k'
  = if decide (k = k') then Some v else Dict.get d k'.
Proof.
  induction d as [|[k0 v0] d IH]; simpl.
  - by destruct (decide (k = k')).
  - destruct (decide (k0 = k)) as [->|Hk0]; simpl.
    + by destruct (decide (k = k')).
    + rewrite IH. destruct (decide (k = k')) as [->|]; [|done].
      by rewrite decide_False.
Qed.

Lemma keys_set (d : dict) k v :
  Dict.keys (Dict.set d k v)
  = if decide (k ∈ Dict.keys d) then Dict.keys d else Dict.keys d ++ [k].
Proof.
  unfold Dict.keys. induction d as [|[k0 v0] d IH].
  - case_decide as H; [by apply elem_of_nil in H|done].
  - cbn [Dict.set fmap list_fmap fst].
    destruct (decide (k0 = k)) as [->|Hk0]; cbn [fmap list_fmap fst].
    + by rewrite decide_True by set_solver.
    + rewrite IH. destruct (decide (k ∈ d.*1)).
      * by rewrite decide_True by set_solver.
      * by rewrite decide_False by set_solver.
Qed.

Lemma wf_set (d : dict) k v : Dict.wf d → Dict.wf (Dict.set d k v).
Proof.
  unfold Dict.wf. rewrite keys_set. case_decide as Hk; [done|].
  intros Hd. apply NoDup_app. split_and!; [done| |apply NoDup_singleton].
  intros x Hx ->%list_elem_of_singleton. done.
Qed.

End dictionaries.

Section affiliations.
Import Extract.

Lemma take_while_lstrip p s :
  Py.take_while p s +:+ Py.lstrip_chars p s = s.
Proof.
  induction s as [|c s IH]; simpl; [done|].
  destruct (p c); [|done].
  change (String c ?x +:+ ?y) with (String c (x +:+ y)). by rewrite IH.
Qed.

Lemma take_while_forallb p s : Py.forallb p (Py.take_while p s) = true.
Proof.
  induction s as [|c s IH]; simpl; [done|].
  destruct (p c) eqn:Hc; simpl; [by rewrite Hc|done].
Qed.

Lemma take_while_all p s :
  Py.forallb p s = true → Py.take_while p s = s.
Proof.
  induction s as [|c s IH]; simpl; [done|].
  intros [Hc Hs]%andb_true_iff. by rewrite Hc, IH.
Qed.

(** A line that matches is its digits, then spaces, then its text. *)
Lemma match_affiliation_Some line id txt :
  Py.forallb (not_char Py.LF) line = true →
  match_affiliation line = Some (id, txt) →
  ∃ ws, line = id +:+ ws +:+ txt
    ∧ id ≠ "" ∧ Py.forallb Py.isdecimal id = true
    ∧ Py.forallb Py.isspace ws = true
    ∧ starts_well Py.isdecimal (ws +:+ txt)
    ∧ starts_well Py.isspace txt.
Proof.
  intros Hline. unfold match_affiliation.
  destruct (Py.take_while Py.isdecimal line) as [|c ds] eqn:Hid; [done|].
  intros [= <- <-].
  set (rest := Py.lstrip_chars Py.isdecimal line).
  assert (Py.take_while (λ c, negb (bool_decide (c = Py.LF)))
            (Py.lstrip_chars Py.isspace rest)
          = Py.lstrip_chars Py.isspace rest) as ->.
  { apply take_while_all. by do 2 apply forallb_lstrip_chars. }
  exists (Py.take_while Py.isspace rest). split_and!.
  - by rewrite take_while_lstrip, <- Hid, take_while_lstrip.
  - done.
  - rewrite <- Hid. apply take_while_forallb.
  - apply take_while_forallb.
  - rewrite take_while_lstrip. apply lstrip_chars_starts_well.
  - apply lstrip_chars_starts_well.
Qed.

(** A line does not match exactly when it does not start with a digit. *)
Lemma match_affiliation_None line :
  match_affiliation line = None
  ↔ match line with
    | "" => True
    | String c _ => Py.isdecimal c = false
    end.
Proof.
  unfold match_affiliation. destruct line as [|c s]; simpl; [done|].
  by destruct (Py.isdecimal c).
Qed.

Lemma last_text_snoc k entries k' v :
  last_text k (entries ++ [(k', v)])
  = if decide (k' = k) then Some v else last_text k entries.
Proof.
  unfold last_text. rewrite filter_app, fmap_app. simpl.
  rewrite filter_cons, filter_nil. simpl.
  destruct (decide (k' = k)); simpl; [by rewrite last_snoc|].
  by rewrite app_nil_r.
Qed.

Lemma add_affiliations_spec lines d entries :
  Dict.wf d → (∀ k, Dict.get d k = last_text k entries) →
  let d' := foldl add_affiliation d lines in
  Dict.wf d'
  ∧ ∀ k, Dict.get d' k
         = last_text k (entries
                        ++ omap match_affiliation (Py.strip <$> lines)).
Proof.
  revert d entries.
  induction lines as [|line lines IH]; intros d entries Hwf Hget.
  - simpl. by rewrite app_nil_r.
  - cbn [foldl]. cbv zeta. rewrite fmap_cons. cbn [omap list_omap].
    unfold add_affiliation at 2 4.
    destruct (match_affiliation (Py.strip line)) as [[aff_id aff_text]|]
      eqn:Hm.
    + change ((aff_id, aff_text) :: ?l) with ([(aff_id, aff_text)] ++ l).
      rewrite (assoc_L (++)). apply IH; [by apply wf_set|].
      intros k. rewrite get_set, last_text_snoc. by rewrite Hget.
    + by apply IH.
Qed.

End affiliations.

(** C8. For every affiliation block, the parser returns a dictionary in
    which an id is bound to the text of the last line that carries it, and
    to nothing when no line carries it; a line carries an id when it starts
    with a decimal digit, and is then the id (its leading run of digits),
    spaces, and the text; a line that does not start with a digit adds no
    entry and raises nothing.  The lines 1 Foo and 1 Bar give the one entry
    1: Bar. *)
Theorem C8_affiliation_parser_last_write_wins (text : string) :
  let lines := Py.strip <$> Py.split Py.LF (Py.strip text) in
  let entries := omap Extract.match_affiliation lines in
  Dict.wf (Extract.parse_affiliations_to_dict text)
  ∧ (∀ k, Dict.get (Extract.parse_affiliations_to_dict text) k
          = last_text k entries)
  ∧ Forall (λ line,
       match Extract.match_affiliation line with
       | None =>
           match line with
           | "" => True
           | String c _ => Py.isdecimal c = false
           end
       | Some (id, txt) =>
           ∃ ws, line = id +:+ ws +:+ txt
             ∧ id ≠ "" ∧ Py.forallb Py.isdecimal id = true
             ∧ Py.forallb Py.isspace ws = true
             ∧ starts_well Py.isdecimal (ws +:+ txt)
             ∧ starts_well Py.isspace txt
       end) lines
  ∧ Extract.parse_affiliations_to_dict
      (Py.join (String Py.LF "") ["1 Foo"; "1 Bar"]) = [("1", "Bar")].
Proof.
  intros lines entries. split_and!.
  - apply (add_affiliations_spec _ [] []); [apply NoDup_nil_2|done].
  - apply (add_affiliations_spec _ [] []); [apply NoDup_nil_2|done].
  - apply Forall_forall. intros line Hline.
    destruct (Extract.match_affiliation line) as [[id txt]|] eqn:Hm.
    + apply match_affiliation_Some; [|done].
      apply list_elem_of_fmap in Hline as (raw & -> & Hraw).
      apply forallb_strip.
      pose proof (split_pieces Py.LF (Py.strip text)) as Hall.
      rewrite Forall_forall in Hall. by apply Hall.
    + by apply match_affiliation_None.
  - by vm_compute.
Qed.

(** ** Author Parser *)

Section authors.
Import Extract.

Lemma author_of_match_None groups :
  cleaned_name groups.1 = "" → author_of_match groups = None.
Proof.
  intros H. unfold author_of_match, cleaned_name in *.
  by rewrite bool_decide_eq_true_2.
Qed.

Lemma author_of_match_Some groups :
  cleaned_name groups.1 ≠ "" →
  ∃ r, author_of_match groups = Some r
       ∧ record_of (cleaned_name groups.1) groups.2 r.
Proof.
  intros H. unfold author_of_match, cleaned_name in *.
  rewrite bool_decide_eq_false_2 by done.
  set (name := Py.lstrip_chars _ _) in *.
  case_bool_decide as Hlen; eexists; (split; [reflexivity|]);
    unfold record_of; fold name; simpl; split_and!; try done; try lia.
  intros _. split; [|done].
  destruct (last (Py.split_ws name)) as [t|] eqn:Hlast; [done|].
  apply last_None in Hlast. rewrite Hlast in Hlen. simpl in Hlen. lia.
Qed.

Lemma records_of_matches segments :
  Forall2 (λ seg r, record_of (cleaned_name seg.1) seg.2 r)
    (filter (λ seg, cleaned_name seg.1 ≠ "") segments)
    (omap author_of_match segments).
Proof.
  induction segments as [|seg segments IH]; [constructor|].
  cbn [omap list_omap]. rewrite filter_cons.
  destruct (decide (cleaned_name seg.1 ≠ "")) as [Hname|Hname].
  - destruct (author_of_match_Some seg Hname) as (r & -> & Hr).
    by constructor.
  - apply dec_stable in Hname. by rewrite author_of_match_None.
Qed.

End authors.

Section matches.
Import Extract.

Lemma string_app_assoc (s t u : string) : (s +:+ t) +:+ u = s +:+ t +:+ u.
Proof.
  induction s as [|c s IH]; [done|].
  change (String c ((s +:+ t) +:+ u) = String c (s +:+ t +:+ u)).
  by rewrite IH.
Qed.

Lemma string_app_nil_r (s : string) : s +:+ "" = s.
Proof.
  induction s as [|c s IH]; [done|].
  change (String c s +:+ "") with (String c (s +:+ "")). by rewrite IH.
Qed.

Lemma rev_app_spec (s t : string) : String.rev_app s t = String.rev s +:+ t.
Proof.
  unfold String.rev. revert t. induction s as [|c s IH]; intros t; [done|].
  simpl. rewrite (IH (String c "")), (IH (String c t)).
  by rewrite string_app_assoc.
Qed.

Lemma rev_cons c (s : string) :
  String.rev (String c s) = String.rev s +:+ String c "".
Proof. unfold String.rev at 1. simpl. apply rev_app_spec. Qed.

Lemma forallb_app p (s t : string) :
  Py.forallb p (s +:+ t) = Py.forallb p s && Py.forallb p t.
Proof.
  induction s as [|c s IH]; [done|].
  change (String c s +:+ t) with (String c (s +:+ t)). simpl.
  by rewrite IH, andb_assoc.
Qed.

Lemma name_run_snoc n c :
  Py.isdecimal c = false → n = "" ∨ name_run n → name_run (n +:+ String c "").
Proof.
  intros Hc Hn. split.
  - destruct n; [done|]. done.
  - rewrite forallb_app. simpl. rewrite Hc. simpl.
    destruct Hn as [->|[_ ->]]; done.
Qed.

Lemma id_run_snoc ids c :
  Py.isdecimal c || Py.is_char "," c = true → id_run ids →
  id_run (ids +:+ String c "").
Proof.
  intros Hc (c0 & rest & -> & Hc0 & Hrest).
  exists c0, (rest +:+ String c ""). split_and!; [done|done|].
  rewrite forallb_app. simpl. by rewrite Hrest, Hc.
Qed.

(** Every match is a name followed by a run of ids. *)
Lemma finditer_from_shape sc s :
  scanner_ok sc →
  Forall (λ seg, name_run seg.1 ∧ id_run seg.2) (finditer_from sc s).
Proof.
  revert sc. induction s as [|c s IH]; intros sc Hsc.
  - destruct sc; simpl; [constructor|constructor|].
    constructor; [done|constructor].
  - destruct sc as [|n|n ids]; simpl.
    + destruct (Py.isdecimal c) eqn:Hc; apply IH; [done|].
      simpl. by apply (name_run_snoc "" c); [|left].
    + destruct (Py.isdecimal c) eqn:Hc; apply IH; simpl.
      * split; [done|]. exists c, "". by rewrite Hc.
      * rewrite rev_cons. apply name_run_snoc; [done|by right].
    + destruct Hsc as [Hn Hids].
      destruct (Py.isdecimal c || Py.is_char "," c) eqn:Hc.
      * apply IH. simpl. split; [done|].
        rewrite rev_cons. by apply id_run_snoc.
      * constructor; [done|]. apply IH. simpl.
        apply orb_false_iff in Hc as [Hc _].
        by apply (name_run_snoc "" c); [|left].
Qed.

(** The matches, one after the other, are the stream without the digits it
    starts with and without the name it ends with, if any. *)
Lemma finditer_from_glue sc s :
  scanner_ok sc →
  ∃ skipped rest,
    pending sc +:+ s = skipped +:+ glue (finditer_from sc s) +:+ rest
    ∧ Py.forallb Py.isdecimal skipped = true
    ∧ (sc ≠ Start → skipped = "")
    ∧ Py.forallb (λ c, negb (Py.isdecimal c)) rest = true.
Proof.
  revert sc. induction s as [|c s IH]; intros sc Hsc.
  - destruct sc as [|n|n ids]; simpl.
    + by exists "", "".
    + exists "", (String.rev n). split_and!; [|done|done|apply Hsc].
      by rewrite string_app_nil_r.
    + exists "", "". split_and!; [|done|done|done].
      by rewrite !string_app_nil_r.
  - assert (∀ sc', scanner_ok sc' → sc' ≠ Start →
              ∃ rest, pending sc' +:+ s = glue (finditer_from sc' s) +:+ rest
                ∧ Py.forallb (λ c, negb (Py.isdecimal c)) rest = true) as IH'.
    { intros sc' Hsc' Hne.
      destruct (IH sc' Hsc') as (sk & rest & Heq & _ & Hsk & Hrest).
      rewrite (Hsk Hne) in Heq. by exists rest. }
    assert (name_run (String.rev (String c "")) ∨ Py.isdecimal c = true)
      as Hfresh.
    { destruct (Py.isdecimal c) eqn:Hc; [by right|left].
      by apply (name_run_snoc "" c); [|left]. }
    destruct sc as [|n|n ids]; cbn [finditer_from pending].
    + destruct (Py.isdecimal c) eqn:Hc.
      * destruct (IH Start I) as (sk & rest & Heq & Hsk & _ & Hrest).
        exists (String c sk), rest.
        split_and!; [|by simpl; rewrite Hc|done|done].
        change (String c s = String c (sk +:+ glue (finditer_from Start s)
                                        +:+ rest)).
        f_equal. exact Heq.
      * destruct Hfresh as [Hfresh|?]; [|done].
        destruct (IH' (Name (String c "")) Hfresh) as (rest & Heq & Hrest);
          [done|].
        exists "", rest. split_and!; [|done|done|done]. exact Heq.
    + destruct (Py.isdecimal c) eqn:Hc.
      * destruct (IH' (Digits n (String c ""))) as (rest & Heq & Hrest);
          [|done|].
        { split; [done|]. exists c, "". by rewrite Hc. }
        exists "", rest. split_and!; [|done|done|done].
        cbn [pending] in Heq. rewrite string_app_assoc in Heq. exact Heq.
      * destruct (IH' (Name (String c n))) as (rest & Heq & Hrest); [|done|].
        { simpl. rewrite rev_cons. apply name_run_snoc; [done|by right]. }
        exists "", rest. split_and!; [|done|done|done].
        cbn [pending] in Heq. rewrite rev_cons, string_app_assoc in Heq.
        exact Heq.
    + destruct Hsc as [Hn Hids].
      destruct (Py.isdecimal c || Py.is_char "," c) eqn:Hc.
      * destruct (IH' (Digits n (String c ids))) as (rest & Heq & Hrest);
          [|done|].
        { split; [done|]. rewrite rev_cons. by apply id_run_snoc. }
        exists "", rest. split_and!; [|done|done|done].
        cbn [pending] in Heq. rewrite rev_cons, !string_app_assoc in Heq.
        rewrite string_app_assoc. exact Heq.
      * apply orb_false_iff in Hc as [Hc _].
        destruct Hfresh as [Hfresh|?]; [|congruence].
        destruct (IH' (Name (String c "")) Hfresh) as (rest & Heq & Hrest);
          [done|].
        exists "", rest. split_and!; [|done|done|done].
        cbn [glue]. rewrite !string_app_assoc.
        change (String.rev n +:+ String.rev ids +:+ String c s
                = String.rev n +:+ String.rev ids
                  +:+ glue (finditer_from (Name (String c "")) s) +:+ rest).
        do 2 f_equal. exact Heq.
Qed.

End matches.

(** C6, as the specification words it, fails twice: a match whose name is
    empty once it is trimmed gives no record; and a name with a single
    token is the last name as it stands, which is not that token when a tab
    is left in front of it. *)
Lemma C6_counterexample :
  ¬ one_record_per_match "Doe1 2"
  ∧ ¬ last_token_is_last_name (String "," (String "009" "X1")).
Proof.
  split.
  - unfold one_record_per_match. vm_compute. discriminate.
  - unfold last_token_is_last_name. intros H.
    assert (Extract.finditer (flatten (String "," (String "009" "X1")))
            = [(String "," (String "009" "X"), "1")]) as Hseg
      by (by vm_compute).
    rewrite Hseg in H.
    rewrite filter_cons_True in H by (vm_compute; discriminate).
    rewrite filter_nil in H.
    assert (Extract.parse_authors_to_list (String "," (String "009" "X1"))
            = [ {| Extract.first_middle := "";
                   Extract.last_name := String "009" "X";
                   Extract.affiliations := "1" |} ]) as Hrec
      by (by vm_compute).
    rewrite Hrec in H. inversion_clear H as [|? ? ? ? Hlast _].
    vm_compute in Hlast. discriminate Hlast.
Qed.

(** C6, amended. For every author block, the lines are joined by spaces
    into one stream; the matches of the pattern are, in order of
    appearance, names (runs of characters that are not digits) each
    followed by a run of ids (a digit, then digits and commas), and
    together they are the stream without its leading digits and its
    trailing name; the parser emits, in that order, one record for each
    match whose name is not empty once trimmed of spaces and of leading
    commas and blanks.  The ids of the record are the run of the match
    trimmed of commas.  When the name has more than one token, the last
    token is the last name and the tokens before it, joined by single
    spaces, are the first and middle names; otherwise the name itself is
    the last name and the first and middle names are empty.  The text of
    the specification gives its two records. *)
Theorem C6_author_parser_records (text : string) :
  Forall (λ seg, name_run seg.1 ∧ id_run seg.2)
    (Extract.finditer (flatten text))
  ∧ (∃ skipped rest,
       flatten text
       = skipped +:+ glue (Extract.finditer (flatten text)) +:+ rest
       ∧ Py.forallb Py.isdecimal skipped = true
       ∧ Py.forallb (λ c, negb (Py.isdecimal c)) rest = true)
  ∧ Forall2 (λ seg r, record_of (Extract.cleaned_name seg.1) seg.2 r)
      (filter (λ seg, Extract.cleaned_name seg.1 ≠ "")
         (Extract.finditer (flatten text)))
      (Extract.parse_authors_to_list text)
  ∧ Extract.parse_authors_to_list
      (Extract.parse_data
         (Py.join (String Py.LF "")
            ["My Title"; "Jane A. Doe1,2"; "John Smith2"; "Affiliations";
             "1 MIT"; "2 Stanford"])).1
    = [ {| Extract.first_middle := "Jane A."; Extract.last_name := "Doe";
           Extract.affiliations := "1,2" |};
        {| Extract.first_middle := "John"; Extract.last_name := "Smith";
           Extract.affiliations := "2" |} ].
Proof.
  split_and!.
  - by apply finditer_from_shape.
  - destruct (finditer_from_glue Extract.Start (flatten text) I)
      as (skipped & rest & Heq & Hsk & _ & Hrest).
    by exists skipped, rest.
  - apply records_of_matches.
  - by vm_compute.
Qed.

(** ** Document Renderer *)

Section sorting.
Import Render.

Lemma int_go_decimal acc s :
  Py.forallb Py.isdecimal s = true → ∃ n, Py.int_go acc s = Some n.
Proof.
  revert acc. induction s as [|c s IH]; intros acc; simpl; [by eauto|].
  intros [Hc Hs]%andb_true_iff. rewrite Hc. by apply IH.
Qed.

Lemma isdigit_decimal k : decimal_id k → Py.isdigit k = true.
Proof.
  intros [Hne Hk]. unfold Py.isdigit. destruct k as [|c k]; [done|].
  revert Hk. apply forallb_impl. intros c' Hc'.
  unfold Py.isdigit_char. by rewrite Hc'.
Qed.

Lemma sort_key_decimal k :
  decimal_id k → sort_key k = Ok (IntKey (numeric_value k)).
Proof.
  intros Hk. unfold sort_key, numeric_value. rewrite (isdigit_decimal _ Hk).
  destruct Hk as [Hne Hk].
  destruct (int_go_decimal 0 k Hk) as [n Hn].
  unfold Py.int. destruct k as [|c k]; [done|]. by rewrite Hn.
Qed.

Lemma sort_key_text k : Py.isdigit k = false → sort_key k = Ok (StrKey k).
Proof. intros Hk. unfold sort_key. by rewrite Hk. Qed.

Lemma with_keys_decimal ks :
  Forall decimal_id ks →
  ∃ keyed, with_keys ks = Ok keyed ∧ keyed.*2 = ks
    ∧ Forall numeric_pair keyed.
Proof.
  induction 1 as [|k ks Hk _ (keyed & Hw & Hids & Hnum)]; simpl.
  - by exists [].
  - rewrite (sort_key_decimal _ Hk). simpl. rewrite Hw. simpl.
    exists ((IntKey (numeric_value k), k) :: keyed).
    split_and!; [done|by rewrite fmap_cons, Hids|by constructor].
Qed.

(** An element of the other kind cannot be compared with the first
    element of the list. *)
Lemma insert_other_kind b x l :
  same_kind b l → l ≠ [] → is_int x.1 ≠ b → insert x l = Raise TypeError.
Proof.
  intros Hl Hne Hx. destruct l as [|y l]; [done|].
  inversion_clear Hl as [|? ? Hy _]. simpl.
  destruct x as [[n|s] x], y as [[n'|s'] y]; simpl in *; congruence.
Qed.

Lemma insert_same_kind b x l :
  same_kind b l → is_int x.1 = b →
  ∃ l', insert x l = Ok l' ∧ same_kind b l' ∧ l' ≠ [] ∧ l' ≡ₚ x :: l.
Proof.
  intros Hl Hx. induction Hl as [|y l Hy Hl (l' & Hins & Hk & _ & Hperm)].
  - exists [x]. split_and!; [done|by constructor|done|done].
  - simpl.
    assert (∃ c, key_lt x.1 y.1 = Ok c) as [c ->].
    { destruct x as [[n|s] x], y as [[n'|s'] y]; simpl in *;
        eauto; congruence. }
    simpl. destruct c.
    + eexists. split_and!; [done|by repeat constructor|done|done].
    + rewrite Hins. simpl. eexists. split_and!; [done|by constructor|done|].
      rewrite Hperm. apply Permutation_swap.
Qed.

Lemma sort_into_mixed b done todo :
  same_kind b done → done ≠ [] →
  Exists (λ p, is_int p.1 ≠ b) todo →
  sort_into done todo = Raise TypeError.
Proof.
  intros Hd Hne Hex. revert done Hd Hne.
  induction todo as [|x todo IH]; intros done Hd Hne; [by inversion Hex|].
  simpl. destruct (decide (is_int x.1 = b)) as [Hx|Hx].
  - destruct (insert_same_kind b x done Hd Hx) as (l' & -> & Hk & Hne' & _).
    simpl. apply IH; [|done|done].
    inversion_clear Hex as [? ? Hx'|]; [done|done].
  - by rewrite (insert_other_kind b x done).
Qed.

Lemma sort_into_same_kind b done todo :
  same_kind b done → same_kind b todo →
  ∃ l, sort_into done todo = Ok l ∧ l ≡ₚ done ++ todo.
Proof.
  intros Hd Ht. revert done Hd.
  induction Ht as [|x todo Hx _ IH]; intros done Hd; simpl.
  - exists done. by rewrite app_nil_r.
  - destruct (insert_same_kind b x done Hd Hx) as (l' & -> & Hk & _ & Hperm).
    simpl. destruct (IH l' Hk) as (l & -> & Hl). exists l. split; [done|].
    rewrite Hl, Hperm. simpl. apply Permutation_middle.
Qed.

(** With integer keys, insertion keeps a list in ascending order. *)
Lemma insert_sorted x l l' :
  numeric_pair x → Forall numeric_pair l →
  StronglySorted (λ p q, numeric_value p.2 ≤ numeric_value q.2) l →
  insert x l = Ok l' →
  StronglySorted (λ p q, numeric_value p.2 ≤ numeric_value q.2) l'.
Proof.
  intros Hx Hl Hs. revert l' Hl.
  induction Hs as [|y l Hs IH Hy]; intros l' Hl; simpl.
  - intros [= <-]. by repeat constructor.
  - inversion_clear Hl as [|? ? Hny Hnl].
    unfold numeric_pair in Hx, Hny. rewrite Hx, Hny. simpl.
    destruct (N.ltb_spec (numeric_value x.2) (numeric_value y.2)) as [Hlt|Hge].
    + intros [= <-]. constructor; [by constructor|].
      constructor; [lia|].
      eapply Forall_impl; [exact Hy|]. simpl. intros; lia.
    + destruct (insert x l) as [r|e] eqn:Hins; simpl; [|done].
      intros [= <-]. constructor; [by apply IH|].
      assert (r ≡ₚ x :: l) as Hperm.
      { destruct (insert_same_kind true x l) as (r' & Hr' & _ & _ & Hp).
        - eapply Forall_impl; [exact Hnl|]. intros p Hp.
          unfold numeric_pair in Hp. by rewrite Hp.
        - by rewrite Hx.
        - congruence. }
      rewrite Hperm. by constructor.
Qed.

Lemma sort_into_sorted done todo l :
  Forall numeric_pair done → Forall numeric_pair todo →
  StronglySorted (λ p q, numeric_value p.2 ≤ numeric_value q.2) done →
  sort_into done todo = Ok l →
  StronglySorted (λ p q, numeric_value p.2 ≤ numeric_value q.2) l.
Proof.
  intros Hd Ht. revert done Hd.
  induction Ht as [|x todo Hx _ IH]; intros done Hd Hs; simpl.
  - by intros [= <-].
  - destruct (insert x done) as [l'|e] eqn:Hins; simpl; [|done].
    apply IH; [|by eapply insert_sorted].
    destruct (insert_same_kind true x done) as (r' & Hr' & _ & _ & Hp).
    + eapply Forall_impl; [exact Hd|]. intros p Hp.
      unfold numeric_pair in Hp. by rewrite Hp.
    + unfold numeric_pair in Hx. by rewrite Hx.
    + assert (l' = r') as -> by congruence. rewrite Hp. by constructor.
Qed.

(** What the sort does when every id is numeric: it returns the ids in
    ascending order of their values. *)
Lemma sorted_ids_numeric (affiliations : dict) :
  Forall decimal_id (Dict.keys affiliations) →
  ∃ ids, sorted_ids affiliations = Ok ids
    ∧ ids ≡ₚ Dict.keys affiliations
    ∧ StronglySorted (λ a b, numeric_value a ≤ numeric_value b) ids.
Proof.
  intros Hks. unfold sorted_ids.
  destruct (with_keys_decimal _ Hks) as (keyed & -> & Hids & Hnum). simpl.
  assert (same_kind true keyed) as Hkind.
  { eapply Forall_impl; [exact Hnum|]. intros p Hp.
    unfold numeric_pair in Hp. by rewrite Hp. }
  destruct (sort_into_same_kind true [] keyed) as (l & Hl & Hperm);
    [constructor|done|].
  rewrite Hl. simpl. exists (l.*2). split_and!; [done| |].
  - by rewrite Hperm, <- Hids.
  - assert (StronglySorted
              (λ p q, numeric_value p.2 ≤ numeric_value q.2) l) as Hs.
    { eapply (sort_into_sorted [] keyed); [constructor|done|constructor|done]. }
    clear -Hs. induction Hs as [|p l _ IH Hp]; simpl; [constructor|].
    constructor; [done|]. by apply Forall_fmap.
Qed.

(** What the sort does when an id is numeric and another is not numeric:
    it raises. *)
Lemma sorted_ids_mixed (affiliations : dict) k1 k2 :
  Forall (λ k, decimal_id k ∨ Py.isdigit k = false) (Dict.keys affiliations) →
  k1 ∈ Dict.keys affiliations → decimal_id k1 →
  k2 ∈ Dict.keys affiliations → Py.isdigit k2 = false →
  sorted_ids affiliations = Raise TypeError.
Proof.
  intros Hks H1 Hd1 H2 Hd2. unfold sorted_ids.
  assert (∃ keyed, with_keys (Dict.keys affiliations) = Ok keyed
            ∧ Forall2 (λ k p, is_int p.1 = Py.isdigit k)
                (Dict.keys affiliations) keyed) as (keyed & -> & Hkeyed).
  { clear H1 H2. induction Hks as [|k ks Hk _ (keyed & Hw & Hf)]; simpl.
    - exists []. by split; [|constructor].
    - destruct Hk as [Hk|Hk].
      + rewrite (sort_key_decimal _ Hk). simpl. rewrite Hw. simpl.
        eexists. split; [done|]. constructor; [|done].
        simpl. by rewrite isdigit_decimal.
      + rewrite (sort_key_text _ Hk). simpl. rewrite Hw. simpl.
        eexists. split; [done|]. constructor; [|done]. by simpl. }
  simpl.
  assert (∃ p1, p1 ∈ keyed ∧ is_int p1.1 = true) as (p1 & Hp1 & Hi1).
  { apply list_elem_of_lookup_1 in H1 as [i Hi].
    destruct (Forall2_lookup_l _ _ _ _ _ Hkeyed Hi) as (p & Hp & Hpk).
    exists p. split; [by eapply list_elem_of_lookup_2|].
    by rewrite Hpk, isdigit_decimal. }
  assert (∃ p2, p2 ∈ keyed ∧ is_int p2.1 = false) as (p2 & Hp2 & Hi2).
  { apply list_elem_of_lookup_1 in H2 as [i Hi].
    destruct (Forall2_lookup_l _ _ _ _ _ Hkeyed Hi) as (p & Hp & Hpk).
    exists p. split; [by eapply list_elem_of_lookup_2|]. by rewrite Hpk. }
  destruct keyed as [|x keyed]; [by apply elem_of_nil in Hp1|].
  assert (sort_into [] (x :: keyed) = Raise TypeError) as ->; [|done].
  simpl. apply (sort_into_mixed (is_int x.1)); [by repeat constructor|done|].
  apply Exists_exists.
  destruct (is_int x.1) eqn:Hx.
  - exists p2. split; [|congruence].
    apply elem_of_cons in Hp2 as [->|?]; [congruence|done].
  - exists p1. split; [|congruence].
    apply elem_of_cons in Hp1 as [->|?]; [congruence|done].
Qed.

End sorting.

(** C9. The sort of the ids does not succeed for every mapping: with one
    id made of digits and one that is not, the keys are an integer and a
    string, their comparison raises [TypeError], and so does the
    rendering of the document. *)
Theorem C9_sorting_mixed_ids_raises :
  Render.sorted_ids [("1", "MIT"); ("x", "Stanford")] = Raise TypeError
  ∧ Render.generate_document_xml
      [Renumber.Author "Doe" "Jane" "1"] [("1", "MIT"); ("x", "Stanford")]
    = Raise TypeError.
Proof. split; by vm_compute. Qed.

(** ** Scenarios of the specification *)

(** Renumbering what the parsers return for the example text changes
    nothing, since the order of appearance is the numeric order. *)
Example scenario_unchanged :
  Renumber.renumber_affiliations
    [Renumber.Author "Doe" "Jane A." "1,2"; Renumber.Author "Smith" "John" "2"]
    [("1", "MIT"); ("2", "Stanford")]
  = Ok ([("1", "MIT"); ("2", "Stanford")],
        [Renumber.Author "Doe" "Jane A." "1,2";
         Renumber.Author "Smith" "John" "2"]).
Proof. by vm_compute. Qed.

(** An affiliation that no author refers to comes last, with the next
    number. *)
Example scenario_orphan_last :
  Renumber.renumber_affiliations
    [Renumber.Author "Doe" "Jane A." "2,1"; Renumber.Author "Smith" "John" "2"]
    [("1", "MIT"); ("3", "Unused U."); ("2", "Stanford")]
  = Ok ([("1", "Stanford"); ("2", "MIT"); ("3", "Unused U.")],
        [Renumber.Author "Doe" "Jane A." "1,2";
         Renumber.Author "Smith" "John" "1"]).
Proof. by vm_compute. Qed.

(** The two blocks of the example text, and of a text that starts with
    the sentinel: no line is then left out as a title. *)
Example scenario_blocks :
  Extract.parse_data
    (Py.join (String Py.LF "")
       ["My Title"; "Jane A. Doe1,2"; ""; "John Smith2"; " AFFILIATIONS ";
        "1 MIT"; "2 Stanford"])
  = (Py.join (String Py.LF "") ["Jane A. Doe1,2"; "John Smith2"],
     Py.join (String Py.LF "") ["1 MIT"; "2 Stanford"])
  ∧ Extract.parse_data
      (Py.join (String Py.LF "") ["Affiliations"; "1 MIT"; "2 Stanford"])
    = ("", Py.join (String Py.LF "") ["1 MIT"; "2 Stanford"])
  ∧ Extract.parse_data
      (Py.join (String Py.LF "") ["My Title"; "Jane A. Doe1,2"])
    = ("Jane A. Doe1,2", "").
Proof. split_and!; by vm_compute. Qed.

(** The affiliation block of the example text. *)
Example scenario_affiliations :
  Extract.parse_affiliations_to_dict
    (Extract.parse_data
       (Py.join (String Py.LF "")
          ["My Title"; "Jane A. Doe1,2"; "John Smith2"; "Affiliations";
           "1 MIT"; "2 Stanford"])).2
  = [("1", "MIT"); ("2", "Stanford")].
Proof. by vm_compute. Qed.

(** * Further properties of the scripts *)

(** ** Renumbering: what is kept *)

Section kept.
Import Renumber.

Lemma get_elem_of (d : dict) k v :
  Dict.wf d → (k, v) ∈ d → Dict.get d k = Some v.
Proof.
  unfold Dict.wf, Dict.keys. induction d as [|[k0 v0] d IH]; simpl.
  - by intros _ ?%elem_of_nil.
  - intros [Hk0 Hd]%NoDup_cons [[= -> ->]|Hin]%elem_of_cons.
    + by rewrite decide_True.
    + rewrite decide_False; [by apply IH|].
      intros ->. apply Hk0. apply list_elem_of_fmap. by exists (k, v).
Qed.

Lemma text_of_keys (m : dict) :
  Dict.wf m → text_of m <$> Dict.keys m = m.*2.
Proof.
  unfold Dict.wf, Dict.keys. induction m as [|[k v] m IH]; [done|].
  intros [Hk Hm]%NoDup_cons. rewrite !fmap_cons. f_equal.
  - unfold text_of. simpl. by rewrite decide_True.
  - rewrite <- IH by done. apply list_fmap_ext. intros i k' Hk'.
    unfold text_of. simpl. rewrite decide_False; [done|].
    intros ->. apply Hk. by eapply list_elem_of_lookup_2.
Qed.

Lemma tabulate_keys (m : dict) :
  Dict.wf m → (λ k, (k, text_of m k)) <$> Dict.keys m = m.
Proof.
  unfold Dict.wf, Dict.keys. induction m as [|[k v] m IH]; [done|].
  intros [Hk Hm]%NoDup_cons. rewrite !fmap_cons. f_equal.
  - unfold text_of. simpl. by rewrite decide_True.
  - rewrite <- IH at 2 by done. apply list_fmap_ext. intros i k' Hk'.
    unfold text_of. simpl. rewrite decide_False; [done|].
    intros ->. apply Hk. by eapply list_elem_of_lookup_2.
Qed.

Lemma numbered_wf m ks : Dict.wf (numbered m ks).
Proof. unfold Dict.wf, Dict.keys. rewrite numbered_keys. apply NoDup_numerals. Qed.

Lemma numbered_texts m ks : (numbered m ks).*2 = text_of m <$> ks.
Proof.
  unfold numbered. rewrite fmap_imap.
  rewrite (imap_ext _ (λ _ k, text_of m k)) by done. apply imap_const.
Qed.

Lemma final_ids_Permutation names m :
  Dict.wf m → final_ids names m ≡ₚ Dict.keys m.
Proof.
  intros Hwf. apply NoDup_Permutation; [apply NoDup_used|done|].
  intros k. unfold final_ids. rewrite used_elem, elem_of_app, mem_keys.
  naive_solver.
Qed.

End kept.

(** X1. Renumbering keeps what every reference points to: for every
    author list and mapping, each reference of an author to an id that is
    a key of the mapping is rewritten to an id under which the output
    affiliation list, which has one entry per id, holds the text the
    mapping had for the original id.  The references, of the input as of
    the output, are what the reference text holds between its commas,
    without the white space around and without the blank pieces. *)
Theorem X1_references_keep_their_text
    (names : list Renumber.author) (m : dict) :
  (∀ s, items_of "," s (Renumber.original_ids s))
  ∧ ∃ affs names', Renumber.renumber_affiliations names m = Ok (affs, names')
    ∧ Dict.wf affs
    ∧ Forall2 (λ a a',
         Forall2 (λ k k', ∀ text,
                    Dict.get m k = Some text → Dict.get affs k' = Some text)
           (Renumber.original_ids (Renumber.affils a))
           (Renumber.original_ids (Renumber.affils a')))
        names names'.
Proof.
  split; [intros s; apply items_of_split|].
  destruct (run_spec names m) as (st & Hrun & Hinv & _ & Hupd).
  eexists _, _. split; [by apply renumber_affiliations_run|].
  rewrite (inv_list _ _ _ Hinv), Hupd. split; [apply numbered_wf|].
  apply Forall2_fmap_r, Forall_Forall2_diag, Forall_forall. intros a Ha.
  unfold compose. cbv beta. rewrite original_ids_rewrite.
  apply Forall2_fmap_r, Forall_Forall2_diag, Forall_forall.
  intros k Hk text Hget.
  assert (k ∈ used m (references names)) as Hu.
  { apply used_elem. split; [apply references_elem; eauto|].
    unfold Dict.mem. by rewrite Hget. }
  apply list_elem_of_lookup_1 in Hu as [i Hi].
  rewrite (used_new_id _ _ _ _ Hi).
  apply get_elem_of; [apply numbered_wf|].
  apply (list_elem_of_lookup_2 _ i).
  rewrite used_app. unfold numbered. rewrite imap_app, lookup_app_l.
  - rewrite list_lookup_imap, Hi. simpl. unfold text_of. by rewrite Hget.
  - rewrite length_imap. by eapply lookup_lt_Some.
Qed.

(** X2. Renumbering loses no affiliation and repeats none: for every
    author list and every dictionary, the texts of the output affiliation
    list are the texts of the mapping, each as often as in the mapping,
    and the new ids are pairwise distinct. *)
Theorem X2_affiliations_neither_lost_nor_repeated
    (names : list Renumber.author) (m : dict) (Hwf : Dict.wf m) :
  ∃ affs names', Renumber.renumber_affiliations names m = Ok (affs, names')
    ∧ affs.*2 ≡ₚ m.*2
    ∧ length affs = length m
    ∧ NoDup affs.*1.
Proof.
  destruct (run_spec names m) as (st & Hrun & Hinv & _ & Hupd).
  eexists _, _. split; [by apply renumber_affiliations_run|].
  rewrite (inv_list _ _ _ Hinv).
  pose proof (final_ids_Permutation names m Hwf) as Hperm.
  unfold final_ids in Hperm. split_and!.
  - by rewrite numbered_texts, Hperm, text_of_keys.
  - unfold numbered. rewrite length_imap, Hperm.
    unfold Dict.keys. by rewrite length_fmap.
  - apply numbered_wf.
Qed.

Lemma X2_witness :
  Dict.wf [("7", "MIT"); ("3", "Unused U."); ("2", "Stanford")]
  ∧ ∃ affs names',
      Renumber.renumber_affiliations
        [Renumber.Author "Doe" "Jane" "2,7"; Renumber.Author "Smith" "John" "2"]
        [("7", "MIT"); ("3", "Unused U."); ("2", "Stanford")]
      = Ok (affs, names')
      ∧ affs.*2 ≡ₚ [("7", "MIT"); ("3", "Unused U."); ("2", "Stanford")].*2
      ∧ length affs = 3%nat
      ∧ NoDup affs.*1.
Proof.
  assert (Dict.wf [("7", "MIT"); ("3", "Unused U."); ("2", "Stanford")]) as Hwf
    by (unfold Dict.wf; simpl; refine (bool_decide_unpack _ _); vm_compute;
        exact I).
  split; [exact Hwf|].
  exact (X2_affiliations_neither_lost_nor_repeated _ _ Hwf).
Defined.

(** ** Renumbering twice *)

Section twice.
Import Renumber.

Lemma references_rewrite_with ks names :
  references (rewrite_author ks <$> names) = new_id ks <$> references names.
Proof.
  unfold references. induction names as [|a names IH]; [done|].
  rewrite fmap_cons, !bind_cons, fmap_app, IH. f_equal.
  apply original_ids_rewrite.
Qed.

Lemma filter_fmap_ne (f : string → string) x (l : list string) :
  (∀ y, y ∈ l → f y = f x → y = x) →
  filter (λ y, y ≠ f x) (f <$> l) = f <$> filter (λ y, y ≠ x) l.
Proof.
  induction l as [|y l IH]; intros Hinj; [done|].
  rewrite fmap_cons, !filter_cons.
  rewrite IH by (intros; apply Hinj; set_solver).
  destruct (decide (y = x)) as [->|Hne].
  - rewrite decide_False by naive_solver. by rewrite decide_False by naive_solver.
  - rewrite decide_True.
    + by rewrite decide_True.
    + intros Heq. apply Hne, Hinj; [set_solver|done].
Qed.

Lemma first_seen_fmap (f : string → string) (l : list string) :
  (∀ x y, x ∈ l → y ∈ l → f x = f y → x = y) →
  first_seen (f <$> l) = f <$> first_seen l.
Proof.
  induction l as [|x l IH]; intros Hinj; [done|].
  rewrite fmap_cons. simpl. f_equal.
  rewrite IH by (intros; apply Hinj; set_solver).
  apply filter_fmap_ne. intros y Hy%elem_of_first_seen_1 Heq.
  apply Hinj; set_solver.
Qed.

Lemma new_id_self (l : list string) :
  NoDup l → new_id l <$> l = numerals (length l).
Proof.
  intros Hnd. apply list_eq. intros i.
  rewrite list_lookup_fmap. destruct (l !! i) as [k|] eqn:Hk; simpl.
  - symmetry. apply numerals_lookup. split; [by eapply lookup_lt_Some|].
    unfold new_id. by rewrite (position_lookup _ _ _ Hnd Hk).
  - symmetry. apply lookup_ge_None. rewrite numerals_length.
    by apply lookup_ge_None.
Qed.

Lemma new_id_inj (l : list string) x y :
  x ∈ l → y ∈ l → new_id l x = new_id l y → x = y.
Proof.
  intros Hx Hy. unfold new_id.
  destruct (position x l) as [i|] eqn:Hi; [|by apply position_None in Hi].
  destruct (position y l) as [j|] eqn:Hj; [|by apply position_None in Hj].
  intros Heq%str_inj. apply position_Some in Hi, Hj.
  assert (i = j) as -> by lia. congruence.
Qed.

Lemma take_numerals j n : (j ≤ n)%nat → take j (numerals n) = numerals j.
Proof.
  intros Hj. unfold numerals. rewrite <- fmap_take, take_seq.
  by rewrite Nat.min_l.
Qed.

Lemma prefix_filter_rest (l : list string) j :
  NoDup l → take j l ++ filter (λ x, x ∉ take j l) l = l.
Proof.
  intros Hnd. rewrite <- (take_drop j l) at 3.
  rewrite <- (take_drop j l) in Hnd.
  apply NoDup_app in Hnd as (_ & Hdisj & _).
  rewrite <- (take_drop j l) at 2. rewrite filter_app. f_equal.
  rewrite filter_none, filter_all; [done| |].
  - apply Forall_forall. intros x Hx Hin. by apply (Hdisj x).
  - apply Forall_forall. intros x Hx. naive_solver.
Qed.

(** An input that is numbered already is returned as it is: the keys of
    the mapping are 1, ..., n in this order, and the references first
    appear in the order 1, ..., j. *)
Lemma renumber_numbered names (m : dict) j :
  Dict.keys m = numerals (length m) →
  first_seen (references names) = numerals j → (j ≤ length m)%nat →
  renumber_affiliations names m = Ok (m, rewrite_author [] <$> names).
Proof.
  intros Hkeys Hseen Hj.
  assert (Dict.wf m) as Hwf
    by (unfold Dict.wf; rewrite Hkeys; apply NoDup_numerals).
  assert (used m (references names) = numerals j) as HU.
  { unfold used. rewrite Hseen. apply filter_all, Forall_forall.
    intros k Hk. apply mem_keys. rewrite Hkeys.
    apply list_elem_of_lookup_1 in Hk as [i [Hi ->]%numerals_lookup].
    apply (list_elem_of_lookup_2 _ i), numerals_lookup. split; [lia|done]. }
  assert (used m (references names ++ Dict.keys m) = Dict.keys m) as HF.
  { rewrite used_app, HU, used_keys by done. rewrite Hkeys.
    etrans; [|apply (prefix_filter_rest _ j), NoDup_numerals].
    rewrite take_numerals by done. f_equal. apply list_filter_iff.
    intros k. rewrite <- Hseen. by rewrite elem_of_first_seen. }
  destruct (run_spec names m) as (st & Hrun & Hinv & _ & Hupd).
  rewrite (renumber_affiliations_run _ _ _ Hrun).
  rewrite (inv_list _ _ _ Hinv), HF, Hupd, HU. do 2 f_equal.
  - rewrite Hkeys, numbered_numerals, <- Hkeys. by apply tabulate_keys.
  - apply list_fmap_ext. intros i a _.
    apply rewrite_author_ext. intros k. by rewrite new_id_numerals.
Qed.

Lemma rewrite_author_normal ks a :
  rewrite_author [] (rewrite_author ks a) = rewrite_author ks a.
Proof.
  pose proof (original_ids_rewrite ks a) as Hids.
  unfold rewrite_author at 1. case_bool_decide as Hblank; [done|].
  rewrite Hids.
  destruct (decide (Py.strip (affils a) = "")) as [Hb|Hb].
  - unfold rewrite_author in *. rewrite bool_decide_eq_true_2 in * by done.
    by rewrite (original_ids_blank _ Hb) in *.
  - unfold rewrite_author. rewrite bool_decide_eq_false_2 by done. simpl.
    do 2 f_equal. rewrite <- list_fmap_compose. apply list_fmap_ext.
    by intros i k _.
Qed.

End twice.

(** X3. Renumbering is idempotent whenever no reference is dangling: for
    every dictionary and every author list whose references are all keys
    of the mapping, a run on the output of a run returns that output. *)
Theorem X3_idempotent_when_references_are_keys
    (names : list Renumber.author) (m : dict)
    (Hwf : Dict.wf m)
    (Hpresent : Forall (λ k, Dict.mem k m = true) (references names)) :
  ∃ affs names', Renumber.renumber_affiliations names m = Ok (affs, names')
    ∧ Renumber.renumber_affiliations names' affs = Ok (affs, names').
Proof.
  destruct (run_spec names m) as (st & Hrun & Hinv & _ & Hupd).
  eexists _, _. split; [by apply renumber_affiliations_run|].
  rewrite (inv_list _ _ _ Hinv), Hupd.
  set (U := used m (references names)).
  set (F := used m (references names ++ Dict.keys m)).
  assert (U = first_seen (references names)) as HU.
  { unfold U, used. apply filter_all, Forall_forall.
    intros k Hk%elem_of_first_seen_1.
    rewrite Forall_forall in Hpresent. by apply Hpresent. }
  rewrite (renumber_numbered _ _ (length U)).
  - do 2 f_equal. rewrite <- list_fmap_compose. apply list_fmap_ext.
    intros i a _. apply rewrite_author_normal.
  - unfold Dict.keys. rewrite numbered_keys.
    unfold numbered. by rewrite length_imap.
  - rewrite references_rewrite_with, first_seen_fmap.
    + rewrite <- HU. apply new_id_self, NoDup_used.
    + intros x y Hx Hy. apply new_id_inj; rewrite HU;
        by apply elem_of_first_seen_2.
  - unfold numbered. rewrite length_imap. unfold F. rewrite used_app.
    rewrite length_app. fold U. lia.
Qed.

Lemma X3_witness :
  ∃ affs names',
    Renumber.renumber_affiliations
      [Renumber.Author "Doe" "Jane" "7, 2"; Renumber.Author "Smith" "John" "2"]
      [("2", "Stanford"); ("3", "Unused U."); ("7", "MIT")] = Ok (affs, names')
    ∧ Renumber.renumber_affiliations names' affs = Ok (affs, names').
Proof.
  apply (X3_idempotent_when_references_are_keys
           [Renumber.Author "Doe" "Jane" "7, 2";
            Renumber.Author "Smith" "John" "2"]
           [("2", "Stanford"); ("3", "Unused U."); ("7", "MIT")]).
  - unfold Dict.wf. simpl. refine (bool_decide_unpack _ _). vm_compute. exact I.
  - refine (bool_decide_unpack _ _). vm_compute. exact I.
Defined.

(** With a dangling reference a second run may change the output: the id 2
    that no affiliation has is kept, and then taken for the number 2. *)
Example renumbering_twice_with_dangling_reference :
  Renumber.renumber_affiliations
    [Renumber.Author "Doe" "Jane" "2,5"] [("5", "MIT"); ("6", "Stanford")]
  = Ok ([("1", "MIT"); ("2", "Stanford")], [Renumber.Author "Doe" "Jane" "2,1"])
  ∧ Renumber.renumber_affiliations
      [Renumber.Author "Doe" "Jane" "2,1"] [("1", "MIT"); ("2", "Stanford")]
    = Ok ([("1", "Stanford"); ("2", "MIT")],
          [Renumber.Author "Doe" "Jane" "1,2"]).
Proof. split; by vm_compute. Qed.

(** ** From the segmenter to the parsers *)

Section blocks.
Import Extract.

Lemma rstrip_chars_app_fixed p (a b : string) :
  b ≠ "" → Py.rstrip_chars p b = b →
  Py.rstrip_chars p (a +:+ b) = a +:+ b.
Proof.
  intros Hb Hfix. induction a as [|c a IH]; [done|].
  change (String c a +:+ b) with (String c (a +:+ b)). simpl. rewrite IH.
  destruct (a +:+ b) eqn:Hab; [|done].
  destruct a; [by subst|done].
Qed.

Lemma strip_fixed l :
  Py.strip l = l →
  starts_well Py.isspace l ∧ Py.rstrip_chars Py.isspace l = l.
Proof.
  intros Hl. split.
  - rewrite <- Hl. apply rstrip_chars_starts_well, lstrip_chars_starts_well.
  - rewrite <- Hl at 1. unfold Py.strip, Py.strip_chars.
    rewrite rstrip_chars_idem. exact Hl.
Qed.

Lemma strip_of_parts l :
  starts_well Py.isspace l → Py.rstrip_chars Py.isspace l = l →
  Py.strip l = l.
Proof.
  intros H1 H2. unfold Py.strip, Py.strip_chars.
  by rewrite lstrip_chars_id.
Qed.

Lemma join_cons_cons sep x y (l : list string) :
  Py.join sep (x :: y :: l) = x +:+ sep +:+ Py.join sep (y :: l).
Proof. done. Qed.

Lemma app_nonempty_l (a b : string) : a ≠ "" → a +:+ b ≠ "".
Proof. by destruct a. Qed.

Lemma app_nonempty_r (a b : string) : b ≠ "" → a +:+ b ≠ "".
Proof. destruct a; [done|]. by destruct b. Qed.

Lemma join_nonempty sep x (l : list string) :
  x ≠ "" → Py.join sep (x :: l) ≠ "".
Proof.
  intros Hx. destruct l as [|y l]; [done|].
  rewrite join_cons_cons. by apply app_nonempty_l.
Qed.

Lemma starts_well_app p (a b : string) :
  a ≠ "" → starts_well p a → starts_well p (a +:+ b).
Proof. by destruct a. Qed.

(** Trimmed lines joined by any separator lose nothing when the whole is
    trimmed again. *)
Lemma strip_join sep (lines : list string) :
  Forall trimmed lines → Py.strip (Py.join sep lines) = Py.join sep lines.
Proof.
  intros Hlines. destruct Hlines as [|x l (Hx & Hfix & _) Hl]; [done|].
  destruct (strip_fixed x Hfix) as [Hstart Hend].
  apply strip_of_parts.
  - destruct l as [|y l]; [done|]. rewrite join_cons_cons.
    by apply starts_well_app.
  - clear Hstart Hfix. revert x Hx Hend.
    induction Hl as [|y l (Hy & Hfy & _) Hl IH]; intros x Hx Hend; [done|].
    rewrite join_cons_cons.
    destruct (strip_fixed y Hfy) as [_ Hendy].
    apply rstrip_chars_app_fixed.
    + apply app_nonempty_r. by apply join_nonempty.
    + apply rstrip_chars_app_fixed; [by apply join_nonempty|by apply IH].
Qed.

Lemma split_join_trimmed (lines : list string) :
  Forall trimmed lines → lines ≠ [] →
  Py.split Py.LF (Py.join (String Py.LF "") lines) = lines.
Proof.
  intros Hlines Hne. apply split_join; [|done].
  eapply Forall_impl; [exact Hlines|]. by intros l (_ & _ & Hl).
Qed.

Lemma fmap_strip_trimmed (lines : list string) :
  Forall trimmed lines → Py.strip <$> lines = lines.
Proof.
  induction 1 as [|l lines (_ & Hl & _) _ IH]; [done|].
  by rewrite fmap_cons, Hl, IH.
Qed.

Lemma content_trimmed text : Forall trimmed (content (Py.split Py.LF text)).
Proof.
  unfold content. apply Forall_forall. intros l.
  rewrite list_elem_of_filter, list_elem_of_fmap.
  intros (Hne & raw & -> & Hraw). split_and!; [done|apply strip_chars_idem|].
  apply forallb_strip.
  pose proof (split_pieces Py.LF text) as Hall.
  rewrite Forall_forall in Hall. by apply Hall.
Qed.

Lemma before_sentinel_Forall (P : string → Prop) L :
  Forall P L → Forall P (before_sentinel L).
Proof.
  induction 1 as [|x L Hx _ IH]; simpl; [done|].
  case_decide; by constructor.
Qed.

Lemma after_sentinel_Forall (P : string → Prop) L :
  Forall P L → Forall P (after_sentinel L).
Proof.
  induction 1 as [|x L Hx HL IH]; simpl; [done|]. by case_decide.
Qed.

Lemma tail_Forall (P : string → Prop) L : Forall P L → Forall P (tail L).
Proof. by destruct 1. Qed.

(** The two blocks, as lists of lines. *)
Lemma parse_data_lines full_text :
  let L := content (Py.split Py.LF full_text) in
  parse_data full_text
  = (Py.join (String Py.LF "") (tail (before_sentinel L)),
     Py.join (String Py.LF "")
       (filter (λ x, ¬ sentinel x) (after_sentinel L))).
Proof.
  intros L.
  destruct (scan_lines_before (Py.split Py.LF full_text)
              segmenter_initial eq_refl) as [H1 H2].
  simpl in H1, H2. unfold parse_data, scan_lines. by rewrite H1, H2.
Qed.

Lemma replace_app a b (s t : string) :
  Py.replace a b (s +:+ t) = Py.replace a b s +:+ Py.replace a b t.
Proof.
  induction s as [|c s IH]; [done|].
  change (String c s +:+ t) with (String c (s +:+ t)). simpl.
  by rewrite IH.
Qed.

Lemma replace_absent a b (s : string) :
  Py.forallb (not_char a) s = true → Py.replace a b s = s.
Proof.
  induction s as [|c s IH]; simpl; [done|].
  intros [Hc Hs]%andb_true_iff. apply negb_true_iff in Hc.
  by rewrite Hc, IH.
Qed.

Lemma replace_join (lines : list string) :
  Forall trimmed lines →
  Py.replace Py.LF " " (Py.join (String Py.LF "") lines) = Py.join " " lines.
Proof.
  induction 1 as [|x l (_ & _ & Hx) Hl IH]; [done|].
  destruct l as [|y l]; [by apply replace_absent|].
  by rewrite !join_cons_cons, !replace_app, IH, replace_absent by done.
Qed.

End blocks.

(** X4. The dictionary of a document: for every text, the dictionary that
    the affiliation parser makes of the affiliation block of the segmenter
    binds an id to the text of the last line that carries it among the
    trimmed, non-blank lines after the first sentinel, and to nothing when
    none does; joining the lines into the block and splitting the block
    again loses nothing. *)
Theorem X4_dictionary_of_a_document (full_text : string) :
  let L := content (Py.split Py.LF full_text) in
  let affiliation_lines := filter (λ x, ¬ sentinel x) (after_sentinel L) in
  ∀ k,
    Dict.get (Extract.parse_affiliations_to_dict
                (Extract.parse_data full_text).2) k
    = last_text k (omap Extract.match_affiliation affiliation_lines).
Proof.
  intros L affiliation_lines k. rewrite parse_data_lines. simpl.
  fold L. fold affiliation_lines.
  assert (Forall trimmed affiliation_lines) as Hlines.
  { apply Forall_forall. intros l [_ Hl]%list_elem_of_filter. revert l Hl.
    apply Forall_forall, after_sentinel_Forall, content_trimmed. }
  destruct (decide (affiliation_lines = [])) as [->|Hne]; [done|].
  unfold Extract.parse_affiliations_to_dict.
  rewrite strip_join, split_join_trimmed by done.
  destruct (add_affiliations_spec affiliation_lines [] []) as [_ Hget];
    [apply NoDup_nil_2|done|].
  rewrite Hget. simpl. by rewrite fmap_strip_trimmed.
Qed.

(** X5. The authors of a document: for every text, the author parser
    applied to the author block of the segmenter scans the trimmed,
    non-blank lines between the title and the first sentinel joined by
    single spaces, so that an entry may run over several lines. *)
Theorem X5_authors_of_a_document (full_text : string) :
  let L := content (Py.split Py.LF full_text) in
  let author_lines := tail (before_sentinel L) in
  Extract.parse_authors_to_list (Extract.parse_data full_text).1
  = omap Extract.author_of_match
      (Extract.finditer (Py.join " " author_lines)).
Proof.
  intros L author_lines. rewrite parse_data_lines. simpl.
  fold L. fold author_lines.
  assert (Forall trimmed author_lines) as Hlines
    by apply tail_Forall, before_sentinel_Forall, content_trimmed.
  unfold Extract.parse_authors_to_list.
  by rewrite replace_join, strip_join.
Qed.

(** ** The records of the author parser *)

Section records.
Import Extract.

Lemma rev_nonempty (s : string) : s ≠ "" → String.rev s ≠ "".
Proof.
  destruct s as [|c s]; [done|]. intros _. rewrite rev_cons.
  by apply app_nonempty_r.
Qed.

Lemma split_ws_go_nonempty cur s :
  Forall (λ t, t ≠ "") (Py.split_ws_go cur s).
Proof.
  revert cur. induction s as [|c s IH]; intros cur; simpl.
  - destruct cur; [constructor|]. constructor; [|constructor].
    by apply rev_nonempty.
  - destruct (Py.isspace c); [|apply IH].
    destruct cur; [apply IH|]. constructor; [|apply IH].
    by apply rev_nonempty.
Qed.

Lemma forallb_both (p q r : ascii → bool) s :
  (∀ c, p c = true → q c = true → r c = true) →
  Py.forallb p s = true → Py.forallb q s = true → Py.forallb r s = true.
Proof.
  intros Hpqr. induction s as [|c s IH]; simpl; [done|].
  intros [Hp Hps]%andb_true_iff [Hq Hqs]%andb_true_iff.
  by rewrite (Hpqr c Hp Hq), IH.
Qed.

Lemma split_forallb q sep s :
  Py.forallb q s = true →
  Forall (λ x, Py.forallb q x = true) (Py.split sep s).
Proof.
  induction s as [|c s IH]; simpl; [by repeat constructor|].
  intros [Hc Hs]%andb_true_iff. specialize (IH Hs).
  case_bool_decide; [by constructor|].
  destruct (Py.split sep s) as [|w ws].
  - constructor; [|done]. simpl. by rewrite Hc.
  - inversion_clear IH as [|? ? Hw Hws]. constructor; [|done].
    simpl. by rewrite Hc, Hw.
Qed.

Lemma strip_decimal s : Py.forallb Py.isdecimal s = true → Py.strip s = s.
Proof.
  intros Hs. apply strip_chars_none. revert Hs. apply forallb_impl.
  by intros [[] [] [] [] [] [] [] []].
Qed.

Lemma id_run_strip g : id_run g → Py.strip g = g.
Proof.
  intros (c & rest & -> & Hc & Hrest). apply strip_chars_none. simpl.
  apply andb_true_iff. split.
  - revert Hc. by destruct c as [[] [] [] [] [] [] [] []].
  - revert Hrest. apply forallb_impl.
    by intros [[] [] [] [] [] [] [] []].
Qed.

Lemma id_run_strip_commas g :
  id_run g → id_run (Py.strip_chars (Py.is_char ",") g).
Proof.
  intros (c & rest & -> & Hc & Hrest). unfold Py.strip_chars.
  assert (Py.is_char "," c = false) as Hcomma
    by (revert Hc; by destruct c as [[] [] [] [] [] [] [] []]).
  simpl. rewrite Hcomma. simpl.
  pose proof (forallb_rstrip_chars _ (Py.is_char ",") _ Hrest) as Hr.
  destruct (Py.rstrip_chars (Py.is_char ",") rest) as [|c' r].
  - rewrite Hcomma. by exists c, "".
  - by exists c, (String c' r).
Qed.

(** The ids that the renumbering reads in a run of ids. *)
Lemma original_ids_id_run s :
  id_run s →
  Renumber.original_ids s ≠ [] ∧ Forall decimal_id (Renumber.original_ids s).
Proof.
  intros (c & rest & -> & Hc & Hrest).
  assert (Py.forallb (λ c, Py.isdecimal c || Py.is_char "," c)
            (String c rest) = true) as Hall
    by (simpl; by rewrite Hc, Hrest).
  assert (Forall (λ x, Py.forallb Py.isdecimal x = true)
            (Py.split "," (String c rest))) as Hpieces.
  { pose proof (split_forallb _ "," _ Hall) as H1.
    pose proof (split_pieces "," (String c rest)) as H2.
    rewrite Forall_forall in H1, H2. apply Forall_forall. intros x Hx.
    eapply (forallb_both (λ c, Py.isdecimal c || Py.is_char "," c)
              (not_char ",")); [|by apply H1|by apply H2].
    intros c0. unfold not_char, Py.is_char.
    destruct (bool_decide (c0 = ","%char)); simpl; [done|].
    by rewrite orb_false_r. }
  unfold Renumber.original_ids.
  assert (Py.strip <$> Py.split "," (String c rest)
          = Py.split "," (String c rest)) as ->.
  { clear -Hpieces. induction Hpieces as [|x l Hx _ IH]; [done|].
    by rewrite fmap_cons, IH, strip_decimal. }
  split.
  - simpl. rewrite bool_decide_eq_false_2
      by (intros ->; revert Hc; by vm_compute).
    destruct (Py.split "," rest); by rewrite filter_cons_True.
  - apply Forall_forall. intros x [Hx Hin]%list_elem_of_filter.
    split; [done|]. rewrite Forall_forall in Hpieces. by apply Hpieces.
Qed.

Lemma author_of_match_shape seg r :
  id_run seg.2 → author_of_match seg = Some r →
  last_name r ≠ ""
  ∧ affiliations r = Py.strip_chars (Py.is_char ",") seg.2.
Proof.
  intros Hids. unfold author_of_match.
  case_bool_decide as Hname; [done|].
  set (name := Py.lstrip_chars _ _) in *.
  rewrite (id_run_strip _ Hids).
  case_bool_decide as Hlen; intros [= <-]; simpl; (split; [|done]); [|done].
  pose proof (split_ws_go_nonempty "" name) as Htok.
  fold (Py.split_ws name) in Htok.
  destruct (last (Py.split_ws name)) as [t|] eqn:Hlast; simpl.
  - rewrite Forall_forall in Htok. apply Htok.
    apply last_Some in Hlast as [l' ->]. set_solver.
  - apply last_None in Hlast. rewrite Hlast in Hlen. simpl in Hlen. lia.
Qed.

Lemma finditer_no_digit sc s :
  sc = Start ∨ (∃ n, sc = Name n) →
  Py.forallb (λ c, negb (Py.isdecimal c)) s = true →
  finditer_from sc s = [].
Proof.
  revert sc. induction s as [|c s IH]; intros sc Hsc; simpl.
  - by destruct Hsc as [->|[n ->]].
  - intros [Hc Hs]%andb_true_iff. apply negb_true_iff in Hc.
    destruct Hsc as [->|[n ->]]; rewrite Hc; apply IH; eauto.
Qed.

End records.

(** X6. What the extraction hands to the renumbering: for every author
    block, each record of the author parser has a last name that is not
    empty and a reference string that is a digit followed by digits and
    commas, in which the renumbering reads at least one id, every id
    being a non-empty run of decimal digits. *)
Theorem X6_records_have_a_name_and_decimal_ids (text : string) :
  Forall (λ r,
      Extract.last_name r ≠ ""
      ∧ id_run (Extract.affiliations r)
      ∧ Renumber.original_ids (Extract.affiliations r) ≠ []
      ∧ Forall decimal_id (Renumber.original_ids (Extract.affiliations r)))
    (Extract.parse_authors_to_list text).
Proof.
  unfold Extract.parse_authors_to_list.
  pose proof (finditer_from_shape Extract.Start
                (Py.strip (Py.replace Py.LF " " text)) I) as Hshape.
  fold (Extract.finditer (Py.strip (Py.replace Py.LF " " text))) in Hshape.
  induction Hshape as [|seg segs [_ Hids] _ IH]; [constructor|].
  cbn [omap list_omap].
  destruct (Extract.author_of_match seg) as [r|] eqn:Hr; [|done].
  constructor; [|done].
  destruct (author_of_match_shape seg r Hids Hr) as [Hlast ->].
  pose proof (id_run_strip_commas _ Hids) as Hrun.
  destruct (original_ids_id_run _ Hrun) as [H1 H2]. done.
Qed.

(** X7. Names are found only by the digits that follow them: an author
    block without any decimal digit gives no author record. *)
Theorem X7_no_digit_no_author (text : string)
    (Hnone : Py.forallb (λ c, negb (Py.isdecimal c)) text = true) :
  Extract.parse_authors_to_list text = [].
Proof.
  unfold Extract.parse_authors_to_list, Extract.finditer.
  rewrite finditer_no_digit; [done|by left|].
  apply forallb_strip. clear -Hnone.
  induction text as [|c text IH]; simpl in *; [done|].
  apply andb_true_iff in Hnone as [Hc Ht]. rewrite (IH Ht), andb_true_r.
  case_bool_decide; [done|exact Hc].
Qed.

Lemma X7_witness :
  Extract.parse_authors_to_list "Jane A. Doe, John Smith" = [].
Proof. apply X7_no_digit_no_author. reflexivity. Defined.

(** ** The sort of the ids, in the extraction and in the rendering *)

Section numeric_order.
Import Render.

Lemma int_decimal k : decimal_id k → Py.int k = Ok (numeric_value k).
Proof.
  intros [Hne Hk]. unfold numeric_value.
  destruct (int_go_decimal 0 k Hk) as [n Hn].
  unfold Py.int. destruct k as [|c k]; [done|]. by rewrite Hn.
Qed.

Lemma sort_into_numeric keyed :
  Forall numeric_pair keyed →
  ∃ l, sort_into [] keyed = Ok l ∧ l.*2 ≡ₚ keyed.*2 ∧ ascending l.*2.
Proof.
  intros Hnum.
  assert (same_kind true keyed) as Hkind.
  { eapply Forall_impl; [exact Hnum|]. intros p Hp.
    unfold numeric_pair in Hp. by rewrite Hp. }
  destruct (sort_into_same_kind true [] keyed) as (l & Hl & Hperm);
    [constructor|done|].
  exists l. split_and!; [done|by rewrite Hperm|].
  assert (StronglySorted
            (λ p q, numeric_value p.2 ≤ numeric_value q.2) l) as Hs.
  { eapply (sort_into_sorted [] keyed); [constructor|done|constructor|done]. }
  clear -Hs. unfold ascending.
  induction Hs as [|p l _ IH Hp]; simpl; [constructor|].
  constructor; [done|]. by apply Forall_fmap.
Qed.

Lemma with_int_keys_decimal ks :
  Forall decimal_id ks →
  ∃ keyed, ExtractScript.with_int_keys ks = Ok keyed ∧ keyed.*2 = ks
    ∧ Forall numeric_pair keyed.
Proof.
  induction 1 as [|k ks Hk _ (keyed & Hw & Hids & Hnum)]; simpl.
  - by exists [].
  - rewrite (int_decimal _ Hk). simpl. rewrite Hw. simpl.
    exists ((IntKey (numeric_value k), k) :: keyed).
    split_and!; [done|by rewrite fmap_cons, Hids|by constructor].
Qed.

Lemma extract_sorted_ids (d : dict) :
  Forall decimal_id (Dict.keys d) →
  ∃ ids, ExtractScript.sorted_ids d = Ok ids
    ∧ ids ≡ₚ Dict.keys d ∧ ascending ids.
Proof.
  intros Hks. unfold ExtractScript.sorted_ids.
  destruct (with_int_keys_decimal _ Hks) as (keyed & -> & Hids & Hnum).
  destruct (sort_into_numeric keyed Hnum) as (l & Hl & Hperm & Hasc).
  simpl. rewrite Hl. simpl. exists (l.*2). by rewrite <- Hids.
Qed.

Lemma add_affiliation_keys d line :
  Forall decimal_id (Dict.keys d) →
  Forall decimal_id (Dict.keys (Extract.add_affiliation d line)).
Proof.
  intros Hd. unfold Extract.add_affiliation, Extract.match_affiliation.
  destruct (Py.take_while Py.isdecimal (Py.strip line)) as [|c ds] eqn:Hid;
    [done|].
  rewrite keys_set. case_decide; [done|].
  apply Forall_app. split; [done|]. constructor; [|done].
  split; [done|]. rewrite <- Hid. apply take_while_forallb.
Qed.

Lemma parsed_keys_decimal text :
  Forall decimal_id (Dict.keys (Extract.parse_affiliations_to_dict text)).
Proof.
  unfold Extract.parse_affiliations_to_dict.
  generalize (Py.split Py.LF (Py.strip text)). intros lines.
  assert (Forall decimal_id (Dict.keys [])) as Hd by constructor.
  revert Hd. generalize ([] : dict).
  induction lines as [|l lines IH]; intros d Hd; simpl; [done|].
  by apply IH, add_affiliation_keys.
Qed.

Lemma add_affiliation_wf d line :
  Dict.wf d → Dict.wf (Extract.add_affiliation d line).
Proof.
  intros Hd. unfold Extract.add_affiliation.
  destruct (Extract.match_affiliation (Py.strip line)) as [[id txt]|];
    [by apply wf_set|done].
Qed.

Lemma parsed_wf text : Dict.wf (Extract.parse_affiliations_to_dict text).
Proof.
  unfold Extract.parse_affiliations_to_dict.
  generalize (Py.split Py.LF (Py.strip text)). intros lines.
  assert (Dict.wf []) as Hd by constructor.
  revert Hd. generalize ([] : dict).
  induction lines as [|l lines IH]; intros d Hd; simpl; [done|].
  by apply IH, add_affiliation_wf.
Qed.

Lemma affiliation_rows_keys d ids :
  Forall (λ k, k ∈ Dict.keys d) ids →
  ExtractScript.affiliation_rows d ids
  = Ok ((λ k, [k; text_of d k]) <$> ids).
Proof.
  induction 1 as [|k ids Hk _ IH]; simpl; [done|].
  unfold Dict.getitem.
  rewrite (mem_text_of d k) by by apply mem_keys. simpl. by rewrite IH.
Qed.

Lemma Permutation_keys (ids ks : list string) :
  ids ≡ₚ ks → Forall (λ k, k ∈ ks) ids.
Proof. intros Hp. apply Forall_forall. intros k Hk. by rewrite <- Hp. Qed.

(** What the extraction writes, for every text. *)
Lemma extract_main_spec full_text :
  ∃ out ids,
    ExtractScript.main full_text = Ok out
    ∧ ids ≡ₚ Dict.keys
               (Extract.parse_affiliations_to_dict
                  (Extract.parse_data full_text).2)
    ∧ ascending ids
    ∧ ExtractScript.affiliations_csv out
      = ["Affiliation ID"; "Affiliation Name"]
        :: ((λ k, [k; text_of (Extract.parse_affiliations_to_dict
                                 (Extract.parse_data full_text).2) k])
            <$> ids)
    ∧ ExtractScript.names_csv out
      = ["Last Name"; "First Name / Middle"; "Affiliation IDs"]
        :: (ExtractScript.name_row
            <$> Extract.parse_authors_to_list
                  (Extract.parse_data full_text).1).
Proof.
  unfold ExtractScript.main.
  destruct (Extract.parse_data full_text) as [authors_text affs_text].
  cbn [fst snd].
  destruct (extract_sorted_ids _ (parsed_keys_decimal affs_text))
    as (ids & -> & Hperm & Hasc).
  cbn [mbind result_bind].
  rewrite (affiliation_rows_keys _ ids) by by apply Permutation_keys.
  cbn [mbind result_bind]. by eexists _, ids.
Qed.

(** The document, once the order of the ids is known. *)
Lemma generate_with_ids authors (affiliations : dict) ids :
  sorted_ids affiliations = Ok ids →
  Forall (λ k, k ∈ Dict.keys affiliations) ids →
  generate_document_xml authors affiliations
  = Ok (document authors affiliations ids).
Proof.
  intros Hsorted Hids. unfold generate_document_xml. rewrite Hsorted.
  cbn [mbind result_bind].
  assert (affiliation_paragraphs affiliations ids
          = Ok (affiliation_paragraph affiliations <$> ids)) as ->; [|done].
  clear Hsorted. induction Hids as [|k ids Hk _ IH]; simpl; [done|].
  unfold Dict.getitem.
  rewrite (mem_text_of affiliations k) by by apply mem_keys.
  simpl. by rewrite IH.
Qed.

Lemma sort_key_cases x :
  (∃ k, sort_key x = Ok k) ∨ sort_key x = Raise (ValueError x).
Proof.
  unfold sort_key, Py.int. destruct (Py.isdigit x); [|by eauto].
  destruct x as [|c x]; [by right|].
  destruct (Py.int_go 0 (String c x)); simpl; eauto.
Qed.

Lemma sort_key_superscript x :
  Py.isdigit x = true → Py.forallb Py.isdecimal x = false →
  sort_key x = Raise (ValueError x).
Proof.
  intros Hd Hx. unfold sort_key, Py.int. rewrite Hd.
  destruct x as [|c x]; [done|].
  destruct (Py.int_go 0 (String c x)) as [n|] eqn:Hn; [|done].
  exfalso. revert Hx Hn. generalize 0. generalize (String c x). clear.
  intros s. induction s as [|c s IH]; intros acc; simpl; [done|].
  destruct (Py.isdecimal c); simpl; [apply IH|done].
Qed.

Lemma with_keys_raises ks k :
  k ∈ ks → sort_key k = Raise (ValueError k) →
  ∃ k', k' ∈ ks ∧ with_keys ks = Raise (ValueError k').
Proof.
  intros Hk Hraise. induction ks as [|x ks IH]; [by apply elem_of_nil in Hk|].
  simpl. destruct (sort_key_cases x) as [[kx Hx]|Hx]; rewrite Hx.
  - apply elem_of_cons in Hk as [->|Hk]; [congruence|].
    destruct (IH Hk) as (k' & Hk' & ->). exists k'. split; [set_solver|done].
  - exists x. split; [set_solver|done].
Qed.

End numeric_order.

(** X8. The extraction never fails on the text of a document, and it
    writes the affiliations in ascending order of the numeric values of
    their ids: after the header, the affiliation table has one row per id
    of the parsed dictionary, with the text of the id, and the names table
    has one row per record of the author parser, in their order. *)
Theorem X8_extraction_writes_tables_in_numeric_order (full_text : string)
    (Hlimit : Forall within_int_limit
                (Dict.keys (Extract.parse_affiliations_to_dict
                              (Extract.parse_data full_text).2))) :
  ∃ out ids,
    ExtractScript.main full_text = Ok out
    ∧ ids ≡ₚ Dict.keys
               (Extract.parse_affiliations_to_dict
                  (Extract.parse_data full_text).2)
    ∧ ascending ids
    ∧ ExtractScript.affiliations_csv out
      = ["Affiliation ID"; "Affiliation Name"]
        :: ((λ k, [k; text_of (Extract.parse_affiliations_to_dict
                                 (Extract.parse_data full_text).2) k])
            <$> ids)
    ∧ ExtractScript.names_csv out
      = ["Last Name"; "First Name / Middle"; "Affiliation IDs"]
        :: (ExtractScript.name_row
            <$> Extract.parse_authors_to_list
                  (Extract.parse_data full_text).1).
Proof. apply extract_main_spec. Qed.

(** X9. With ids that are all runs of decimal digits, the rendering
    succeeds and the document lists every affiliation once, in ascending
    order of the numeric values of the ids, whoever the authors are. *)
Theorem X9_document_lists_decimal_ids_in_numeric_order
    (authors : list Renumber.author) (affiliations : dict)
    (Hdecimal : Forall decimal_id (Dict.keys affiliations))
    (Hlimit : Forall within_int_limit (Dict.keys affiliations)) :
  ∃ ids, ids ≡ₚ Dict.keys affiliations
    ∧ ascending ids
    ∧ Render.generate_document_xml authors affiliations
      = Ok (document authors affiliations ids).
Proof.
  destruct (sorted_ids_numeric affiliations Hdecimal)
    as (ids & Hsorted & Hperm & Hasc).
  exists ids. split_and!; [done|done|].
  apply generate_with_ids; [done|by apply Permutation_keys].
Qed.

(** X10. Whenever the ids are decimal numerals or not digit strings at
    all, and both kinds occur, the rendering raises [TypeError], whoever
    the authors are and whatever the order of the ids. *)
Theorem X10_mixed_ids_always_raise
    (authors : list Renumber.author) (affiliations : dict) (k1 k2 : string)
    (Hkinds : Forall (λ k, decimal_id k ∨ Py.isdigit k = false)
                (Dict.keys affiliations))
    (Hlimit : Forall within_int_limit (Dict.keys affiliations))
    (H1 : k1 ∈ Dict.keys affiliations) (Hdecimal : decimal_id k1)
    (H2 : k2 ∈ Dict.keys affiliations) (Htext : Py.isdigit k2 = false) :
  Render.generate_document_xml authors affiliations = Raise TypeError.
Proof.
  unfold Render.generate_document_xml.
  by rewrite (sorted_ids_mixed affiliations k1 k2).
Qed.

(** X11. An id for which [isdigit] holds though it is not made of decimal
    digits only, such as a superscript digit, makes the rendering raise
    [ValueError]: the conversion of an id to an integer fails. *)
Theorem X11_superscript_id_raises
    (authors : list Renumber.author) (affiliations : dict) (k : string)
    (Hk : k ∈ Dict.keys affiliations)
    (Hdigit : Py.isdigit k = true)
    (Hsuper : Py.forallb Py.isdecimal k = false) :
  ∃ k', k' ∈ Dict.keys affiliations
    ∧ Render.generate_document_xml authors affiliations
      = Raise (ValueError k').
Proof.
  destruct (with_keys_raises (Dict.keys affiliations) k Hk)
    as (k' & Hk' & Hraise); [by apply sort_key_superscript|].
  exists k'. split; [done|].
  unfold Render.generate_document_xml, Render.sorted_ids.
  by rewrite Hraise.
Qed.

Lemma X8_witness :
  ∃ out ids,
    ExtractScript.main
      (Py.join (String Py.LF "")
         ["My Title"; "Jane A. Doe2,10"; "Affiliations"; "10 MIT";
          "2 Stanford"])
    = Ok out
    ∧ ids ≡ₚ ["10"; "2"]
    ∧ ascending ids
    ∧ ExtractScript.affiliations_csv out
      = ["Affiliation ID"; "Affiliation Name"]
        :: ((λ k, [k; text_of [("10", "MIT"); ("2", "Stanford")] k]) <$> ids)
    ∧ ExtractScript.names_csv out
      = [["Last Name"; "First Name / Middle"; "Affiliation IDs"];
         ["Doe"; "Jane A."; "2,10"]].
Proof.
  apply (X8_extraction_writes_tables_in_numeric_order
           (Py.join (String Py.LF "")
              ["My Title"; "Jane A. Doe2,10"; "Affiliations"; "10 MIT";
               "2 Stanford"])).
  unfold within_int_limit. refine (bool_decide_unpack _ _).
  vm_compute. exact I.
Defined.

Lemma X9_witness :
  ∃ ids, ids ≡ₚ ["10"; "2"]
    ∧ ascending ids
    ∧ Render.generate_document_xml
        [Renumber.Author "Doe" "Jane" "2,10"]
        [("10", "MIT"); ("2", "Stanford")]
      = Ok (document [Renumber.Author "Doe" "Jane" "2,10"]
              [("10", "MIT"); ("2", "Stanford")] ids).
Proof.
  apply (X9_document_lists_decimal_ids_in_numeric_order
           [Renumber.Author "Doe" "Jane" "2,10"]
           [("10", "MIT"); ("2", "Stanford")]).
  - unfold decimal_id. refine (bool_decide_unpack _ _). vm_compute. exact I.
  - unfold within_int_limit. refine (bool_decide_unpack _ _).
    vm_compute. exact I.
Defined.

Lemma X10_witness :
  Render.generate_document_xml []
    [("x", "Stanford"); ("10", "MIT"); ("y", "Oxford")]
  = Raise TypeError.
Proof.
  apply (X10_mixed_ids_always_raise []
           [("x", "Stanford"); ("10", "MIT"); ("y", "Oxford")] "10" "y").
  - apply Forall_cons. split; [by right|].
    apply Forall_cons. split; [left; split; [done|reflexivity]|].
    apply Forall_cons. split; [by right|]. apply Forall_nil_2.
  - unfold within_int_limit. refine (bool_decide_unpack _ _).
    vm_compute. exact I.
  - set_solver.
  - split; [done|reflexivity].
  - set_solver.
  - reflexivity.
Defined.

Lemma X11_witness :
  ∃ k', k' ∈ ["1"; String "178" ""]
    ∧ Render.generate_document_xml []
        [("1", "MIT"); (String "178" "", "Stanford")]
      = Raise (ValueError k').
Proof.
  apply (X11_superscript_id_raises []
           [("1", "MIT"); (String "178" "", "Stanford")] (String "178" "")).
  - set_solver.
  - reflexivity.
  - reflexivity.
Defined.

(** ** From the renumbering to the rendering *)

Section renumbered_ids.
Import Render.

(** [int(str(n))] is [n]. *)
Lemma int_str n : Py.int (Py.str n) = Ok n.
Proof.
  pose proof (str_nonempty n) as Hne. unfold Py.int.
  destruct (Py.str n) as [|c s] eqn:Hstr; [done|]. rewrite <- Hstr.
  clear Hne Hstr c s. unfold Py.str, pretty, pretty_N.
  case_decide as Hn; [by subst|].
  destruct (int_go_pretty n) as [p ->]. by simpl.
Qed.

Lemma numeric_value_str n : numeric_value (Py.str n) = n.
Proof. unfold numeric_value. by rewrite int_str. Qed.

Lemma str_decimal_id n : decimal_id (Py.str n).
Proof. split; [apply str_nonempty|apply str_decimal]. Qed.

Lemma with_keys_str (ns : list N) :
  with_keys (Py.str <$> ns) = Ok ((λ n, (IntKey n, Py.str n)) <$> ns).
Proof.
  induction ns as [|n ns IH]; [done|]. cbn [fmap list_fmap with_keys].
  rewrite (sort_key_decimal _ (str_decimal_id n)), numeric_value_str.
  cbn [mbind result_bind]. fold (fmap Py.str ns). rewrite IH. done.
Qed.

(** An element that is greater than all the others is put last. *)
Lemma insert_greatest n (ns : list N) :
  Forall (λ m, m < n) ns →
  insert (IntKey n, Py.str n) ((λ n, (IntKey n, Py.str n)) <$> ns)
  = Ok ((λ n, (IntKey n, Py.str n)) <$> (ns ++ [n])).
Proof.
  induction 1 as [|m ns Hm _ IH]; [done|].
  cbn [fmap list_fmap insert fst key_lt mbind result_bind].
  assert ((n <? m) = false) as -> by (apply N.ltb_ge; lia).
  fold (fmap (λ n, (IntKey n, Py.str n)) ns). rewrite IH. done.
Qed.

(** Sorting numerals that are in ascending order changes nothing. *)
Lemma sort_into_ascending (done todo : list N) :
  StronglySorted N.lt (done ++ todo) →
  sort_into ((λ n, (IntKey n, Py.str n)) <$> done)
            ((λ n, (IntKey n, Py.str n)) <$> todo)
  = Ok ((λ n, (IntKey n, Py.str n)) <$> (done ++ todo)).
Proof.
  revert done. induction todo as [|n todo IH]; intros done Hs.
  - by rewrite app_nil_r.
  - cbn [fmap list_fmap sort_into].
    rewrite insert_greatest.
    + cbn [mbind result_bind].
      fold (fmap (λ n, (IntKey n, Py.str n)) todo).
      rewrite IH; rewrite <- (assoc_L (++)); done.
    + apply Forall_forall. intros m Hm.
      apply (StronglySorted_app_1_elem_of _ _ _ _ _ Hs); [done|set_solver].
Qed.

Lemma numerals_str n :
  numerals n = Py.str <$> ((λ i, N.of_nat (S i)) <$> seq 0 n).
Proof. unfold numerals. by rewrite <- list_fmap_compose. Qed.

Lemma seq_ascending j n :
  StronglySorted N.lt ((λ i, N.of_nat (S i)) <$> seq j n).
Proof.
  revert j. induction n as [|n IH]; intros j; simpl; constructor; [done|].
  apply Forall_fmap, Forall_forall. intros i Hi%elem_of_seq. simpl. lia.
Qed.

(** A table numbered from 1 is in the order of the sort already. *)
Lemma sorted_ids_numerals (affs : dict) n :
  Dict.keys affs = numerals n → sorted_ids affs = Ok (Dict.keys affs).
Proof.
  intros Hkeys. unfold sorted_ids. rewrite Hkeys, numerals_str.
  rewrite with_keys_str. cbn [mbind result_bind].
  rewrite (sort_into_ascending [] _) by apply seq_ascending.
  cbn [mbind result_bind app]. f_equal.
  rewrite <- list_fmap_compose. done.
Qed.

Lemma renumbered_keys names m affs names' :
  Renumber.renumber_affiliations names m = Ok (affs, names') →
  Dict.keys affs = numerals (length affs).
Proof.
  destruct (run_spec names m) as (st & Hrun & Hinv & _ & Hupd).
  rewrite (renumber_affiliations_run _ _ _ Hrun). intros [= <- <-].
  rewrite (inv_list _ _ _ Hinv). unfold Dict.keys.
  rewrite numbered_keys. unfold numbered. by rewrite length_imap.
Qed.

Lemma renumber_total names m :
  ∃ affs names', Renumber.renumber_affiliations names m = Ok (affs, names').
Proof.
  destruct (run_spec names m) as (st & Hrun & _).
  eexists _, _. by apply renumber_affiliations_run.
Qed.

Lemma generate_renumbered names' (affs : dict) n :
  Dict.keys affs = numerals n →
  generate_document_xml names' affs
  = Ok (document names' affs (Dict.keys affs)).
Proof.
  intros Hkeys. apply generate_with_ids; [by eapply sorted_ids_numerals|].
  by apply Forall_forall.
Qed.

End renumbered_ids.

(** X12. What the renumbering returns can always be rendered: its ids are
    the numerals from 1 to the length of the list, the sort of the
    renderer leaves them in their order and compares integers only, and
    the document lists the affiliations in the order of the list.  (The
    numerals of a table have far fewer digits than [int] accepts.) *)
Theorem X12_renumbered_tables_render_in_their_order
    (names : list Renumber.author) (m : dict) :
  ∃ affs names',
    Renumber.renumber_affiliations names m = Ok (affs, names')
    ∧ Dict.keys affs = numerals (length affs)
    ∧ Render.sorted_ids affs = Ok (Dict.keys affs)
    ∧ Render.generate_document_xml names' affs
      = Ok (document names' affs (Dict.keys affs)).
Proof.
  destruct (renumber_total names m) as (affs & names' & Hren).
  exists affs, names'.
  pose proof (renumbered_keys _ _ _ _ Hren) as Hkeys.
  split_and!; [done|done| |].
  - by eapply sorted_ids_numerals.
  - by eapply generate_renumbered.
Qed.

(** ** The tables between the scripts *)

Section tables.

Lemma universal_newlines_fixed s :
  Py.forallb (not_char Csv.CR) s = true → Csv.universal_newlines s = s.
Proof.
  induction s as [|c s IH]; [done|].
  cbn [Py.forallb]. intros [Hc Hs]%andb_true_iff.
  cbn [Csv.universal_newlines].
  unfold not_char in Hc. apply negb_true_iff in Hc.
  unfold Py.is_char. rewrite Hc. by rewrite IH.
Qed.

Lemma decimal_kept s : Py.forallb Py.isdecimal s = true → kept s.
Proof.
  intros Hs. unfold kept. rewrite universal_newlines_fixed.
  - by apply strip_decimal.
  - revert Hs. apply forallb_impl. by intros [[] [] [] [] [] [] [] []].
Qed.

Lemma id_run_kept g : id_run g → kept g.
Proof.
  intros Hg. unfold kept. rewrite universal_newlines_fixed.
  - by apply id_run_strip.
  - destruct Hg as (c & rest & -> & Hc & Hrest). simpl.
    apply andb_true_iff. split.
    + revert Hc. by destruct c as [[] [] [] [] [] [] [] []].
    + revert Hrest. apply forallb_impl.
      by intros [[] [] [] [] [] [] [] []].
Qed.

Lemma forallb_rev p s : Py.forallb p (String.rev s) = Py.forallb p s.
Proof.
  induction s as [|c s IH]; [done|].
  rewrite rev_cons, forallb_app, IH. simpl.
  rewrite andb_true_r. apply andb_comm.
Qed.

Lemma split_ws_go_spaceless cur s :
  Py.forallb (λ c, negb (Py.isspace c)) cur = true →
  Forall (λ t, Py.forallb (λ c, negb (Py.isspace c)) t = true)
    (Py.split_ws_go cur s).
Proof.
  revert cur. induction s as [|c s IH]; intros cur Hcur; simpl.
  - destruct cur; [constructor|]. constructor; [|constructor].
    by rewrite forallb_rev.
  - destruct (Py.isspace c) eqn:Hc.
    + destruct cur; [by apply IH|]. constructor; [|by apply IH].
      by rewrite forallb_rev.
    + apply IH. simpl. by rewrite Hc.
Qed.

Lemma forallb_join p sep (l : list string) :
  Py.forallb p sep = true → Forall (λ t, Py.forallb p t = true) l →
  Py.forallb p (Py.join sep l) = true.
Proof.
  intros Hsep. induction 1 as [|x l Hx Hl IH]; [done|].
  destruct l as [|y l]; [done|].
  rewrite join_cons_cons, !forallb_app, Hx, Hsep. by rewrite IH.
Qed.

Lemma removelast_Forall {A} (P : A → Prop) (l : list A) :
  Forall P l → Forall P (removelast l).
Proof.
  induction 1 as [|x l Hx Hl IH]; [constructor|]. simpl.
  destruct l; [constructor|]. by constructor.
Qed.

(** A name made of tokens is read back as it was written. *)
Lemma tokens_kept (tokens : list string) :
  Forall (λ t, t ≠ "") tokens →
  Forall (λ t, Py.forallb (λ c, negb (Py.isspace c)) t = true) tokens →
  kept (Py.join " " tokens).
Proof.
  intros Hne Hsp. unfold kept. rewrite universal_newlines_fixed.
  - apply strip_join. apply Forall_forall. intros t Ht.
    rewrite Forall_forall in Hne, Hsp. split_and!; [by apply Hne| |].
    + by apply strip_chars_none, Hsp.
    + generalize (Hsp _ Ht). apply forallb_impl.
      by intros [[] [] [] [] [] [] [] []].
  - apply forallb_join; [done|].
    eapply Forall_impl; [exact Hsp|]. intros t.
    apply forallb_impl. by intros [[] [] [] [] [] [] [] []].
Qed.

Lemma author_of_match_kept seg r :
  id_run seg.2 → Extract.author_of_match seg = Some r →
  kept (Extract.first_middle r) ∧ kept (Extract.affiliations r).
Proof.
  intros Hids Hr.
  destruct (author_of_match_shape seg r Hids Hr) as [_ Haff].
  split; [|rewrite Haff; by apply id_run_kept, id_run_strip_commas].
  revert Hr. unfold Extract.author_of_match.
  case_bool_decide as Hname; [done|].
  set (name := Py.lstrip_chars _ _) in *.
  case_bool_decide as Hlen; intros [= <-]; simpl; [|done].
  apply tokens_kept; apply removelast_Forall.
  - apply split_ws_go_nonempty.
  - by apply split_ws_go_spaceless.
Qed.

Lemma records_kept text :
  Forall (λ r, kept (Extract.first_middle r) ∧ kept (Extract.affiliations r))
    (Extract.parse_authors_to_list text).
Proof.
  unfold Extract.parse_authors_to_list.
  pose proof (finditer_from_shape Extract.Start
                (Py.strip (Py.replace Py.LF " " text)) I) as Hshape.
  fold (Extract.finditer (Py.strip (Py.replace Py.LF " " text))) in Hshape.
  induction Hshape as [|seg segs [_ Hids] _ IH]; [constructor|].
  cbn [omap list_omap].
  destruct (Extract.author_of_match seg) as [r|] eqn:Hr; [|done].
  constructor; [|done]. by eapply author_of_match_kept.
Qed.

Lemma set_fresh (d : dict) k v :
  k ∉ Dict.keys d → Dict.set d k v = d ++ [(k, v)].
Proof.
  unfold Dict.keys. induction d as [|[k0 v0] d IH]; simpl; [done|].
  intros Hk. rewrite decide_False by set_solver.
  by rewrite IH by set_solver.
Qed.

(** Rows with distinct keys are added one behind the other. *)
Lemma foldl_set_rows {A} (add : dict → row → dict) (mk : A → row)
    (pair : A → string * string) (d0 : dict) (l : list A) :
  (∀ d a, add d (mk a) = Dict.set d (pair a).1 (pair a).2) →
  NoDup (Dict.keys d0 ++ (pair <$> l).*1) →
  foldl add d0 (mk <$> l) = d0 ++ (pair <$> l).
Proof.
  intros Hadd. revert d0.
  induction l as [|a l IH]; intros d0 Hnd; simpl.
  - by rewrite app_nil_r.
  - rewrite Hadd, set_fresh.
    + rewrite IH.
      * rewrite <- (assoc_L (++)). simpl. by rewrite <- surjective_pairing.
      * unfold Dict.keys. rewrite fmap_app, <- (assoc_L (++)). done.
    + apply NoDup_app in Hnd as (_ & Hnd & _).
      intros Hin. apply (Hnd _ Hin). simpl. set_solver.
Qed.

Lemma read_back_cons (r : row) (rows : list row) :
  Csv.read_rows (r :: rows)
  = (Csv.universal_newlines <$> r) :: Csv.read_rows rows.
Proof. done. Qed.

Lemma read_back_names (names : list Renumber.author) :
  omap RenderScript.author_of_row
    (Csv.read_rows
       ((λ auth, [Renumber.last auth; Renumber.first auth;
                  Renumber.affils auth]) <$> names))
  = read_back_author <$> names.
Proof.
  unfold Csv.read_rows. induction names as [|a names IH]; [done|].
  rewrite !fmap_cons. cbn [omap list_omap].
  cbn [RenderScript.author_of_row fmap list_fmap]. simpl. f_equal.
  exact IH.
Qed.

Lemma read_back_affiliations (affs : list (string * string)) n :
  Dict.keys affs = numerals n →
  foldl RenderScript.add_row []
    (Csv.read_rows ((λ aff, [aff.1; aff.2]) <$> affs))
  = read_back_entry <$> affs.
Proof.
  intros Hkeys. unfold Csv.read_rows. rewrite <- list_fmap_compose.
  assert (read_back_entry <$> affs
          = (λ p, (Csv.universal_newlines p.1, Csv.universal_newlines p.2))
            <$> affs) as Hentries.
  { apply list_fmap_ext. intros i [k v] Hi. unfold read_back_entry. simpl.
    f_equal. symmetry.
    assert (k ∈ numerals n) as (j & -> & _)%list_elem_of_fmap.
    { rewrite <- Hkeys. unfold Dict.keys. apply list_elem_of_fmap.
      exists (k, v). split; [done|]. by eapply list_elem_of_lookup_2. }
    apply universal_newlines_fixed.
    eapply forallb_impl; [|apply str_decimal].
    by intros [[] [] [] [] [] [] [] []]. }
  rewrite (foldl_set_rows RenderScript.add_row _
             (λ p, (Csv.universal_newlines p.1, Csv.universal_newlines p.2))).
  - by rewrite Hentries.
  - done.
  - rewrite <- Hentries. unfold read_back_entry.
    rewrite <- list_fmap_compose. simpl.
    change (fst ∘ _) with (@fst string string).
    fold (Dict.keys affs). rewrite Hkeys. apply NoDup_numerals.
Qed.

Lemma read_back_keys (affs : list (string * string)) :
  Dict.keys (read_back_entry <$> affs) = Dict.keys affs.
Proof.
  unfold Dict.keys. rewrite <- list_fmap_compose. done.
Qed.

(** The renderer on the tables that the renumbering script wrote. *)
Lemma render_renumbered_tables (affs : list (string * string)) names' n :
  Dict.keys affs = numerals n →
  RenderScript.read_csv_data
    (Csv.read_rows (RenumberScript.write_csvs affs names').2)
    (Csv.read_rows (RenumberScript.write_csvs affs names').1)
  = (read_back_author <$> names', read_back_entry <$> affs)
  ∧ RenderScript.main
      (Csv.read_rows (RenumberScript.write_csvs affs names').2)
      (Csv.read_rows (RenumberScript.write_csvs affs names').1)
    = Ok (document (read_back_author <$> names') (read_back_entry <$> affs)
            (Dict.keys affs)).
Proof.
  intros Hkeys.
  assert (RenderScript.read_csv_data
            (Csv.read_rows (RenumberScript.write_csvs affs names').2)
            (Csv.read_rows (RenumberScript.write_csvs affs names').1)
          = (read_back_author <$> names', read_back_entry <$> affs)) as Hread.
  { unfold RenderScript.read_csv_data, RenumberScript.write_csvs.
    cbn [fst snd]. rewrite !read_back_cons. cbn [tail].
    by rewrite read_back_names, (read_back_affiliations affs n). }
  split; [done|]. unfold RenderScript.main. rewrite Hread.
  rewrite <- (read_back_keys affs).
  apply (generate_renumbered _ _ n). by rewrite read_back_keys.
Qed.

Lemma renumber_main_spec names_rows affiliations_rows :
  ∃ affs names',
    Renumber.renumber_affiliations
      (RenumberScript.read_inputs names_rows affiliations_rows).1
      (RenumberScript.read_inputs names_rows affiliations_rows).2
    = Ok (affs, names')
    ∧ Dict.keys affs = numerals (length affs)
    ∧ RenumberScript.main names_rows affiliations_rows
      = Ok (RenumberScript.write_csvs affs names').
Proof.
  unfold RenumberScript.main.
  destruct (RenumberScript.read_inputs names_rows affiliations_rows)
    as [names m]. cbn [fst snd].
  destruct (renumber_total names m) as (affs & names' & Hren).
  exists affs, names'. split_and!; [done|by eapply renumbered_keys|].
  by rewrite Hren.
Qed.

Lemma read_tables_spec (names_file affiliations_file : list row) :
  Csv.read_tables names_file affiliations_file
  = if Csv.readable names_file && Csv.readable affiliations_file
    then Some (Csv.read_rows names_file, Csv.read_rows affiliations_file)
    else None.
Proof.
  unfold Csv.read_tables, Csv.read_back.
  by destruct (Csv.readable names_file), (Csv.readable affiliations_file).
Qed.

End tables.

(** X13. The renderer reads back what the renumbering script wrote,
    unless a field is too long for it: for all input tables the script
    succeeds; when no field of its two output tables has more characters
    than the reader accepts, the renderer gets from them the renumbered
    authors and the renumbered affiliations, in the same order and with
    the same ids, every field being as it was written but for the
    translation of line ends; and when a field is longer the renderer
    gets nothing, since the reader raises. *)
Theorem X13_renderer_reads_what_renumbering_wrote
    (names_rows affiliations_rows : list row) :
  ∃ affs names',
    Renumber.renumber_affiliations
      (RenumberScript.read_inputs names_rows affiliations_rows).1
      (RenumberScript.read_inputs names_rows affiliations_rows).2
    = Ok (affs, names')
    ∧ RenumberScript.main names_rows affiliations_rows
      = Ok (RenumberScript.write_csvs affs names')
    ∧ uncurry RenderScript.read_csv_data
      <$> Csv.read_tables (RenumberScript.write_csvs affs names').2
                          (RenumberScript.write_csvs affs names').1
      = if Csv.readable (RenumberScript.write_csvs affs names').2
           && Csv.readable (RenumberScript.write_csvs affs names').1
        then Some (read_back_author <$> names', read_back_entry <$> affs)
        else None.
Proof.
  destruct (renumber_main_spec names_rows affiliations_rows)
    as (affs & names' & Hren & Hkeys & Hmain).
  exists affs, names'. split_and!; [done|done|].
  rewrite read_tables_spec.
  destruct (_ && _); [|done]. cbn [fmap option_fmap option_map uncurry].
  f_equal.
  by apply (render_renumbered_tables affs names' (length affs)).
Qed.

(** ** From the extraction to the document *)

Section pipeline.

Lemma read_back_records (records : list Extract.author_record) :
  Forall (λ r, kept (Extract.first_middle r) ∧ kept (Extract.affiliations r))
    records →
  omap RenumberScript.author_of_row
    (Csv.read_rows (ExtractScript.name_row <$> records))
  = author_of_record <$> records.
Proof.
  induction 1 as [|r records [Hfirst Haffils] _ IH]; [done|].
  rewrite !fmap_cons, read_back_cons. cbn [omap list_omap].
  unfold ExtractScript.name_row at 1.
  cbn [fmap list_fmap RenumberScript.author_of_row]. rewrite IH.
  unfold kept in Hfirst, Haffils. unfold author_of_record at 2.
  by rewrite Hfirst, Haffils.
Qed.

Lemma read_back_dictionary (d : dict) (ids : list string) :
  NoDup ids → Forall decimal_id ids →
  foldl RenumberScript.add_row []
    (Csv.read_rows ((λ k, [k; text_of d k]) <$> ids))
  = entry_of_id d <$> ids.
Proof.
  intros Hnd Hids. unfold Csv.read_rows. rewrite <- list_fmap_compose.
  assert (entry_of_id d <$> ids
          = (λ k, (Py.strip (Csv.universal_newlines k),
                   Py.strip (Csv.universal_newlines (text_of d k))))
            <$> ids) as Hentries.
  { apply list_fmap_ext. intros i k Hi. unfold entry_of_id. f_equal.
    symmetry. rewrite Forall_forall in Hids.
    apply decimal_kept, Hids. by eapply list_elem_of_lookup_2. }
  rewrite (foldl_set_rows RenumberScript.add_row _
             (λ k, (Py.strip (Csv.universal_newlines k),
                    Py.strip (Csv.universal_newlines (text_of d k))))).
  - by rewrite Hentries.
  - done.
  - rewrite <- Hentries. unfold entry_of_id.
    rewrite <- list_fmap_compose. simpl.
    change (fst ∘ _) with (@id string). by rewrite list_fmap_id.
Qed.

(** What the renumbering script reads from the tables of the extraction. *)
Lemma extract_then_read full_text :
  ∃ out ids,
    ExtractScript.main full_text = Ok out
    ∧ ids ≡ₚ Dict.keys
               (Extract.parse_affiliations_to_dict
                  (Extract.parse_data full_text).2)
    ∧ ascending ids
    ∧ RenumberScript.read_inputs
        (Csv.read_rows (ExtractScript.names_csv out))
        (Csv.read_rows (ExtractScript.affiliations_csv out))
      = (author_of_record
         <$> Extract.parse_authors_to_list (Extract.parse_data full_text).1,
         entry_of_id
           (Extract.parse_affiliations_to_dict
              (Extract.parse_data full_text).2)
         <$> ids).
Proof.
  destruct (extract_main_spec full_text)
    as (out & ids & Hmain & Hperm & Hasc & Haffs & Hnames).
  exists out, ids. split_and!; [done|done|done|].
  unfold RenumberScript.read_inputs. rewrite Haffs, Hnames.
  rewrite !read_back_cons. cbn [tail].
  rewrite read_back_records by apply records_kept.
  rewrite read_back_dictionary; [done| |].
  - rewrite Hperm. apply parsed_wf.
  - rewrite Hperm. apply parsed_keys_decimal.
Qed.

(** The files that the renumbering writes for the tables of the
    extraction are the files that the pipeline gives to the rendering. *)
Example pipeline_file_names :
  RenumberScript.get_output_filename "names.csv" = "reordered_names.csv"
  ∧ RenumberScript.get_output_filename "affiliations.csv"
    = "reordered_affiliations.csv".
Proof. split; by vm_compute. Qed.

End pipeline.

(** X14. The renumbering script reads back what the extraction wrote,
    unless a field is too long for it: when no field of the two tables has
    more characters than the reader accepts, the authors it reads are the
    records of the author parser in their order, with the first names and
    the references as they were parsed and the last name stripped, and the
    mapping has the ids of the parsed dictionary in ascending order of
    their numeric values, whatever the order of the affiliation lines in
    the document; when a field is longer it reads nothing, since the
    reader raises and the script exits. *)
Theorem X14_renumbering_reads_what_extraction_wrote (full_text : string)
    (Hlimit : Forall within_int_limit
                (Dict.keys (Extract.parse_affiliations_to_dict
                              (Extract.parse_data full_text).2))) :
  ∃ out ids,
    ExtractScript.main full_text = Ok out
    ∧ ids ≡ₚ Dict.keys
               (Extract.parse_affiliations_to_dict
                  (Extract.parse_data full_text).2)
    ∧ ascending ids
    ∧ uncurry RenumberScript.read_inputs
      <$> Csv.read_tables (ExtractScript.names_csv out)
                          (ExtractScript.affiliations_csv out)
      = if Csv.readable (ExtractScript.names_csv out)
           && Csv.readable (ExtractScript.affiliations_csv out)
        then Some (author_of_record
                   <$> Extract.parse_authors_to_list
                         (Extract.parse_data full_text).1,
                   entry_of_id
                     (Extract.parse_affiliations_to_dict
                        (Extract.parse_data full_text).2)
                   <$> ids)
        else None.
Proof.
  destruct (extract_then_read full_text)
    as (out & ids & Hmain & Hperm & Hasc & Hread).
  exists out, ids. split_and!; [done|done|done|].
  rewrite read_tables_spec.
  destruct (_ && _); [|done]. cbn [fmap option_fmap option_map uncurry].
  by f_equal.
Qed.

(** X15. The three steps in a row fail only where a table has a field
    that is too long for the reader: on the text of a document the
    extraction succeeds; when a field of its tables has more characters
    than the reader accepts, the second step fails; otherwise the
    renumbering succeeds, and when a field of its tables is too long the
    third step fails; otherwise the document is written, and it lists the
    renumbered affiliations under the numerals from 1 on, in the order of
    the renumbering.  The mixed ids that make the renderer raise cannot
    reach it through the pipeline. *)
Theorem X15_pipeline_fails_only_on_overlong_fields (full_text : string)
    (Hlimit : Forall within_int_limit
                (Dict.keys (Extract.parse_affiliations_to_dict
                              (Extract.parse_data full_text).2))) :
  ∃ out ids affs names',
    ExtractScript.main full_text = Ok out
    ∧ ids ≡ₚ Dict.keys
               (Extract.parse_affiliations_to_dict
                  (Extract.parse_data full_text).2)
    ∧ ascending ids
    ∧ Renumber.renumber_affiliations
        (author_of_record
         <$> Extract.parse_authors_to_list (Extract.parse_data full_text).1)
        (entry_of_id
           (Extract.parse_affiliations_to_dict
              (Extract.parse_data full_text).2)
         <$> ids)
      = Ok (affs, names')
    ∧ Dict.keys affs = numerals (length affs)
    ∧ Tidy.main full_text
      = if Csv.readable (ExtractScript.names_csv out)
           && Csv.readable (ExtractScript.affiliations_csv out)
        then
          if Csv.readable (RenumberScript.write_csvs affs names').2
             && Csv.readable (RenumberScript.write_csvs affs names').1
          then Tidy.Written
                 (document (read_back_author <$> names')
                    (read_back_entry <$> affs) (Dict.keys affs))
          else Tidy.Exit 3
        else Tidy.Exit 2.
Proof.
  destruct (extract_then_read full_text)
    as (out & ids & Hmain & Hperm & Hasc & Hread).
  destruct (renumber_main_spec
              (Csv.read_rows (ExtractScript.names_csv out))
              (Csv.read_rows (ExtractScript.affiliations_csv out)))
    as (affs & names' & Hren & Hkeys & Hrenumber).
  rewrite Hread in Hren. cbn [fst snd] in Hren.
  exists out, ids, affs, names'. split_and!; [done|done|done|done|done|].
  unfold Tidy.main. rewrite Hmain, read_tables_spec.
  destruct (_ && _); [|done]. rewrite Hrenumber.
  destruct (render_renumbered_tables affs names' (length affs) Hkeys)
    as [_ Hrender].
  revert Hrender. unfold RenumberScript.write_csvs at 1 2 3 4.
  cbn [fst snd]. intros Hrender. rewrite read_tables_spec.
  destruct (_ && _); [|done]. by rewrite Hrender.
Qed.

Lemma X14_witness :
  ∃ out ids,
    ExtractScript.main example_document = Ok out
    ∧ ids ≡ₚ Dict.keys
               (Extract.parse_affiliations_to_dict
                  (Extract.parse_data example_document).2)
    ∧ ascending ids
    ∧ uncurry RenumberScript.read_inputs
      <$> Csv.read_tables (ExtractScript.names_csv out)
                          (ExtractScript.affiliations_csv out)
      = if Csv.readable (ExtractScript.names_csv out)
           && Csv.readable (ExtractScript.affiliations_csv out)
        then Some (author_of_record
                   <$> Extract.parse_authors_to_list
                         (Extract.parse_data example_document).1,
                   entry_of_id
                     (Extract.parse_affiliations_to_dict
                        (Extract.parse_data example_document).2)
                   <$> ids)
        else None.
Proof.
  apply (X14_renumbering_reads_what_extraction_wrote example_document).
  unfold within_int_limit. refine (bool_decide_unpack _ _).
  vm_compute. exact I.
Defined.

Lemma X15_witness :
  ∃ out ids affs names',
    ExtractScript.main example_document = Ok out
    ∧ ids ≡ₚ Dict.keys
               (Extract.parse_affiliations_to_dict
                  (Extract.parse_data example_document).2)
    ∧ ascending ids
    ∧ Renumber.renumber_affiliations
        (author_of_record
         <$> Extract.parse_authors_to_list
               (Extract.parse_data example_document).1)
        (entry_of_id
           (Extract.parse_affiliations_to_dict
              (Extract.parse_data example_document).2)
         <$> ids)
      = Ok (affs, names')
    ∧ Dict.keys affs = numerals (length affs)
    ∧ Tidy.main example_document
      = if Csv.readable (ExtractScript.names_csv out)
           && Csv.readable (ExtractScript.affiliations_csv out)
        then
          if Csv.readable (RenumberScript.write_csvs affs names').2
             && Csv.readable (RenumberScript.write_csvs affs names').1
          then Tidy.Written
                 (document (read_back_author <$> names')
                    (read_back_entry <$> affs) (Dict.keys affs))
          else Tidy.Exit 3
        else Tidy.Exit 2.
Proof.
  apply (X15_pipeline_fails_only_on_overlong_fields example_document).
  unfold within_int_limit. refine (bool_decide_unpack _ _).
  vm_compute. exact I.
Defined.

(** The pipeline at the limit of the reader: a text of 131072 characters
    goes through, one more character makes the second step fail. *)
Example pipeline_at_the_field_limit :
  (if Tidy.main (document_with_text_of 131072) is Tidy.Written _
   then true else false) = true
  ∧ Tidy.main (document_with_text_of 131073) = Tidy.Exit 2.
Proof. split; by vm_compute. Qed.

Example pipeline_on_the_example_document :
  ∃ document_xml, Tidy.main example_document = Tidy.Written document_xml.
Proof. eexists. by vm_compute. Qed.

(** ** The readers of the tables and the names of the output files *)

Section readers.

Lemma foldl_entries_spec (add : dict → row → dict)
    (entry : row → option (string * string)) (rows : list row) :
  (∀ d r, add d r = match entry r with
                    | Some (k, v) => Dict.set d k v
                    | None => d
                    end) →
  ∀ (d : dict) (es : list (string * string)),
    Dict.keys d = first_seen es.*1 →
    (∀ k, Dict.get d k = last_text k es) →
    Dict.keys (foldl add d rows) = first_seen (es ++ omap entry rows).*1
    ∧ ∀ k, Dict.get (foldl add d rows) k
           = last_text k (es ++ omap entry rows).
Proof.
  intros Hadd. induction rows as [|r rows IH]; intros d es Hkeys Hget.
  - simpl. by rewrite app_nil_r.
  - cbn [foldl omap list_omap]. rewrite Hadd.
    destruct (entry r) as [[k v]|]; [|by apply IH].
    change ((k, v) :: ?l) with ([(k, v)] ++ l).
    rewrite (assoc_L (++)). apply IH.
    + rewrite keys_set, fmap_app, first_seen_app, Hkeys. simpl.
      rewrite filter_cons, filter_nil.
      destruct (decide (k ∈ first_seen es.*1)) as [Hin|Hin].
      * rewrite decide_False; [by rewrite app_nil_r|].
        intros Hk. apply Hk. by apply elem_of_first_seen_1.
      * rewrite decide_True; [done|].
        intros Hk. apply Hin. by apply elem_of_first_seen_2.
    + intros k'. by rewrite get_set, last_text_snoc, Hget.
Qed.

End readers.

Section paths.
Import Posix.

Lemma rpartition_no_slash f :
  Py.forallb (not_char "/") f = true → rpartition f = (None, f).
Proof.
  induction f as [|c f IH]; simpl; [done|].
  intros [Hc Hf]%andb_true_iff. rewrite (IH Hf).
  unfold not_char in Hc. apply negb_true_iff in Hc.
  unfold Py.is_char. by rewrite Hc.
Qed.

Lemma rpartition_app_slash h f :
  endswith_slash h = true → Py.forallb (not_char "/") f = true →
  rpartition (h +:+ f) = (Some h, f).
Proof.
  intros Hh Hf. induction h as [|c h IH]; [done|].
  change (String c h +:+ f) with (String c (h +:+ f)).
  cbn [rpartition]. destruct h as [|c' h].
  - change ("" +:+ f) with f. rewrite (rpartition_no_slash _ Hf).
    simpl in Hh. by rewrite Hh.
  - rewrite IH; [done|]. exact Hh.
Qed.

Lemma rpartition_spec p :
  Py.forallb (not_char "/") (rpartition p).2 = true
  ∧ match (rpartition p).1 with
    | Some h => endswith_slash h = true
    | None => True
    end.
Proof.
  induction p as [|c p [IH1 IH2]]; simpl; [done|].
  destruct (rpartition p) as [[h|] tail]; simpl in *.
  - split; [done|]. destruct h; [done|exact IH2].
  - unfold Py.is_char. case_bool_decide as Hc; simpl.
    + split; [done|]. unfold Py.is_char. by rewrite bool_decide_eq_true_2.
    + split; [|done]. unfold not_char.
      rewrite bool_decide_eq_false_2 by done. simpl. exact IH1.
Qed.

Lemma endswith_slash_app (d : string) : endswith_slash (d +:+ "/") = true.
Proof.
  induction d as [|c d IH]; [done|].
  change (String c d +:+ "/") with (String c (d +:+ "/")).
  cbn [endswith_slash]. destruct (d +:+ "/") eqn:Hd; [|done].
  by destruct d.
Qed.

Lemma rstrip_chars_app_stripped p (a b : string) :
  Py.forallb p b = true →
  Py.rstrip_chars p (a +:+ b) = Py.rstrip_chars p a.
Proof.
  intros Hb. induction a as [|c a IH].
  - change ("" +:+ b) with b. simpl. clear -Hb.
    induction b as [|c b IH]; simpl in *; [done|].
    apply andb_true_iff in Hb as [Hc Hb]. by rewrite (IH Hb), Hc.
  - change (String c a +:+ b) with (String c (a +:+ b)). simpl.
    by rewrite IH.
Qed.

Lemma endswith_slash_rstrip s :
  s ≠ "" → Py.rstrip_chars (Py.is_char "/") s = s → endswith_slash s = false.
Proof.
  induction s as [|c s IH]; [done|]. intros _. cbn [Py.rstrip_chars].
  destruct (Py.rstrip_chars (Py.is_char "/") s) as [|c' r] eqn:Hr.
  - destruct (Py.is_char "/" c) eqn:Hc; [done|]. intros [= <-].
    simpl. exact Hc.
  - intros [= <-]. change (endswith_slash (String c' r) = false).
    by apply IH.
Qed.

Lemma startswith_reordered tail :
  startswith_slash ("reordered_" +:+ tail) = false.
Proof. done. Qed.

Lemma reordered_no_slash tail :
  Py.forallb (not_char "/") tail = true →
  Py.forallb (not_char "/") ("reordered_" +:+ tail) = true.
Proof. intros Ht. by rewrite forallb_app, Ht. Qed.

End paths.

(** X17. The output file of the renumbering script lies in the directory
    of the input file, and its name is the name of the input file behind
    the prefix: splitting the output path gives the directory of the input
    path and the prefixed name, for every input path. *)
Theorem X17_output_file_is_next_to_the_input (input_path : string) :
  Posix.split (RenumberScript.get_output_filename input_path)
  = ((Posix.split input_path).1,
     "reordered_" +:+ (Posix.split input_path).2).
Proof.
  unfold RenumberScript.get_output_filename, Posix.split at 2 3 4.
  destruct (rpartition_spec input_path) as [Htail Hhead].
  destruct (Posix.rpartition input_path) as [[h|] tail]; cbn [fst snd] in *.
  - cbn [default from_option id].
    assert (h ≠ "") as Hne by (intros ->; done).
    rewrite bool_decide_eq_false_2 by done. cbn [negb andb].
    destruct (Py.forallb (Py.is_char "/") h) eqn:Hall; cbn [negb].
    + unfold Posix.join. rewrite startswith_reordered, Hhead.
      rewrite orb_true_r. unfold Posix.split.
      rewrite rpartition_app_slash by by try apply reordered_no_slash.
      cbn [default from_option id]. rewrite bool_decide_eq_false_2 by done.
      by rewrite Hall.
    + set (d := Py.rstrip_chars (Py.is_char "/") h).
      assert (d ≠ "") as Hd.
      { intros Hd. apply rstrip_chars_empty in Hd. congruence. }
      assert (Py.rstrip_chars (Py.is_char "/") d = d) as Hfix
        by apply rstrip_chars_idem.
      unfold Posix.join. rewrite startswith_reordered.
      rewrite bool_decide_eq_false_2 by done.
      rewrite (endswith_slash_rstrip d) by done. cbn [orb].
      unfold Posix.split. rewrite <- string_app_assoc.
      rewrite rpartition_app_slash;
        [|apply endswith_slash_app|by apply reordered_no_slash].
      cbn [default from_option id].
      rewrite bool_decide_eq_false_2 by by apply app_nonempty_l.
      rewrite forallb_app.
      assert (Py.forallb (Py.is_char "/") d = false) as ->.
      { destruct (Py.forallb (Py.is_char "/") d) eqn:Hd'; [|done].
        exfalso. apply Hd. rewrite <- Hfix.
        rewrite <- (rstrip_chars_app_stripped _ "" d) by done. done. }
      cbn [negb andb]. by rewrite rstrip_chars_app_stripped, Hfix.
  - cbn [default from_option id]. rewrite bool_decide_eq_true_2 by done. cbn [negb andb].
    unfold Posix.join. rewrite startswith_reordered.
    rewrite bool_decide_eq_true_2 by done. cbn [orb].
    change ("" +:+ ?s) with s. unfold Posix.split.
    rewrite rpartition_no_slash by by apply reordered_no_slash.
    cbn [default from_option id]. by rewrite bool_decide_eq_true_2.
Qed.

(** X16. Both readers of an affiliations table never take the first row
    for an affiliation and skip the rows with fewer than two fields; of
    the rows with the same id the first gives the place of the id in the
    mapping and the last gives its text.  The renumbering script compares
    and stores the fields stripped, the renderer as they are. *)
Theorem X16_table_readers_keep_first_place_and_last_text
    (names_rows affiliations_rows : list row) :
  let m := (RenumberScript.read_inputs names_rows affiliations_rows).2 in
  let entries := omap stripped_entry (tail affiliations_rows) in
  let m' := (RenderScript.read_csv_data names_rows affiliations_rows).2 in
  let entries' := omap raw_entry (tail affiliations_rows) in
  (Dict.keys m = first_seen entries.*1
   ∧ ∀ k, Dict.get m k = last_text k entries)
  ∧ (Dict.keys m' = first_seen entries'.*1
     ∧ ∀ k, Dict.get m' k = last_text k entries').
Proof.
  split.
  - apply (foldl_entries_spec RenumberScript.add_row stripped_entry
             (tail affiliations_rows)) with (d := []) (es := []);
      [|done|done].
    by intros d [|a [|b r]].
  - apply (foldl_entries_spec RenderScript.add_row raw_entry
             (tail affiliations_rows)) with (d := []) (es := []);
      [|done|done].
    by intros d [|a [|b r]].
Qed.

(** ** The warning of the extraction *)

Section warning.

Lemma extract_main_stdout full_text out :
  ExtractScript.main full_text = Ok out →
  ExtractScript.stdout out
  = ["Parsing content (skipping first line as Title)..."]
    ++ (if bool_decide ((Extract.parse_data full_text).2 = "")
        then ["Warning: No 'Affiliations' section found."] else [])
    ++ ["Found "
        +:+ Py.str (N.of_nat (length (Extract.parse_authors_to_list
                                        (Extract.parse_data full_text).1)))
        +:+ " authors and "
        +:+ Py.str (N.of_nat (length (Extract.parse_affiliations_to_dict
                                        (Extract.parse_data full_text).2)))
        +:+ " affiliations.";
        "Writing affiliations.csv..."; "Writing names.csv...";
        "Conversion complete."].
Proof.
  unfold ExtractScript.main.
  destruct (Extract.parse_data full_text) as [authors_text affs_text].
  cbn [fst snd].
  destruct (ExtractScript.sorted_ids _) as [ids|e]; [|done].
  cbn [mbind result_bind].
  destruct (ExtractScript.affiliation_rows _ ids) as [rows|e]; [|done].
  cbn [mbind result_bind]. by intros [= <-].
Qed.

Lemma join_empty sep (lines : list string) :
  Forall trimmed lines → Py.join sep lines = "" ↔ lines = [].
Proof.
  intros Hlines. split; [|by intros ->].
  destruct Hlines as [|x l (Hx & _) _]; [done|].
  intros Hjoin. by apply (join_nonempty sep x l) in Hjoin.
Qed.

End warning.

(** X18. The extraction warns exactly when no affiliation line is left:
    the warning is printed when, and only when, the text has no sentinel
    line or no line that is neither blank nor a sentinel after the first
    one; it is printed also when the sentinel is there and nothing
    follows it. *)
Theorem X18_extraction_warns_iff_no_affiliation_line (full_text : string)
    (Hlimit : Forall within_int_limit
                (Dict.keys (Extract.parse_affiliations_to_dict
                              (Extract.parse_data full_text).2))) :
  ∃ out,
    ExtractScript.main full_text = Ok out
    ∧ ("Warning: No 'Affiliations' section found." ∈ ExtractScript.stdout out
       ↔ filter (λ x, ¬ sentinel x)
           (after_sentinel (content (Py.split Py.LF full_text))) = []).
Proof.
  destruct (extract_main_spec full_text) as (out & ids & Hmain & _).
  exists out. split; [done|].
  rewrite (extract_main_stdout _ _ Hmain), parse_data_lines. cbn [snd].
  rewrite <- (join_empty (String Py.LF ""));
    [|apply Forall_forall; intros l [_ Hl]%list_elem_of_filter; revert l Hl;
      apply Forall_forall, after_sentinel_Forall, content_trimmed].
  rewrite !elem_of_app, elem_of_cons, !elem_of_cons, elem_of_nil.
  case_bool_decide as Hempty.
  - rewrite elem_of_cons. naive_solver.
  - rewrite elem_of_nil. split; [|done].
    intros H. by destruct_or!.
Qed.

Lemma X18_witness :
  ∃ out,
    ExtractScript.main
      (Py.join (String Py.LF "") ["My Title"; "Jane Doe1"; "Affiliations"])
    = Ok out
    ∧ ("Warning: No 'Affiliations' section found." ∈ ExtractScript.stdout out
       ↔ filter (λ x, ¬ sentinel x)
           (after_sentinel
              (content
                 (Py.split Py.LF
                    (Py.join (String Py.LF "")
                       ["My Title"; "Jane Doe1"; "Affiliations"])))) = []).
Proof.
  apply (X18_extraction_warns_iff_no_affiliation_line
           (Py.join (String Py.LF "")
              ["My Title"; "Jane Doe1"; "Affiliations"])).
  unfold within_int_limit. refine (bool_decide_unpack _ _).
  vm_compute. exact I.
Defined.

(** ** What the renumbering prints *)

Section printed.
Import Renumber.
Variable m : dict.
Variable names : list author.

Lemma missing_snoc R k :
  missing m (R ++ [k])
  = missing m R
    ++ (if decide (k ∈ R) then []
        else if Dict.mem k m then [] else [k]).
Proof.
  unfold missing. rewrite first_seen_app, filter_app. f_equal. simpl.
  rewrite filter_nil, (filter_cons (λ y, y ∉ R)).
  destruct (decide (k ∈ R)) as [HR|HR].
  - by rewrite decide_False by naive_solver.
  - rewrite decide_True by done. rewrite filter_cons, filter_nil.
    destruct (Dict.mem k m); [by rewrite decide_False|by rewrite decide_True].
Qed.

Lemma reported_ext R R' st st' :
  reported m names R st → missing m R' = missing m R →
  stdout st' = stdout st → reported m names R' st'.
Proof.
  intros (authors & Hall & Hout) HR Hst. exists authors.
  by rewrite HR, Hst.
Qed.

Lemma visit_reported a k R st v st' :
  inv m R st → reported m names R st →
  a ∈ names → k ∈ original_ids (affils a) →
  visit m a k st = Ok (v, st') → reported m names (R ++ [k]) st'.
Proof.
  intros Hinv Hrep Ha Hk.
  pose proof (inv_map _ _ _ Hinv k) as Hmk.
  pose proof (missing_snoc R k) as Hmiss.
  unfold visit, mbind, M_bind, bind, seen, gets. simpl.
  destruct (decide (k ∈ R)) as [HR|HR].
  - rewrite bool_decide_eq_true_2 by (rewrite Hmk; eauto). simpl.
    unfold remap_getitem. rewrite Hmk. intros [= _ <-].
    eapply reported_ext; [done| |done]. by rewrite Hmiss, app_nil_r.
  - rewrite bool_decide_eq_false_2 by (rewrite Hmk; by intros [? ?]). simpl.
    destruct (Dict.mem k m) eqn:Hmem; simpl.
    + rewrite (mem_getitem _ _ Hmem). simpl.
      unfold remap_getitem. simpl. rewrite lookup_insert_eq.
      intros [= _ <-].
      eapply reported_ext; [done| |done]. by rewrite Hmiss, app_nil_r.
    + unfold remap_getitem. simpl. rewrite lookup_insert_eq.
      intros [= _ <-]. destruct Hrep as (authors & Hall & Hout).
      exists (authors ++ [a]). rewrite Hmiss. simpl. split.
      * apply Forall2_app; [done|]. by repeat constructor.
      * rewrite Hout, zip_with_app; [done|]. by eapply Forall2_length.
Qed.

Lemma collect_visit_reported a ids R st :
  inv m R st → warned m names R st → reported m names R st →
  a ∈ names → ids ⊆ original_ids (affils a) →
  ∀ vs st', collect ids (visit m a) st = Ok (vs, st') →
            reported m names (R ++ ids) st'.
Proof.
  intros Hinv Hw Hrep Ha. revert R st Hinv Hw Hrep.
  induction ids as [|k ids IH]; intros R st Hinv Hw Hrep Hsub vs st'; simpl.
  - intros [= _ <-]. by rewrite app_nil_r.
  - destruct (visit_spec m names a k R st) as (st1 & Hv & Hinv1 & Hw1 & _);
      [done|done|done|set_solver|].
    unfold mbind, M_bind, bind. rewrite Hv.
    destruct (collect ids (visit m a) st1) as [[vs2 st2]|e] eqn:Hc; [|done].
    simpl. intros [= _ <-].
    change (k :: ids) with ([k] ++ ids). rewrite (assoc_L (++)).
    apply (IH (R ++ [k]) st1 Hinv1 Hw1) with (vs := vs2);
      [|set_solver|done].
    eapply visit_reported; [exact Hinv|done|done|set_solver|exact Hv].
Qed.

Lemma each_author_reported a R st st' :
  inv m R st → warned m names R st → reported m names R st → a ∈ names →
  each_author m a st = Ok (tt, st') →
  reported m names (R ++ original_ids (affils a)) st'.
Proof.
  intros Hinv Hw Hrep Ha. unfold each_author.
  case_bool_decide as Hblank.
  - rewrite (original_ids_blank _ Hblank), app_nil_r. intros [= <-].
    by eapply reported_ext.
  - unfold mbind, M_bind, bind.
    destruct (collect (original_ids (affils a)) (visit m a) st)
      as [[vs st1]|e] eqn:Hc; [|done].
    intros [= <-].
    apply (reported_ext (R ++ original_ids (affils a)) _ st1); [|done|done].
    by eapply (collect_visit_reported a _ R st).
Qed.

Lemma authors_loop_reported rest R st st' :
  inv m R st → warned m names R st → reported m names R st →
  rest ⊆ names →
  for_each rest (each_author m) st = Ok (tt, st') →
  reported m names (R ++ references rest) st'.
Proof.
  revert R st.
  induction rest as [|a rest IH]; intros R st Hinv Hw Hrep Hsub; simpl.
  - intros [= <-]. unfold references. simpl. by rewrite app_nil_r.
  - destruct (each_author_spec m names a R st)
      as (st1 & He & Hinv1 & Hw1 & _); [done|done|set_solver|].
    unfold mbind, M_bind, bind. rewrite He. intros Hrest.
    unfold references. simpl. rewrite (assoc_L (++)).
    apply (IH (R ++ original_ids (affils a)) st1); [done|done| |set_solver|done].
    eapply each_author_reported; [exact Hinv|done|done|set_solver|exact He].
Qed.

(** What has been printed when the function returns. *)
Lemma run_reported :
  ∃ st, run names m = Ok st ∧ reported m names (references names) st.
Proof.
  destruct (authors_loop_spec m names names [] initial)
    as (st1 & H1 & Hinv1 & Hw1 & Hu1);
    [apply inv_initial|by intros k ?%elem_of_nil|done|].
  simpl in *.
  destruct (items_loop_spec m [] m (references names) st1)
    as (st2 & H2 & Hinv2 & Hu2 & Ho2); [done|set_solver|done|].
  exists st2. split.
  - unfold run, mbind, M_bind, bind. rewrite H1. unfold Dict.items.
    by rewrite H2.
  - assert (reported m names (references names) st1) as Hrep.
    { apply (authors_loop_reported names [] initial st1);
        [apply inv_initial|by intros k ?%elem_of_nil| |done|done].
      exists []. split; [constructor|done]. }
    by eapply reported_ext.
Qed.

End printed.

(** X19. The renumbering prints one warning for every missing id and
    nothing else: what it has printed when it returns is, in the order in
    which the ids first appear in the references, one line for each id
    that is not a key of the mapping, however often and by however many
    authors the id is referred to.  The line says that an author, by the
    last name, who refers to the id references the affiliation id, between
    quotes, which is not in the affiliations file, and that the original
    id is kept.  When every reference is a key, nothing is printed.  The
    references are what a reference text holds between its commas,
    without the white space around and without the blank pieces. *)
Theorem X19_one_warning_for_every_missing_id
    (names : list Renumber.author) (m : dict) :
  (∀ s, items_of "," s (Renumber.original_ids s))
  ∧ ∃ st authors,
    Renumber.run names m = Ok st
    ∧ Forall2 (λ a k, a ∈ names
                      ∧ k ∈ Renumber.original_ids (Renumber.affils a))
        authors (missing m (references names))
    ∧ Renumber.stdout st
      = zip_with
          (λ a k, "Warning: Author " +:+ Renumber.last a
                  +:+ " references affiliation ID '" +:+ k
                  +:+ "', which is not in the affiliations file. Keeping original ID.")
          authors (missing m (references names))
    ∧ (Forall (λ k, Dict.mem k m = true) (references names) →
       Renumber.stdout st = []).
Proof.
  split; [intros s; apply items_of_split|].
  destruct (run_reported m names) as (st & Hrun & authors & Hall & Hout).
  exists st, authors. split_and!; [done|done|done|].
  intros Hpresent.
  assert (missing m (references names) = []) as Hnone.
  { unfold missing. apply filter_none, Forall_forall.
    intros k Hk%elem_of_first_seen_1. rewrite Forall_forall in Hpresent.
    by rewrite (Hpresent k Hk). }
  rewrite Hout, Hnone. by destruct authors.
Qed.

(** ** The text of a run *)

Section runs.
Import Render.

Lemma length_app (s t : string) :
  String.length (s +:+ t) = (String.length s + String.length t)%nat.
Proof.
  induction s as [|c s IH]; [done|]. rewrite app_String. simpl.
  by rewrite IH.
Qed.

Lemma app_inv_tail (s t u : string) : s +:+ u = t +:+ u → s = t.
Proof.
  revert t. induction s as [|c s IH]; intros [|c' t]; [done| | |].
  - intros H%(f_equal String.length). rewrite !length_app in H.
    simpl in H. lia.
  - intros H%(f_equal String.length). rewrite !length_app in H.
    simpl in H. lia.
  - rewrite !app_String. intros [= -> H]. by rewrite (IH t H).
Qed.

(** No angle bracket is left in an escaped text. *)
Lemma escape_no_angle s :
  Py.forallb (λ c, negb (Py.is_char "<" c || Py.is_char ">" c)) (escape s)
  = true.
Proof.
  induction s as [|c s IH]; [done|]. cbn [escape].
  rewrite forallb_app, IH, andb_true_r. unfold Py.is_char.
  repeat case_bool_decide; subst; try done.
  simpl. by rewrite !bool_decide_eq_false_2 by done.
Qed.

(** Escaping loses nothing. *)
Lemma escape_inj s t : escape s = escape t → s = t.
Proof.
  revert t. induction s as [|c s IH]; intros [|c' t]; cbn [escape].
  - done.
  - unfold Py.is_char. by repeat case_bool_decide.
  - unfold Py.is_char. by repeat case_bool_decide.
  - unfold Py.is_char.
    repeat case_bool_decide; subst; rewrite ?app_String;
      change ("" +:+ ?x) with x; intros Heq; simplify_eq;
      by erewrite IH.
Qed.

End runs.

(** X20. The text of a run is escaped without loss: what stands for the
    text in the markup of a run holds no angle bracket, whatever the
    text, and two runs with the same formatting are the same markup only
    if they have the same text. *)
Theorem X20_runs_escape_their_text_without_loss
    (text : string) (superscription bold : bool) :
  Py.forallb (λ c, negb (Py.is_char "<" c || Py.is_char ">" c))
    (Render.escape text) = true
  ∧ ∀ text',
      Render.create_run_xml text' superscription bold
      = Render.create_run_xml text superscription bold →
      text' = text.
Proof.
  split; [apply escape_no_angle|].
  intros text'. unfold Render.create_run_xml.
  intros H. do 7 (apply (inj (String.app _)) in H).
  by apply app_inv_tail, escape_inj in H.
Qed.

(** ** The unused affiliations of a document *)

Section unused.

Lemma filter_ascending (P : string → Prop) `{∀ x, Decision (P x)}
    (l : list string) :
  ascending l → ascending (filter P l).
Proof.
  unfold ascending. induction 1 as [|x l Hl IH Hx]; [constructor|].
  rewrite filter_cons. destruct (decide (P x)); [|done].
  constructor; [done|]. apply Forall_forall.
  intros y [_ Hy]%list_elem_of_filter. rewrite Forall_forall in Hx.
  by apply Hx.
Qed.

Lemma entries_keys (d : dict) (ids : list string) :
  Dict.keys (entry_of_id d <$> ids) = ids.
Proof.
  unfold Dict.keys. rewrite <- list_fmap_compose.
  change (fst ∘ _) with (@id string). by rewrite list_fmap_id.
Qed.

Lemma renumber_sorted_mapping names (m : dict) :
  Dict.wf m → ascending (Dict.keys m) →
  ∃ affs names',
    Renumber.renumber_affiliations names m = Ok (affs, names')
    ∧ affs = numbered m (used m (references names) ++ orphans names m)
    ∧ ascending (orphans names m).
Proof.
  intros Hwf Hasc.
  destruct (run_spec names m) as (st & Hrun & Hinv & _ & Hupd).
  pose proof (final_ids_split names m Hwf) as Hfin. unfold final_ids in Hfin.
  pose proof (renumber_affiliations_run _ _ _ Hrun) as Hren.
  rewrite (inv_list _ _ _ Hinv), Hfin in Hren.
  eexists _, _. split_and!; [exact Hren|done|].
  unfold orphans. by apply filter_ascending.
Qed.

End unused.

(** X21. In the pipeline the affiliations that no author refers to come
    last, in ascending order of their original numbers: the mapping that
    the renumbering reads from the tables of the extraction, when no field
    of them is too long for the reader, is sorted, so that the output list
    is the referenced affiliations in order of first appearance followed
    by the unused ones in numeric order, all numbered from 1. *)
Theorem X21_unused_affiliations_come_last_in_numeric_order
    (full_text : string)
    (Hlimit : Forall within_int_limit
                (Dict.keys (Extract.parse_affiliations_to_dict
                              (Extract.parse_data full_text).2))) :
  ∃ out names m affs names',
    ExtractScript.main full_text = Ok out
    ∧ uncurry RenumberScript.read_inputs
      <$> Csv.read_tables (ExtractScript.names_csv out)
                          (ExtractScript.affiliations_csv out)
      = (if Csv.readable (ExtractScript.names_csv out)
            && Csv.readable (ExtractScript.affiliations_csv out)
         then Some (names, m) else None)
    ∧ Renumber.renumber_affiliations names m = Ok (affs, names')
    ∧ affs = numbered m (used m (references names) ++ orphans names m)
    ∧ ascending (Dict.keys m)
    ∧ ascending (orphans names m).
Proof.
  destruct (extract_then_read full_text)
    as (out & ids & Hmain & Hperm & Hasc & Hread).
  destruct (renumber_sorted_mapping
              (author_of_record
               <$> Extract.parse_authors_to_list
                     (Extract.parse_data full_text).1)
              (entry_of_id
                 (Extract.parse_affiliations_to_dict
                    (Extract.parse_data full_text).2) <$> ids))
    as (affs & names' & Hren & Haffs & Horph).
  - unfold Dict.wf. rewrite entries_keys, Hperm. apply parsed_wf.
  - by rewrite entries_keys.
  - eexists out, _, _, affs, names'.
    split_and!; [done| |exact Hren|done|by rewrite entries_keys|done].
    rewrite read_tables_spec.
    destruct (_ && _); [|done]. cbn [fmap option_fmap option_map uncurry].
    by f_equal.
Qed.

Lemma X21_witness :
  ∃ out names m affs names',
    ExtractScript.main example_document = Ok out
    ∧ uncurry RenumberScript.read_inputs
      <$> Csv.read_tables (ExtractScript.names_csv out)
                          (ExtractScript.affiliations_csv out)
      = (if Csv.readable (ExtractScript.names_csv out)
            && Csv.readable (ExtractScript.affiliations_csv out)
         then Some (names, m) else None)
    ∧ Renumber.renumber_affiliations names m = Ok (affs, names')
    ∧ affs = numbered m (used m (references names) ++ orphans names m)
    ∧ ascending (Dict.keys m)
    ∧ ascending (orphans names m).
Proof.
  apply (X21_unused_affiliations_come_last_in_numeric_order example_document).
  unfold within_int_limit. refine (bool_decide_unpack _ _).
  vm_compute. exact I.
Defined.

(** ** What follows the last number of the author block *)

Section trailing.
Import Extract.

Lemma lstrip_chars_app p (u v : string) :
  Py.lstrip_chars p (u +:+ v)
  = if Py.forallb p u then Py.lstrip_chars p v
    else Py.lstrip_chars p u +:+ v.
Proof.
  induction u as [|c u IH]; [done|]. rewrite app_String. simpl.
  destruct (p c); [exact IH|done].
Qed.

Lemma space_no_digit s :
  Py.forallb Py.isspace s = true →
  Py.forallb (λ c, negb (Py.isdecimal c)) s = true.
Proof. apply forallb_impl. by intros [[] [] [] [] [] [] [] []]. Qed.

Lemma replace_no_digit s :
  Py.forallb (λ c, negb (Py.isdecimal c)) s = true →
  Py.forallb (λ c, negb (Py.isdecimal c)) (Py.replace Py.LF " " s) = true.
Proof.
  induction s as [|c s IH]; simpl; [done|].
  intros [Hc Hs]%andb_true_iff. rewrite (IH Hs), andb_true_r.
  case_bool_decide; [done|exact Hc].
Qed.

(** After a run of ids, a text without digits adds commas to the run at
    most. *)
Lemma finditer_from_digits_tail n ids w :
  Py.forallb (λ c, negb (Py.isdecimal c)) w = true →
  ∃ commas,
    Py.forallb (Py.is_char ",") commas = true
    ∧ finditer_from (Digits n ids) w
      = [(String.rev n, String.rev ids +:+ commas)].
Proof.
  revert ids. induction w as [|c w IH]; intros ids; simpl.
  - intros _. exists "". by rewrite string_app_nil_r.
  - intros [Hc Hw]%andb_true_iff. apply negb_true_iff in Hc. rewrite Hc.
    simpl. destruct (Py.is_char "," c) eqn:Hcomma.
    + destruct (IH (String c ids) Hw) as (commas & Hcommas & ->).
      exists (String c commas). split; [simpl; by rewrite Hcomma|].
      by rewrite rev_cons, string_app_assoc.
    + exists "". split; [done|]. rewrite string_app_nil_r.
      by rewrite (finditer_no_digit (Name (String c "")) w) by eauto.
Qed.

Lemma author_of_match_commas g1 g2 commas :
  id_run g2 → Py.forallb (Py.is_char ",") commas = true →
  author_of_match (g1, g2 +:+ commas) = author_of_match (g1, g2).
Proof.
  intros Hids Hcommas.
  assert (id_run (g2 +:+ commas)) as Hids'.
  { destruct Hids as (c & rest & -> & Hc & Hrest).
    exists c, (rest +:+ commas). split_and!; [done|done|].
    rewrite forallb_app, Hrest. simpl. revert Hcommas.
    apply forallb_impl. intros c' ->. apply orb_true_r. }
  assert (Py.strip_chars (Py.is_char ",") (Py.strip (g2 +:+ commas))
          = Py.strip_chars (Py.is_char ",") (Py.strip g2)) as Haff.
  { rewrite !id_run_strip by done. unfold Py.strip_chars.
    destruct Hids as (c & rest & -> & Hc & Hrest).
    assert (Py.is_char "," c = false) as Hcomma
      by (revert Hc; by destruct c as [[] [] [] [] [] [] [] []]).
    rewrite app_String. cbn [Py.lstrip_chars]. rewrite Hcomma.
    rewrite <- app_String. by apply rstrip_chars_app_stripped. }
  unfold author_of_match. cbn [fst snd]. by rewrite Haff.
Qed.

(** A text without digits behind a text adds no record and changes none. *)
Lemma finditer_from_app sc s w :
  scanner_ok sc →
  Py.forallb (λ c, negb (Py.isdecimal c)) w = true →
  omap author_of_match (finditer_from sc (s +:+ w))
  = omap author_of_match (finditer_from sc s).
Proof.
  intros Hsc Hw. revert sc Hsc.
  induction s as [|c s IH]; intros sc Hsc.
  - change ("" +:+ w) with w. destruct sc as [|n|n ids].
    + by rewrite finditer_no_digit by eauto.
    + by rewrite finditer_no_digit by eauto.
    + destruct (finditer_from_digits_tail n ids w Hw)
        as (commas & Hcommas & ->).
      destruct Hsc as [_ Hids]. cbn [finditer_from omap list_omap].
      by rewrite author_of_match_commas.
  - rewrite app_String. destruct sc as [|n|n ids]; cbn [finditer_from].
    + destruct (Py.isdecimal c) eqn:Hc; apply IH; [done|].
      simpl. by apply (name_run_snoc "" c); [|left].
    + destruct (Py.isdecimal c) eqn:Hc; apply IH; simpl.
      * split; [done|]. exists c, "". by rewrite Hc.
      * rewrite rev_cons. apply name_run_snoc; [done|by right].
    + destruct Hsc as [Hn Hids].
      destruct (Py.isdecimal c || Py.is_char "," c) eqn:Hc.
      * apply IH. simpl. split; [done|].
        rewrite rev_cons. by apply id_run_snoc.
      * cbn [omap list_omap]. rewrite IH; [done|]. simpl.
        apply orb_false_iff in Hc as [Hc _].
        by apply (name_run_snoc "" c); [|left].
Qed.

(** The records of a stream are those of the stream without the spaces
    at its end. *)
Lemma records_rstrip s :
  omap author_of_match (finditer (Py.rstrip_chars Py.isspace s))
  = omap author_of_match (finditer s).
Proof.
  destruct (rstrip_chars_split Py.isspace s) as (post & Hs & Hpost).
  rewrite Hs at 2. symmetry. unfold finditer.
  apply finditer_from_app; [done|by apply space_no_digit].
Qed.

End trailing.

(** X22. What follows the last number of the author block is dropped:
    text without digits at the end of the block adds no record and
    changes none, so that an author who comes last without a number is
    lost without a message. *)
Theorem X22_text_after_the_last_number_is_dropped (text tail : string)
    (Htail : Py.forallb (λ c, negb (Py.isdecimal c)) tail = true) :
  Extract.parse_authors_to_list (text +:+ tail)
  = Extract.parse_authors_to_list text.
Proof.
  unfold Extract.parse_authors_to_list, Py.strip, Py.strip_chars.
  rewrite !records_rstrip, replace_app, lstrip_chars_app.
  pose proof (replace_no_digit _ Htail) as Hv.
  destruct (Py.forallb Py.isspace (Py.replace Py.LF " " text)) eqn:Hu.
  - unfold Extract.finditer.
    rewrite !(finditer_no_digit Extract.Start); [done|by left| |by left|].
    + by apply forallb_lstrip_chars, space_no_digit.
    + by apply forallb_lstrip_chars.
  - unfold Extract.finditer. by apply finditer_from_app.
Qed.

Lemma X22_witness :
  Extract.parse_authors_to_list ("Jane A. Doe1,2 John Smith2" +:+ ", Ann Lee")
  = Extract.parse_authors_to_list "Jane A. Doe1,2 John Smith2".
Proof. apply X22_text_after_the_last_number_is_dropped. reflexivity. Defined.

(** ** Ids that are not numbers *)

Section text_order.
Import Render.

Lemma ltb_trans_le (x y z : string) :
  String.ltb x y = true → String.ltb z y = false → String.ltb z x = false.
Proof.
  unfold String.ltb. intros Hxy Hzy.
  destruct (String.compare z x) eqn:Hzx; [done| |done]. exfalso.
  destruct (String.compare x y) eqn:Hxy'; [done| |done].
  apply OrderedTypeEx.String_as_OT.cmp_lt in Hzx, Hxy'.
  pose proof (OrderedTypeEx.String_as_OT.lt_trans _ _ _ Hzx Hxy') as Hlt.
  apply OrderedTypeEx.String_as_OT.cmp_lt in Hlt.
  unfold OrderedTypeEx.String_as_OT.cmp in Hlt. by rewrite Hlt in Hzy.
Qed.

Lemma with_keys_text ks :
  Forall (λ k, Py.isdigit k = false) ks →
  ∃ keyed, with_keys ks = Ok keyed ∧ keyed.*2 = ks
    ∧ Forall text_pair keyed.
Proof.
  induction 1 as [|k ks Hk _ (keyed & Hw & Hids & Htext)]; simpl.
  - by exists [].
  - rewrite (sort_key_text _ Hk). simpl. rewrite Hw. simpl.
    exists ((StrKey k, k) :: keyed).
    split_and!; [done|by rewrite fmap_cons, Hids|by constructor].
Qed.

Lemma text_same_kind l : Forall text_pair l → same_kind false l.
Proof.
  intros Hl. eapply Forall_impl; [exact Hl|].
  intros p Hp. unfold text_pair in Hp. by rewrite Hp.
Qed.

Lemma insert_sorted_text x l l' :
  text_pair x → Forall text_pair l →
  StronglySorted (λ p q, String.ltb q.2 p.2 = false) l →
  insert x l = Ok l' →
  StronglySorted (λ p q, String.ltb q.2 p.2 = false) l'.
Proof.
  intros Hx Hl Hs. revert l' Hl.
  induction Hs as [|y l Hs IH Hy]; intros l' Hl; simpl.
  - intros [= <-]. by repeat constructor.
  - inversion_clear Hl as [|? ? Hty Htl].
    unfold text_pair in Hx, Hty. rewrite Hx, Hty. simpl.
    destruct (String.ltb x.2 y.2) eqn:Hlt.
    + intros [= <-]. constructor; [by constructor|].
      constructor.
      * unfold String.ltb in *. rewrite String.compare_antisym.
        by destruct (String.compare x.2 y.2).
      * eapply Forall_impl; [exact Hy|]. simpl. intros z Hz.
        by eapply ltb_trans_le.
    + destruct (insert x l) as [r|e] eqn:Hins; simpl; [|done].
      intros [= <-]. constructor; [by apply IH|].
      assert (r ≡ₚ x :: l) as Hperm.
      { destruct (insert_same_kind false x l) as (r' & Hr' & _ & _ & Hp).
        - by apply text_same_kind.
        - by rewrite Hx.
        - congruence. }
      rewrite Hperm. by constructor.
Qed.

Lemma sort_into_sorted_text done todo l :
  Forall text_pair done → Forall text_pair todo →
  StronglySorted (λ p q, String.ltb q.2 p.2 = false) done →
  sort_into done todo = Ok l →
  StronglySorted (λ p q, String.ltb q.2 p.2 = false) l.
Proof.
  intros Hd Ht. revert done Hd.
  induction Ht as [|x todo Hx _ IH]; intros done Hd Hs; simpl.
  - by intros [= <-].
  - destruct (insert x done) as [l'|e] eqn:Hins; simpl; [|done].
    apply IH; [|by eapply insert_sorted_text].
    destruct (insert_same_kind false x done) as (r' & Hr' & _ & _ & Hp).
    + by apply text_same_kind.
    + unfold text_pair in Hx. by rewrite Hx.
    + assert (l' = r') as -> by congruence. rewrite Hp. by constructor.
Qed.

Lemma sorted_ids_text (affiliations : dict) :
  Forall (λ k, Py.isdigit k = false) (Dict.keys affiliations) →
  ∃ ids, sorted_ids affiliations = Ok ids
    ∧ ids ≡ₚ Dict.keys affiliations
    ∧ ascending_text ids.
Proof.
  intros Hks. unfold sorted_ids.
  destruct (with_keys_text _ Hks) as (keyed & -> & Hids & Htext). simpl.
  destruct (sort_into_same_kind false [] keyed) as (l & Hl & Hperm);
    [constructor|by apply text_same_kind|].
  rewrite Hl. simpl. exists (l.*2). split_and!; [done| |].
  - by rewrite Hperm, <- Hids.
  - assert (StronglySorted (λ p q, String.ltb q.2 p.2 = false) l) as Hs.
    { apply (sort_into_sorted_text [] keyed l);
        [constructor|done|constructor|done]. }
    clear -Hs. unfold ascending_text.
    induction Hs as [|p l _ IH Hp]; simpl; [constructor|].
    constructor; [done|]. by apply Forall_fmap.
Qed.

End text_order.

(** X23. With ids none of which is a digit string, the rendering succeeds
    and the document lists every affiliation once, in ascending order of
    the code points of the ids, whoever the authors are: the order by
    value and the order by text are both there, each for tables that hold
    one kind of id only. *)
Theorem X23_document_lists_text_ids_in_code_point_order
    (authors : list Renumber.author) (affiliations : dict)
    (Htext : Forall (λ k, Py.isdigit k = false) (Dict.keys affiliations)) :
  ∃ ids, ids ≡ₚ Dict.keys affiliations
    ∧ ascending_text ids
    ∧ Render.generate_document_xml authors affiliations
      = Ok (document authors affiliations ids).
Proof.
  destruct (sorted_ids_text affiliations Htext)
    as (ids & Hsorted & Hperm & Hasc).
  exists ids. split_and!; [done|done|].
  apply generate_with_ids; [done|by apply Permutation_keys].
Qed.

Lemma X23_witness :
  ∃ ids, ids ≡ₚ ["b"; "B"; "a1"]
    ∧ ascending_text ids
    ∧ Render.generate_document_xml
        [Renumber.Author "Doe" "Jane" "b,a1"]
        [("b", "MIT"); ("B", "Stanford"); ("a1", "Oxford")]
      = Ok (document [Renumber.Author "Doe" "Jane" "b,a1"]
              [("b", "MIT"); ("B", "Stanford"); ("a1", "Oxford")] ids).
Proof.
  apply (X23_document_lists_text_ids_in_code_point_order
           [Renumber.Author "Doe" "Jane" "b,a1"]
           [("b", "MIT"); ("B", "Stanford"); ("a1", "Oxford")]).
  refine (bool_decide_unpack _ _). vm_compute. exact I.
Defined.
